(** * Guardrails: diff parser, rule sets and policy engine

    A shallow embedding of the decision core of the guardrails service:
    [PRScanner.scan_pr] (scanner.py), [SecurityScanner.scan]
    (security_rules.py), [StandardsChecker.scan] (standards_checker.py),
    [LicenseChecker.scan] (license_checker.py) and [PolicyEngine]
    (policy_engine.py).

    Python values are modelled by the type [value]; a [dict] with string
    keys is a [gmap string value].  Strings are sequences of 8-bit
    characters, read as the code points U+0000..U+00FF.  Code that can raise
    returns a [result]; a [try ... except Exception] is a match on it.

    Further on come the constructor of the GitHub client (github_api.py),
    the check of generated code (sam_integration.py) and the loader of the
    configuration (config_loader.py).  The loader changes the dicts of a
    document in place, so there a dict is a location of a store. *)

From Stdlib Require Import ZArith Ascii String List Bool Lia DecimalString Sorted.
From stdpp Require Import base option list strings gmap.

Local Open Scope string_scope.

(** ** Python values, exceptions and the few builtins the code uses *)

Module Py.

#[local] Set Warnings "-register-all".

Inductive value :=
| VNone
| VBool (b : bool)
| VInt (z : Z)
| VStr (s : string)
| VList (l : list value)
| VDict (d : gmap string value).

Inductive exn :=
| KeyError (key : string)
| TypeError (msg : string)
| ValueError (msg : string)
| AttributeError (msg : string)
| RuntimeError (msg : string).

Inductive result (A : Type) :=
| Ok (a : A)
| Raise (e : exn).
Arguments Ok {A} a.
Arguments Raise {A} e.

Definition bind {A B} (m : result A) (f : A -> result B) : result B :=
  match m with
  | Ok a => f a
  | Raise e => Raise e
  end.

#[global] Instance result_ret : MRet result := @Ok.
#[global] Instance result_bind : MBind result := fun A B f m => bind m f.

Definition is_ok {A} (m : result A) : bool :=
  match m with Ok _ => true | Raise _ => false end.

(** [d[k]] on an arbitrary object: [KeyError] on a dict without the key,
    [TypeError] on anything that is not subscriptable by a string. *)
Definition getitem (v : value) (k : string) : result value :=
  match v with
  | VDict d =>
      match d !! k with
      | Some x => Ok x
      | None => Raise (KeyError k)
      end
  | _ => Raise (TypeError "object is not subscriptable by str")
  end.

(** [v.get(k, default)]: only dicts have the method. *)
Definition get_method (v : value) (k : string) (dflt : value) : result value :=
  match v with
  | VDict d => Ok (default dflt (d !! k))
  | _ => Raise (AttributeError "object has no attribute 'get'")
  end.

(** [hash(v)] succeeds on None, bool, int and str; lists and dicts are
    unhashable. *)
Definition hashable (v : value) : bool :=
  match v with
  | VList _ | VDict _ => false
  | _ => true
  end.

(** [v == s] for a string literal [s]. *)
Definition eq_str (v : value) (s : string) : bool :=
  match v with
  | VStr t => String.eqb t s
  | _ => false
  end.

(** [v in {s1, ..., sn}] for a set of string literals: hashing comes first. *)
Definition in_str_set (v : value) (set : list string) : result bool :=
  if hashable v then Ok (existsb (eq_str v) set)
  else Raise (TypeError "unhashable type").

(** [s.startswith(p)] *)
Fixpoint startswith (s p : string) : bool :=
  match p with
  | EmptyString => true
  | String a p' =>
      match s with
      | EmptyString => false
      | String b s' => Ascii.eqb a b && startswith s' p'
      end
  end.

Definition newline : ascii := Ascii.ascii_of_nat 10.

(** [s.split('\n')]: never empty, [''.split('\n') == ['']]. *)
Fixpoint split_lines (s : string) : list string :=
  match s with
  | EmptyString => [EmptyString]
  | String a s' =>
      if Ascii.eqb a newline then EmptyString :: split_lines s'
      else match split_lines s' with
           | l :: ls => String a l :: ls
           | [] => [String a EmptyString]
           end
  end.

(** [p in s] for strings. *)
Fixpoint contains (s p : string) : bool :=
  startswith s p ||
  match s with
  | EmptyString => false
  | String _ s' => contains s' p
  end.

Definition str_of_nat (n : nat) : string :=
  NilEmpty.string_of_uint (Nat.to_uint n).

(** Truth value of an object, as [if v] and [not v] read it. *)
Definition truthy (v : value) : bool :=
  match v with
  | VNone => false
  | VBool b => b
  | VInt z => negb (Z.eqb z 0)
  | VStr s => negb (String.eqb s "")
  | VList l => match l with [] => false | _ => true end
  | VDict d => negb (bool_decide (d = ∅))
  end.

(** [str(v)], as an f-string formats it, for the objects that have a short
    form; containers print as an ellipsis here. *)
Definition py_str (v : value) : string :=
  match v with
  | VNone => "None"
  | VBool true => "True"
  | VBool false => "False"
  | VInt z => NilZero.string_of_int (Z.to_int z)
  | VStr s => s
  | VList _ => "[...]"
  | VDict _ => "{...}"
  end.

End Py.

(** ** Regular expressions: the fragment of Python's [re] the rules use

    A backtracking matcher in continuation-passing style.  Alternatives are
    tried left to right and [*] is greedy, which is the priority order of
    Python's engine, so the first success is the match Python reports. *)

Module Re.

Definition code (a : ascii) : nat := Ascii.nat_of_ascii a.

Definition in_range (lo hi : nat) (a : ascii) : bool :=
  (lo <=? code a)%nat && (code a <=? hi)%nat.

(** [\d] *)
Definition is_digit (a : ascii) : bool := in_range 48 57 a.

(** [[A-Z]] and [[a-z]] *)
Definition is_upper (a : ascii) : bool := in_range 65 90 a.
Definition is_lower (a : ascii) : bool := in_range 97 122 a.

(** [\s] on a str pattern: the Unicode white space below U+0100. *)
Definition is_space (a : ascii) : bool :=
  in_range 9 13 a || in_range 28 32 a
  || (code a =? 133)%nat || (code a =? 160)%nat.

(** [\w] on a str pattern: alphanumerics below U+0100 and the underscore. *)
Definition is_word (a : ascii) : bool :=
  is_digit a || is_upper a || is_lower a || (code a =? 95)%nat
  || (code a =? 170)%nat || (code a =? 178)%nat || (code a =? 179)%nat
  || (code a =? 181)%nat || (code a =? 185)%nat || (code a =? 186)%nat
  || in_range 188 190 a || in_range 192 214 a || in_range 216 246 a
  || in_range 248 255 a.

(** [.] : anything but a newline *)
Definition is_any (a : ascii) : bool := negb (Ascii.eqb a Py.newline).

Definition is_char (x : ascii) (a : ascii) : bool := Ascii.eqb x a.

(** [[^xy]] *)
Definition is_none_of (x y : ascii) (a : ascii) : bool :=
  negb (Ascii.eqb x a) && negb (Ascii.eqb y a).

(** [[xy]] *)
Definition is_one_of (x y : ascii) (a : ascii) : bool :=
  Ascii.eqb x a || Ascii.eqb y a.

Inductive regex :=
| Eps
| Cls (p : ascii -> bool)
| Seq (r1 r2 : regex)
| Alt (r1 r2 : regex)
| Star (r : regex)
| Grp (n : nat) (r : regex)
| Bol
| WordB.

Definition Plus (r : regex) : regex := Seq r (Star r).
Definition Opt (r : regex) : regex := Alt r Eps.

Fixpoint Lit (s : string) : regex :=
  match s with
  | EmptyString => Eps
  | String a s' => Seq (Cls (is_char a)) (Lit s')
  end.

(** A position in the subject: the character just before it, if any, and
    what is left to read. *)
Record cursor := Cursor { prev : option ascii; rest : string }.

Definition caps := list (nat * string).

(** The text between two positions of one subject. *)
Definition consumed (c c' : cursor) : string :=
  String.substring 0 (String.length (rest c) - String.length (rest c')) (rest c).

Definition word_before (c : cursor) : bool :=
  match prev c with Some a => is_word a | None => false end.

Definition word_after (c : cursor) : bool :=
  match rest c with String a _ => is_word a | EmptyString => false end.

Definition at_boundary (c : cursor) : bool :=
  xorb (word_before c) (word_after c).

Definition at_start (c : cursor) : bool :=
  match prev c with None => true | Some _ => false end.

(** The greedy loop of [r*]: one more round of the body when that makes
    progress, the rest of the pattern otherwise.  The subject gets shorter
    with every round, so its length plus one is fuel enough. *)
Fixpoint star_loop {R : Type}
    (body : cursor -> caps -> (cursor -> caps -> option R) -> option R)
    (k : cursor -> caps -> option R)
    (fuel : nat) (c : cursor) (g : caps) {struct fuel} : option R :=
  match fuel with
  | O => k c g
  | S fuel' =>
      match body c g (fun c' g' =>
              if (String.length (rest c') <? String.length (rest c))%nat
              then star_loop body k fuel' c' g' else None) with
      | Some x => Some x
      | None => k c g
      end
  end.

Fixpoint exec {R : Type} (r : regex) (c : cursor) (g : caps)
    (k : cursor -> caps -> option R) {struct r} : option R :=
  match r with
  | Eps => k c g
  | Cls p =>
      match rest c with
      | String a s => if p a then k (Cursor (Some a) s) g else None
      | EmptyString => None
      end
  | Seq r1 r2 => exec r1 c g (fun c' g' => exec r2 c' g' k)
  | Alt r1 r2 =>
      match exec r1 c g k with
      | Some x => Some x
      | None => exec r2 c g k
      end
  | Star r' => star_loop (exec r') k (S (String.length (rest c))) c g
  | Grp n r' => exec r' c g (fun c' g' => k c' ((n, consumed c c') :: g'))
  | Bol => if at_start c then k c g else None
  | WordB => if at_boundary c then k c g else None
  end.

(** A match object: [group(0)] and the numbered groups, latest first. *)
Record match_obj := Match { whole : string; groups : caps }.

(** [m.group(n)] for n >= 1; [None] when the group took no part. *)
Definition group (m : match_obj) (n : nat) : option string :=
  snd <$> List.find (fun p => Nat.eqb (fst p) n) (groups m).

Definition match_at (r : regex) (c : cursor) : option match_obj :=
  exec r c [] (fun c' g => Some (Match (consumed c c') g)).

(** [re.match(r, s)] *)
Definition re_match (r : regex) (s : string) : option match_obj :=
  match_at r (Cursor None s).

(** [r.search(s)]: the leftmost position with a match. *)
Fixpoint search_from (r : regex) (p : option ascii) (s : string) : option match_obj :=
  match match_at r (Cursor p s) with
  | Some m => Some m
  | None =>
      match s with
      | String a s' => search_from r (Some a) s'
      | EmptyString => None
      end
  end.

Definition re_search (r : regex) (s : string) : option match_obj :=
  search_from r None s.

(** Every character of [s] is in the class [p]. *)
Fixpoint all_chars (p : ascii -> bool) (s : string) : bool :=
  match s with
  | EmptyString => true
  | String a s' => p a && all_chars p s'
  end.

(** Patterns without capturing groups. *)
Fixpoint no_groups (r : regex) : bool :=
  match r with
  | Seq r1 r2 | Alt r1 r2 => no_groups r1 && no_groups r2
  | Star r' => no_groups r'
  | Grp _ _ => false
  | _ => true
  end.

(** Patterns whose every starred part is a single character class, as in
    all the patterns of this program. *)
Fixpoint simple (r : regex) : bool :=
  match r with
  | Seq r1 r2 | Alt r1 r2 => simple r1 && simple r2
  | Star (Cls _) => true
  | Star _ => false
  | Grp _ r' => simple r'
  | _ => true
  end.

(** [(Cls p)*] unfolded: read on while the class allows, and fall back one
    character at a time when the rest of the pattern fails. *)
Fixpoint star_cls {R : Type} (p : ascii -> bool) (o : option ascii) (s : string)
    (g : caps) (k : cursor -> caps -> option R) : option R :=
  match s with
  | String a s' =>
      if p a then
        match star_cls p (Some a) s' g k with
        | Some x => Some x
        | None => k (Cursor o s) g
        end
      else k (Cursor o s) g
  | EmptyString => k (Cursor o s) g
  end.

(** A pattern written as a sequence of pieces. *)
Definition seqs (rs : list regex) : regex := fold_right Seq Eps rs.

(** What a run of the matcher may do: [run r c g c' g'] says that [r] can
    take the subject from position [c] with groups [g] to position [c']
    with groups [g']. *)
Inductive run : regex -> cursor -> caps -> cursor -> caps -> Prop :=
| run_eps c g : run Eps c g c g
| run_cls p a s o g : p a = true -> run (Cls p) (Cursor o (String a s)) g (Cursor (Some a) s) g
| run_seq r1 r2 c g c1 g1 c2 g2 :
    run r1 c g c1 g1 -> run r2 c1 g1 c2 g2 -> run (Seq r1 r2) c g c2 g2
| run_alt_l r1 r2 c g c' g' : run r1 c g c' g' -> run (Alt r1 r2) c g c' g'
| run_alt_r r1 r2 c g c' g' : run r2 c g c' g' -> run (Alt r1 r2) c g c' g'
| run_star_stop r c g : run (Star r) c g c g
| run_star_step r c g c1 g1 c2 g2 :
    run r c g c1 g1 -> run (Star r) c1 g1 c2 g2 -> run (Star r) c g c2 g2
| run_grp n r c g c' g' :
    run r c g c' g' -> run (Grp n r) c g c' ((n, consumed c c') :: g')
| run_bol c g : at_start c = true -> run Bol c g c g
| run_wordb c g : at_boundary c = true -> run WordB c g c g.

End Re.

Import Py.

(** ** scanner.py *)

Module Scanner.

(** [r'\+\+\+ b/(.+)'] *)
Definition file_header_re : Re.regex :=
  Re.seqs [Re.Lit "+++ b/"; Re.Grp 1 (Re.Plus (Re.Cls Re.is_any))].

(** [r'@@ -\d+(?:,\d+)? \+(\d+)(?:,\d+)? @@'] *)
Definition hunk_header_re : Re.regex :=
  Re.seqs [Re.Lit "@@ -"; Re.Plus (Re.Cls Re.is_digit);
           Re.Opt (Re.Seq (Re.Lit ",") (Re.Plus (Re.Cls Re.is_digit)));
           Re.Lit " +"; Re.Grp 1 (Re.Plus (Re.Cls Re.is_digit));
           Re.Opt (Re.Seq (Re.Lit ",") (Re.Plus (Re.Cls Re.is_digit)));
           Re.Lit " @@"].

Definition all_digits (s : string) : bool := Re.all_chars Re.is_digit s.

Fixpoint digits_value (acc : Z) (s : string) : Z :=
  match s with
  | EmptyString => acc
  | String a s' => digits_value (10 * acc + Z.of_nat (Re.code a - 48)) s'
  end.

(** [sys.get_int_max_str_digits()], as the interpreter starts with it. *)
Definition int_max_str_digits : Z := 4300.

(** [int(x)] where [x] is what [match.group(1)] returned.  Precise on
    [None] and on non-empty strings of decimal digits: a string of more
    digits than the interpreter's limit raises a ValueError, leading zeros
    counted, and any shorter one gives its value, integers being
    unbounded.  Every other string is taken to raise, although Python
    reads some of them (a sign, surrounding blanks, underscores between
    digits). *)
Definition py_int (x : option string) : result Z :=
  match x with
  | None => Raise (TypeError "int() argument must be a string or a number")
  | Some s =>
      if negb (String.eqb s "") && all_digits s then
        if (int_max_str_digits <? Z.of_nat (String.length s))%Z then
          Raise (ValueError
                   ("Exceeds the limit (4300 digits) for integer string conversion: value has "
                    +:+ str_of_nat (String.length s)
                    +:+ " digits; use sys.set_int_max_str_digits() to increase the limit"))
        else Ok (digits_value 0 s)
      else Raise (ValueError "invalid literal for int() with base 10")
  end.

(** The three locals of [scan_pr]. *)
Record state := State {
  added_lines : list value;
  current_file : option string;
  line_number : Z
}.

Definition init : state := State [] None 0.

(** Truth value of [current_file]: [None] and [''] are false. *)
Definition file_is_set (f : option string) : bool :=
  match f with
  | Some s => negb (String.eqb s "")
  | None => false
  end.

(** [line[1:]] *)
Definition drop_first (line : string) : string :=
  match line with
  | String _ s => s
  | EmptyString => EmptyString
  end.

(** The dict literal appended for an added line. *)
Definition added_line (file : string) (n : Z) (content : string) : value :=
  VDict (<["filename" := VStr file]>
        (<["line_number" := VInt n]>
        (<["content" := VStr content]> ∅))).

(** One iteration of the loop over the lines of the diff. *)
Definition step (st : state) (line : string) : result state :=
  if startswith line "diff --git" then
    Ok (State (added_lines st) None (line_number st))
  else if startswith line "+++" then
    match Re.re_match file_header_re line with
    | Some m => Ok (State (added_lines st) (Re.group m 1) 0)
    | None => Ok st
    end
  else if startswith line "@@" then
    match Re.re_match hunk_header_re line with
    | Some m =>
        n ← py_int (Re.group m 1);
        Ok (State (added_lines st) (current_file st) n)
    | None => Ok st
    end
  else if startswith line "+" && negb (startswith line "+++") then
    let out :=
      match current_file st with
      | Some f =>
          if file_is_set (current_file st)
          then (added_lines st ++ [added_line f (line_number st) (drop_first line)])%list
          else added_lines st
      | None => added_lines st
      end in
    Ok (State out (current_file st) (line_number st + 1))
  else if negb (startswith line "-") then
    Ok (State (added_lines st) (current_file st) (line_number st + 1))
  else Ok st.

Fixpoint loop (st : state) (lines : list string) : result state :=
  match lines with
  | [] => Ok st
  | line :: lines' => st' ← step st line; loop st' lines'
  end.

Definition scan_pr (diff : string) : result (list value) :=
  st ← loop init (split_lines diff); Ok (added_lines st).

End Scanner.

(** ** security_rules.py *)

Module Security.

Record rule := Rule {
  regex : Re.regex;
  severity : string;
  owasp : string;
  cwe : string;
  message : string;
  fix_ : string
}.

(** The single and the double quote character. *)
Definition squote : ascii := Ascii.ascii_of_nat 39.
Definition dquote : ascii := Ascii.ascii_of_nat 34.

Definition quote_chars (a : ascii) : bool := Re.is_one_of squote dquote a.
Definition not_quote (a : ascii) : bool := Re.is_none_of squote dquote a.

(** [(password|api_key|secret|token)\s*=\s*Q[^Q]+Q], where [Q] is the
    class of the two quote characters. *)
Definition secret_re : Re.regex :=
  Re.seqs [Re.Grp 1 (Re.Alt (Re.Lit "password") (Re.Alt (Re.Lit "api_key")
                      (Re.Alt (Re.Lit "secret") (Re.Lit "token"))));
           Re.Star (Re.Cls Re.is_space); Re.Lit "=";
           Re.Star (Re.Cls Re.is_space);
           Re.Cls quote_chars; Re.Plus (Re.Cls not_quote); Re.Cls quote_chars].

(** [execute\(.*%s|executemany\(.*%s|\.format\(] *)
Definition sql_re : Re.regex :=
  Re.Alt (Re.seqs [Re.Lit "execute("; Re.Star (Re.Cls Re.is_any); Re.Lit "%s"])
 (Re.Alt (Re.seqs [Re.Lit "executemany("; Re.Star (Re.Cls Re.is_any); Re.Lit "%s"])
         (Re.Lit ".format(")).

(** [\beval\(] *)
Definition eval_re : Re.regex := Re.seqs [Re.WordB; Re.Lit "eval("].

(** [os\.system\(.*\+|subprocess.*shell=True] *)
Definition command_re : Re.regex :=
  Re.Alt (Re.seqs [Re.Lit "os.system("; Re.Star (Re.Cls Re.is_any); Re.Lit "+"])
         (Re.seqs [Re.Lit "subprocess"; Re.Star (Re.Cls Re.is_any); Re.Lit "shell=True"]).

Definition rules : list rule :=
  [ Rule secret_re "CRITICAL" "A02: Cryptographic Failures" "CWE-798"
      "Hardcoded secret detected" "Use environment variables or secure vaults";
    Rule sql_re "CRITICAL" "A01: Injection" "CWE-89"
      "Potential SQL injection vulnerability"
      "Use parameterized queries instead of string formatting";
    Rule eval_re "HIGH" "A01: Injection" "CWE-94"
      "Use of eval() function detected"
      "Avoid eval(); use safer alternatives like ast.literal_eval()";
    Rule command_re "HIGH" "A01: Injection" "CWE-78"
      "Potential command injection vulnerability"
      "Avoid shell=True; use subprocess with list arguments" ].

(** The dict literal appended for a rule that fires. *)
Definition issue (file_name : value) (line_num : nat) (r : rule) : value :=
  VDict (<["file" := file_name]>
        (<["line" := VInt (Z.of_nat line_num)]>
        (<["severity" := VStr (severity r)]>
        (<["type" := VStr (owasp r +:+ " (" +:+ cwe r +:+ ")")]>
        (<["message" := VStr (message r)]>
        (<["fix" := VStr (fix_ r)]> ∅)))))).

(** [content.split('\n')]: only a str has this method with this meaning. *)
Definition split_content (content : value) : result (list string) :=
  match content with
  | VStr s => Ok (split_lines s)
  | _ => Raise (AttributeError "object has no attribute 'split'")
  end.

(** The inner [for rule in self.rules] on one line. *)
Definition scan_line (file_name : value) (line_num : nat) (line : string)
    (issues : list value) : list value :=
  fold_left (fun acc r =>
               match Re.re_search (regex r) line with
               | Some _ => (acc ++ [issue file_name line_num r])%list
               | None => acc
               end) rules issues.

(** [for line_num, line in enumerate(lines, 1)] *)
Fixpoint scan_lines (file_name : value) (line_num : nat) (lines : list string)
    (issues : list value) : list value :=
  match lines with
  | [] => issues
  | line :: lines' =>
      scan_lines file_name (S line_num) lines' (scan_line file_name line_num line issues)
  end.

(** The body of the [try].  The list of issues is threaded through, so what
    was appended before an exception would stay appended. *)
Definition scan_change (change : value) (issues : list value)
    : list value * result unit :=
  match getitem change "content" with
  | Raise e => (issues, Raise e)
  | Ok content =>
      match getitem change "file" with
      | Raise e => (issues, Raise e)
      | Ok file_name =>
          match split_content content with
          | Raise e => (issues, Raise e)
          | Ok lines => (scan_lines file_name 1 lines issues, Ok tt)
          end
      end
  end.

(** [for change in file_changes: try: ... except Exception: continue] *)
Fixpoint scan_from (file_changes : list value) (issues : list value) : list value :=
  match file_changes with
  | [] => issues
  | change :: more => scan_from more (fst (scan_change change issues))
  end.

Definition scan (file_changes : list value) : list value :=
  scan_from file_changes [].

End Security.

(** ** standards_checker.py *)

Module Standards.

(** [self.enabled], whatever object the configuration held. *)
Record checker := Checker { enabled : value }.

(** [config.get('rules', {}).get('standards', {}).get('enabled', False)] *)
Definition init (config : value) : result checker :=
  r ← get_method config "rules" (VDict ∅);
  s ← get_method r "standards" (VDict ∅);
  e ← get_method s "enabled" (VBool false);
  Ok (Checker e).

(** [^\s*def\s+[A-Z]] *)
Definition def_upper_re : Re.regex :=
  Re.seqs [Re.Bol; Re.Star (Re.Cls Re.is_space); Re.Lit "def";
           Re.Plus (Re.Cls Re.is_space); Re.Cls Re.is_upper].

(** [^\s*class\s+[a-z]] *)
Definition class_lower_re : Re.regex :=
  Re.seqs [Re.Bol; Re.Star (Re.Cls Re.is_space); Re.Lit "class";
           Re.Plus (Re.Cls Re.is_space); Re.Cls Re.is_lower].

(** [except\s*:] *)
Definition bare_except_re : Re.regex :=
  Re.seqs [Re.Lit "except"; Re.Star (Re.Cls Re.is_space); Re.Lit ":"].

(** [^\s*def\s+.*:] *)
Definition def_re : Re.regex :=
  Re.seqs [Re.Bol; Re.Star (Re.Cls Re.is_space); Re.Lit "def";
           Re.Plus (Re.Cls Re.is_space); Re.Star (Re.Cls Re.is_any); Re.Lit ":"].

Definition _create_violation (file : value) (line : nat)
    (violation_type message fix_ : string) : value :=
  VDict (<["file" := file]>
        (<["line" := VInt (Z.of_nat line)]>
        (<["severity" := VStr "MEDIUM"]>
        (<["type" := VStr violation_type]>
        (<["message" := VStr message]>
        (<["fix" := VStr fix_]> ∅)))))).

Definition matched (m : option Re.match_obj) : bool :=
  match m with Some _ => true | None => false end.

(** The four checks on the line at index [idx] of [lines]. *)
Definition check_line (filename : value) (lines : list string) (idx : nat)
    (line : string) (violations : list value) : list value :=
  let line_num := (idx + 1)%nat in
  let v1 :=
    if matched (Re.re_match def_upper_re line)
    then (violations ++ [_create_violation filename line_num "naming"
            "Function name should be snake_case" "Rename function to snake_case"])%list
    else violations in
  let v2 :=
    if matched (Re.re_match class_lower_re line)
    then (v1 ++ [_create_violation filename line_num "naming"
            "Class name should be PascalCase" "Rename class to PascalCase"])%list
    else v1 in
  let v3 :=
    if matched (Re.re_search bare_except_re line)
    then (v2 ++ [_create_violation filename line_num "error_handling"
            "Bare except clause" "Specify exception type or use Exception"])%list
    else v2 in
  if matched (Re.re_match def_re line) then
    let next_idx := (idx + 1)%nat in
    if (length lines <=? next_idx)%nat
       || negb (contains (default "" (lines !! next_idx)) "log")
    then (v3 ++ [_create_violation filename line_num "missing_logging"
            "Function missing logging statement"
            "Add logging statement to function body"])%list
    else v3
  else v3.

(** [for idx, line in enumerate(lines)], with [todo] the lines from index
    [idx] on. *)
Fixpoint check_lines (filename : value) (lines : list string) (idx : nat)
    (todo : list string) (violations : list value) : list value :=
  match todo with
  | [] => violations
  | line :: todo' =>
      check_lines filename lines (S idx) todo'
        (check_line filename lines idx line violations)
  end.

(** The body of the [try]; [continue] on a content that is not a str. *)
Definition scan_change (change : value) (violations : list value)
    : list value * result unit :=
  match get_method change "file" (VStr "") with
  | Raise e => (violations, Raise e)
  | Ok filename =>
      match get_method change "content" (VStr "") with
      | Raise e => (violations, Raise e)
      | Ok (VStr content) =>
          let lines := split_lines content in
          (check_lines filename lines 0 lines violations, Ok tt)
      | Ok _ => (violations, Ok tt)
      end
  end.

Fixpoint scan_from (file_changes : list value) (violations : list value) : list value :=
  match file_changes with
  | [] => violations
  | change :: more => scan_from more (fst (scan_change change violations))
  end.

Definition scan (self : checker) (file_changes : list value) : list value :=
  if negb (truthy (enabled self)) then [] else scan_from file_changes [].

End Standards.

(** ** license_checker.py *)

Module License.

(** What [LicenseChecker] asks of the object it is given: an attribute
    [config] and three methods, each of which may raise. *)
Record github_api := GitHubApi {
  config : value;
  get_files : result (list string);
  is_proprietary : result value;
  get_file_content : string -> result string
}.

(** [(GPL|AGPL|LGPL)-?\d?\.?\d?] *)
Definition restricted_re : Re.regex :=
  Re.seqs [Re.Grp 1 (Re.Alt (Re.Lit "GPL") (Re.Alt (Re.Lit "AGPL") (Re.Lit "LGPL")));
           Re.Opt (Re.Lit "-"); Re.Opt (Re.Cls Re.is_digit);
           Re.Opt (Re.Lit "."); Re.Opt (Re.Cls Re.is_digit)].

(** [Copyright \(c\) \d{4}] *)
Definition copyright_re : Re.regex :=
  Re.seqs [Re.Lit "Copyright (c) "; Re.Cls Re.is_digit; Re.Cls Re.is_digit;
           Re.Cls Re.is_digit; Re.Cls Re.is_digit].

Definition mk_issue (file : string) (line : nat)
    (severity type message fix_ : string) : value :=
  VDict (<["file" := VStr file]>
        (<["line" := VInt (Z.of_nat line)]>
        (<["severity" := VStr severity]>
        (<["type" := VStr type]>
        (<["message" := VStr message]>
        (<["fix" := VStr fix_]> ∅)))))).

Definition restricted_issue (file : string) (line_num : nat) (m : Re.match_obj) : value :=
  mk_issue file line_num "HIGH" "restricted_license"
    ("Found restricted license '" +:+ Re.whole m +:+ "'")
    "Replace with MIT, Apache/BSD".

Definition conflict_issue (file : string) (line_num : nat) : value :=
  mk_issue file line_num "HIGH" "license_conflict"
    "GPL in proprietary project" "Remove GPL or change project license".

Definition missing_copyright_issue (file : string) : value :=
  mk_issue file 0 "MEDIUM" "missing_copyright"
    "Missing copyright header" "Add 'Copyright (c) <year> <owner>'".

Definition is_gpl (license_type : option string) : bool :=
  match license_type with
  | Some t => String.eqb t "GPL"
  | None => false
  end.

(** One line of a file: the issues so far and [has_copyright]. *)
Definition scan_line (file : string) (proprietary : value) (line_num : nat)
    (line : string) (st : list value * bool) : list value * bool :=
  let '(issues, has_copyright) := st in
  let issues' :=
    match Re.re_search restricted_re line with
    | Some m =>
        let license_type := Re.group m 1 in
        let with_restricted := (issues ++ [restricted_issue file line_num m])%list in
        if is_gpl license_type && truthy proprietary
        then (with_restricted ++ [conflict_issue file line_num])%list
        else with_restricted
    | None => issues
    end in
  let has_copyright' :=
    match Re.re_search copyright_re line with
    | Some _ => true
    | None => has_copyright
    end in
  (issues', has_copyright').

(** [for line_num, line in enumerate(lines, 1)] *)
Fixpoint scan_lines (file : string) (proprietary : value) (line_num : nat)
    (lines : list string) (st : list value * bool) : list value * bool :=
  match lines with
  | [] => st
  | line :: lines' =>
      scan_lines file proprietary (S line_num) lines'
        (scan_line file proprietary line_num line st)
  end.

(** One file of the outer loop. *)
Definition scan_file (api : github_api) (proprietary : value) (file : string)
    (issues : list value) : list value :=
  match get_file_content api file with
  | Raise _ => issues
  | Ok content =>
      let '(issues', has_copyright) :=
        scan_lines file proprietary 1 (split_lines content) (issues, false) in
      if negb has_copyright
      then (issues' ++ [missing_copyright_issue file])%list
      else issues'
  end.

Definition scan (api : github_api) : result (list value) :=
  on ← get_method (config api) "license_check_enabled" (VBool false);
  if negb (truthy on) then Ok []
  else
    match get_files api with
    | Raise _ => Ok []
    | Ok files =>
        let proprietary :=
          match is_proprietary api with
          | Ok p => p
          | Raise _ => VBool false
          end in
        Ok (fold_left (fun issues file => scan_file api proprietary file issues)
                      files [])
    end.

End License.

(** ** policy_engine.py *)

Module Policy.

Record engine := Engine { mode : value }.

Definition valid_modes : list string := ["ADVISORY"; "WARNING"; "BLOCKING"].

(** [PolicyEngine.__init__] *)
Definition init (config : value) : result engine :=
  m ← get_method config "mode" (VStr "WARNING");
  known ← in_str_set m valid_modes;
  if negb (known : bool) then Raise (ValueError ("Invalid policy mode: " +:+ py_str m))
  else Ok (Engine m).

(** The dict [apply_policy] returns, by its three keys. *)
Record decision := Decision {
  post_comment : bool;
  block_merge : bool;
  filtered_issues : list value
}.

Definition is_dict (v : value) : bool :=
  match v with VDict _ => true | _ => false end.

Definition has_key (v : value) (k : string) : bool :=
  match v with
  | VDict d => bool_decide (is_Some (d !! k))
  | _ => false
  end.

(** The validation loop over [enumerate(issues)]. *)
Fixpoint validate (idx : nat) (issues : list value) : result unit :=
  match issues with
  | [] => Ok tt
  | issue :: more =>
      if negb (is_dict issue) then
        Raise (TypeError ("Issue at index " +:+ str_of_nat idx +:+ " is not a dictionary"))
      else if negb (has_key issue "severity") then
        Raise (ValueError ("Issue at index " +:+ str_of_nat idx +:+ " missing 'severity' key"))
      else validate (S idx) more
  end.

(** [[issue for issue in issues if issue['severity'] in {'CRITICAL', 'HIGH'}]] *)
Fixpoint keep_critical_high (issues : list value) : result (list value) :=
  match issues with
  | [] => Ok []
  | issue :: more =>
      sev ← getitem issue "severity";
      keep ← in_str_set sev ["CRITICAL"; "HIGH"];
      rest ← keep_critical_high more;
      Ok (if (keep : bool) then issue :: rest else rest)
  end.

(** [any(issue['severity'] == 'CRITICAL' for issue in filtered_issues)] *)
Fixpoint any_critical (issues : list value) : result bool :=
  match issues with
  | [] => Ok false
  | issue :: more =>
      sev ← getitem issue "severity";
      if eq_str sev "CRITICAL" then Ok true else any_critical more
  end.

Definition apply_policy (self : engine) (issues : value) : result decision :=
  match issues with
  | VList issues =>
      _ ← validate 0 issues;
      filtered ←
        (if eq_str (mode self) "ADVISORY" then Ok issues
         else if eq_str (mode self) "WARNING" then keep_critical_high issues
         else if eq_str (mode self) "BLOCKING" then Ok issues
         else Raise (RuntimeError ("Invalid policy mode: " +:+ py_str (mode self))));
      block ←
        (if eq_str (mode self) "BLOCKING" then any_critical filtered
         else Ok false);
      Ok (Decision true block filtered)
  | _ => Raise (TypeError "issues must be a list")
  end.

End Policy.

(** ** Vocabulary of the specification *)

Module Spec.

(** The three policy modes and the engine configured with each. *)
Inductive policy_mode := ADVISORY | WARNING | BLOCKING.

Definition mode_name (m : policy_mode) : string :=
  match m with
  | ADVISORY => "ADVISORY"
  | WARNING => "WARNING"
  | BLOCKING => "BLOCKING"
  end.

Definition engine_of (m : policy_mode) : Policy.engine :=
  Policy.Engine (VStr (mode_name m)).

(** The severity a finding carries: the str under its ['severity'] key. *)
Definition severity_of (v : value) : option string :=
  match v with
  | VDict d =>
      match d !! "severity" with
      | Some (VStr s) => Some s
      | _ => None
      end
  | _ => None
  end.

Definition carries_severity (v : value) : bool :=
  match severity_of v with Some _ => true | None => false end.

Definition has_severity (names : list string) (v : value) : bool :=
  match severity_of v with
  | Some s => existsb (String.eqb s) names
  | None => false
  end.

(** A finding without a ['severity'] key. *)
Definition lacks_severity (v : value) : bool :=
  Policy.is_dict v && negb (Policy.has_key v "severity").

(** The two exceptions input validation raises. *)
Definition is_validation_error (e : exn) : bool :=
  match e with
  | TypeError _ | ValueError _ => true
  | _ => false
  end.




(** A diff line that is neither a hunk header nor a file header. *)
Definition inside_hunk (line : string) : bool :=
  negb (startswith line "@@") && negb (startswith line "+++").


(** Lines joined into a text, each ended by a newline. *)
Definition unlines (ls : list string) : string :=
  fold_right (fun l acc => l +:+ String newline acc) "" ls.

(** The added line of Scenario A, without its leading plus sign. *)
Definition secret_line : string :=
  "password = " +:+ String Security.dquote ("abc123" +:+ String Security.dquote "").

(** The diff of Scenario A. *)
Definition scenario_a : string :=
  unlines [ "diff --git a/app.py b/app.py";
            "--- a/app.py";
            "+++ b/app.py";
            "@@ -1,2 +1,3 @@";
            " context";
            "+" +:+ secret_line;
            " unchanged" ].

(** A diff whose second hunk starts before its first. *)
Definition out_of_order_diff : string :=
  unlines [ "+++ b/a.py";
            "@@ -9 +9 @@";
            "+late";
            "@@ -1 +1 @@";
            "+early" ].

(** A hunk header that writes the start in the new file with more digits
    than [int] reads. *)
Definition oversized (line : string) : bool :=
  match Re.re_match Scanner.hunk_header_re line with
  | Some m =>
      match Re.group m 1 with
      | Some ds => (Scanner.int_max_str_digits <? Z.of_nat (String.length ds))%Z
      | None => false
      end
  | None => false
  end.

Fixpoint sevens (n : nat) : string :=
  match n with
  | O => EmptyString
  | S n' => String "7" (sevens n')
  end.

(** A diff whose hunk header declares a start of 4301 digits. *)
Definition long_number_diff : string :=
  unlines [ "+++ b/a.py";
            "@@ -1 +" +:+ sevens 4301 +:+ " @@";
            "+x" ].

(** The shape of a record of the parser. *)
Definition is_record (r : value) : Prop :=
  exists f n c, r = Scanner.added_line f n c.

(** An item the try-body of a scan gets through without an exception. *)
Definition security_item_ok (change : value) : bool :=
  is_ok (snd (Security.scan_change change [])).

Definition standards_item_ok (change : value) : bool :=
  is_ok (snd (Standards.scan_change change [])).

(** What the scan of one item alone reports. *)
Definition security_findings (change : value) : list value :=
  fst (Security.scan_change change []).

Definition standards_findings (change : value) : list value :=
  fst (Standards.scan_change change []).

(** An item both scans accept. *)
Definition sample_change : value :=
  VDict (<["file" := VStr "app.py"]> (<["content" := VStr secret_line]> ∅)).



Fixpoint str_drop (n : nat) (s : string) : string :=
  match n, s with
  | S n', String _ s' => str_drop n' s'
  | _, _ => s
  end.






(** Fields of a finding, read back from the dict. *)
Definition str_field (k : string) (v : value) : option string :=
  match v with
  | VDict d =>
      match d !! k with
      | Some (VStr s) => Some s
      | _ => None
      end
  | _ => None
  end.

Definition int_field (k : string) (v : value) : option Z :=
  match v with
  | VDict d =>
      match d !! k with
      | Some (VInt n) => Some n
      | _ => None
      end
  | _ => None
  end.

(** A finding of the given type and severity at the given line. *)
Definition is_finding_at (type severity : string) (line : nat) (v : value) : bool :=
  bool_decide (str_field "type" v = Some type
               /\ str_field "severity" v = Some severity
               /\ int_field "line" v = Some (Z.of_nat line)).




(** The licence tokens the pattern looks for, and the strong-copyleft ones
    among them. *)
Definition license_tokens : list string := ["GPL"; "AGPL"; "LGPL"].
Definition strong_copyleft : list string := ["GPL"; "AGPL"].

(** The flag [scan] works with: what [is_proprietary()] returned, or
    [False] when it raised. *)
Definition proprietary_flag (api : License.github_api) : value :=
  match License.is_proprietary api with
  | Ok p => p
  | Raise _ => VBool false
  end.

(** A proprietary project with one file, made of the given text. *)
Definition proprietary_project (text : string) : License.github_api :=
  License.GitHubApi
    (VDict (<["license_check_enabled" := VBool true]> ∅))
    (Ok ["LICENSE"])
    (Ok (VBool true))
    (fun _ => Ok text).

(** A finding reduced to its severity, for examples. *)
Definition finding_with (severity : string) : value :=
  VDict (<["severity" := VStr severity]> ∅).

End Spec.

(** ** github_api.py: the constructor *)

Module GitHub.

(** [s.split('/', 1)]: one piece when there is no slash, two otherwise. *)
Fixpoint split_slash_once (s : string) : list string :=
  match s with
  | EmptyString => [EmptyString]
  | String a s' =>
      if Ascii.eqb a "/" then [EmptyString; s']
      else match split_slash_once s' with
           | piece :: more => String a piece :: more
           | [] => [String a EmptyString]
           end
  end.

(** [a, b = pieces]: a ValueError unless there are exactly two. *)
Definition unpack_pair (pieces : list string) : result (string * string) :=
  match pieces with
  | [a; b] => Ok (a, b)
  | _ => Raise (ValueError "not enough values to unpack (expected 2)")
  end.

(** The attributes [__init__] sets. *)
Record client := Client {
  token : string;
  owner : string;
  repo_name : string;
  base_url : string;
  headers : gmap string value
}.

(** [GitHubAPI.__init__]: the [except ValueError] replaces the message. *)
Definition init (token repo : string) : result client :=
  match unpack_pair (split_slash_once repo) with
  | Ok (owner, repo_name) =>
      Ok (Client token owner repo_name "https://api.github.com"
            (<["Authorization" := VStr ("token " +:+ token)]>
            (<["Accept" := VStr "application/vnd.github.v3+json"]> ∅)))
  | Raise (ValueError _) =>
      Raise (ValueError "Invalid repo format. Expected 'owner/repo'")
  | Raise e => Raise e
  end.

End GitHub.

(** ** sam_integration.py: the check of generated code *)

Module Sam.

(** [SAMGuardrails.__init__]: a security scanner and a standards checker
    built from the configuration that enables it. *)
Definition standards_config : value :=
  VDict (<["rules" := VDict (<["standards" := VDict (<["enabled" := VBool true]> ∅)]> ∅)]> ∅).

Record guardrails := Guardrails { standards_checker : Standards.checker }.

Definition init : result guardrails :=
  checker ← Standards.init standards_config; Ok (Guardrails checker).

(** [any(issue.get('severity') == 'CRITICAL' for issue in all_issues)] *)
Fixpoint any_critical (issues : list value) : result bool :=
  match issues with
  | [] => Ok false
  | issue :: more =>
      sev ← get_method issue "severity" VNone;
      if eq_str sev "CRITICAL" then Ok true else any_critical more
  end.

(** [check_code(code, filename)] *)
Definition check_code (self : guardrails) (code filename : string)
    : result (bool * list value) :=
  let file_data :=
    [VDict (<["file" := VStr filename]> (<["content" := VStr code]> ∅))] in
  let security_issues := Security.scan file_data in
  let standards_issues := Standards.scan (standards_checker self) file_data in
  let all_issues := (security_issues ++ standards_issues)%list in
  has_critical ← any_critical all_issues;
  Ok (negb has_critical, all_issues).

End Sam.

(** ** config_loader.py

    Reading the file and parsing YAML are left out: [load_config] starts
    from the document [yaml.safe_load] returned.  [_apply_defaults] changes
    the dicts of that document in place, and a document with anchors and
    aliases holds one dict object at several places.  So the dicts of a
    document live in a store, a value refers to a dict by its location, and
    the loader takes a store and returns one. *)

Module ConfigLoader.

(** What leaves [load_config]: the loader's own [ConfigError], or any
    other exception that nothing catches. *)
Inductive error :=
| ConfigError (msg : string)
| Uncaught (e : exn).

Inductive outcome (A : Type) :=
| Loaded (a : A)
| Failed (e : error).
Arguments Loaded {A} a.
Arguments Failed {A} e.

#[global] Instance outcome_ret : MRet outcome := @Loaded.
#[global] Instance outcome_bind : MBind outcome := fun A B f m =>
  match m with
  | Loaded a => f a
  | Failed e => Failed e
  end.

#[local] Set Warnings "-register-all".

Abbreviation loc := positive (only parsing).

(** A value of a document: a dict is a reference into the store. *)
Inductive hval :=
| HNone
| HBool (b : bool)
| HInt (z : Z)
| HStr (s : string)
| HList (items : list hval)
| HRef (l : loc).

Abbreviation dict := (gmap string hval) (only parsing).
Abbreviation store := (gmap loc dict) (only parsing).

(** The dict at a location; a location the store does not hold yet
    stands for an empty dict. *)
Definition deref (h : store) (l : loc) : dict := default ∅ (h !! l).

(** A value without the contents of its dicts: enough for [type], [hash],
    [str] and comparison with a string. *)
Fixpoint shallow (v : hval) : value :=
  match v with
  | HNone => VNone
  | HBool b => VBool b
  | HInt z => VInt z
  | HStr s => VStr s
  | HList items => VList (map shallow items)
  | HRef _ => VDict ∅
  end.

(** The value a reader sees who follows references [depth] levels down. *)
Fixpoint snapshot (depth : nat) (h : store) (v : hval) : value :=
  match depth with
  | O => shallow v
  | S d =>
      match v with
      | HRef l => VDict (snapshot d h <$> deref h l)
      | HList items => VList (map (snapshot d h) items)
      | _ => shallow v
      end
  end.

(** The two types the required fields are checked against. *)
Inductive field_type := TStr | TBool.

Definition _REQUIRED_FIELDS : list (list string * field_type) :=
  [ (["github"; "token"], TStr);
    (["github"; "repo"], TStr);
    (["policy"; "mode"], TStr);
    (["security"; "enabled"], TBool);
    (["standards"; "enabled"], TBool);
    (["license"; "enabled"], TBool);
    (["ai"; "enabled"], TBool);
    (["ai"; "model"], TStr) ].

Definition _VALID_POLICY_MODES : list string := ["ADVISORY"; "WARNING"; "BLOCKING"].

(** Each default with its path cut into [field_path[:-1]] and
    [field_path[-1]]. *)
Definition _DEFAULTS : list (list string * string * hval) :=
  [ (["policy"], "mode", HStr "ADVISORY");
    (["security"], "enabled", HBool true);
    (["standards"], "enabled", HBool true);
    (["license"], "enabled", HBool true);
    (["ai"], "enabled", HBool false);
    (["ai"], "model", HStr "gpt-4") ].

(** [_get_nested_value]: [None] as soon as a node is not a dict, a key is
    missing or a value is [None]. *)
Fixpoint _get_nested_value (h : store) (node : hval) (path : list string) : hval :=
  match path with
  | [] => node
  | key :: rest =>
      match node with
      | HRef l =>
          match deref h l !! key with
          | None | Some HNone => HNone
          | Some child => _get_nested_value h child rest
          end
      | _ => HNone
      end
  end.

(** [d.setdefault(k, v)], as the dict it leaves. *)
Definition setdefault (d : dict) (k : string) (v : hval) : dict :=
  match d !! k with
  | Some _ => d
  | None => <[k := v]> d
  end.

(** One default of [_apply_defaults].  Going down [prefix], a node that is
    not a dict or a value that is [None] ends the walk without a change; a
    missing key gets a new empty dict, at a location of its own; at the end
    of the walk the last key is set with [setdefault], in place, which only
    a dict has. *)
Fixpoint set_default (h : store) (node : hval) (prefix : list string)
    (last : string) (dflt : hval) : result store :=
  match prefix with
  | [] =>
      match node with
      | HRef l => Ok (<[l := setdefault (deref h l) last dflt]> h)
      | HNone => Ok h
      | _ => Raise (AttributeError "object has no attribute 'setdefault'")
      end
  | key :: rest =>
      match node with
      | HRef l =>
          match deref h l !! key with
          | Some HNone => Ok h
          | Some child => set_default h child rest last dflt
          | None =>
              let l' := fresh (dom h) in
              let h' := <[l := <[key := HRef l']> (deref h l)]> (<[l' := ∅]> h) in
              set_default h' (HRef l') rest last dflt
          end
      | _ => Ok h
      end
  end.

Fixpoint apply_defaults_from (defaults : list (list string * string * hval))
    (h : store) (config : hval) : result store :=
  match defaults with
  | [] => Ok h
  | (prefix, last, dflt) :: more =>
      h' ← set_default h config prefix last dflt;
      apply_defaults_from more h' config
  end.

Definition _apply_defaults (h : store) (config : hval) : result store :=
  apply_defaults_from _DEFAULTS h config.

(** ['.'.join(field_path)] *)
Fixpoint joined (path : list string) : string :=
  match path with
  | [] => ""
  | [key] => key
  | key :: rest => key +:+ "." +:+ joined rest
  end.

(** [isinstance(value, expected_type)] *)
Definition has_type (t : field_type) (v : hval) : bool :=
  match t, v with
  | TStr, HStr _ => true
  | TBool, HBool _ => true
  | _, _ => false
  end.

Definition type_name (t : field_type) : string :=
  match t with TStr => "str" | TBool => "bool" end.

(** [type(value).__name__] *)
Definition actual_type (v : hval) : string :=
  match v with
  | HNone => "NoneType"
  | HBool _ => "bool"
  | HInt _ => "int"
  | HStr _ => "str"
  | HList _ => "list"
  | HRef _ => "dict"
  end.

Fixpoint validate_fields (fields : list (list string * field_type))
    (h : store) (config : hval) : outcome unit :=
  match fields with
  | [] => Loaded tt
  | (path, expected) :: more =>
      match _get_nested_value h config path with
      | HNone => Failed (ConfigError ("Missing required field: " +:+ joined path))
      | v =>
          if negb (has_type expected v) then
            Failed (ConfigError ("Invalid type for field " +:+ joined path
                                 +:+ ": expected " +:+ type_name expected
                                 +:+ ", got " +:+ actual_type v))
          else validate_fields more h config
      end
  end.

Definition _validate_required_fields (h : store) (config : hval) : outcome unit :=
  validate_fields _REQUIRED_FIELDS h config.

Definition _validate_policy_mode (h : store) (config : hval) : outcome unit :=
  let mode := shallow (_get_nested_value h config ["policy"; "mode"]) in
  match in_str_set mode _VALID_POLICY_MODES with
  | Raise e => Failed (Uncaught e)
  | Ok true => Loaded tt
  | Ok false =>
      Failed (ConfigError ("Invalid policy.mode '" +:+ py_str mode
                           +:+ "'. Allowed values: ADVISORY, BLOCKING, WARNING"))
  end.

(** Truth value of a value of a document. *)
Definition is_true (h : store) (v : hval) : bool :=
  match v with
  | HRef l => negb (bool_decide (deref h l = ∅))
  | _ => truthy (shallow v)
  end.

(** The end of [_parse_yaml]: [data = yaml.safe_load(handle) or {}], the
    dict literal being a new object, and the check that [data] is a
    mapping. *)
Definition parsed (h : store) (document : hval) : outcome (hval * store) :=
  if is_true h document then
    match document with
    | HRef _ => Loaded (document, h)
    | _ => Failed (ConfigError "Top-level YAML structure must be a mapping.")
    end
  else
    let l := fresh (dom h) in Loaded (HRef l, <[l := ∅]> h).

(** [load_config], from the parsed document on: the configuration it
    returns and the store it leaves. *)
Definition load_config (h : store) (document : hval) : outcome (hval * store) :=
  '(raw_config, h0) ← parsed h document;
  match _apply_defaults h0 raw_config with
  | Raise e => Failed (Uncaught e)
  | Ok h1 =>
      _ ← _validate_required_fields h1 raw_config;
      _ ← _validate_policy_mode h1 raw_config;
      Loaded (raw_config, h1)
  end.

End ConfigLoader.

(** ** Further vocabulary *)

Module More.

(** The character a literal leaves behind it. *)
Fixpoint last_of (o : option ascii) (p : string) : option ascii :=
  match p with
  | EmptyString => o
  | String a p' => last_of (Some a) p'
  end.

(** A record of the parser that the lines of a diff account for: its file
    stands on a file header line, its content on an added line. *)
Definition record_of (lines : list string) (r : value) : Prop :=
  exists f n c,
    r = Scanner.added_line f n c
    /\ f <> "" /\ (0 <= n)%Z
    /\ In ("+++ b/" +:+ f) lines
    /\ In (String "+" c) lines.

(** What the loop keeps true of its state, for the lines of one diff. *)
Definition state_ok (lines : list string) (st : Scanner.state) : Prop :=
  (forall f, Scanner.current_file st = Some f ->
             f <> "" /\ In ("+++ b/" +:+ f) lines)
  /\ (0 <= Scanner.line_number st)%Z
  /\ Forall (record_of lines) (Scanner.added_lines st).

(** Scenario A without the header of the old file. *)
Definition scenario_a_new_side : string :=
  Spec.unlines [ "diff --git a/app.py b/app.py";
                 "+++ b/app.py";
                 "@@ -1,2 +1,3 @@";
                 " context";
                 "+" +:+ Spec.secret_line;
                 " unchanged" ].

(** The lines of a hunk body that are not removals. *)
Definition kept (lines : list string) : Z :=
  Z.of_nat (length (List.filter (fun l => negb (startswith l "-")) lines)).

(** The record for the line at index [j] of a hunk body that starts at
    line [n] of the file [f], if that line is an added one. *)
Definition body_record (f : string) (n : Z) (body : list string) (j : nat)
    : option value :=
  match body !! j with
  | Some l =>
      if startswith l "+"
      then Some (Scanner.added_line f (n + kept (take j body)) (Scanner.drop_first l))
      else None
  | None => None
  end.

Definition body_records (f : string) (n : Z) (body : list string) : list value :=
  omap (body_record f n body) (seq 0 (length body)).

(** A line of a hunk body: no header of any kind. *)
Definition body_line (line : string) : bool :=
  Spec.inside_hunk line && negb (startswith line "diff --git").

(** The names the hardcoded-secret rule looks for. *)
Definition credential_names : list string :=
  ["password"; "api_key"; "secret"; "token"].

(** An item whose content is the secret of Scenario A, indented. *)
Definition sample_dict : gmap string value :=
  <["file" := VStr "app.py"]>
    (<["content" := VStr ("  " +:+ Spec.secret_line)]> ∅).


Definition class_naming_finding (file : value) (line : nat) : value :=
  Standards._create_violation file line "naming"
    "Class name should be PascalCase" "Rename class to PascalCase".

Definition bare_except_finding (file : value) (line : nat) : value :=
  Standards._create_violation file line "error_handling"
    "Bare except clause" "Specify exception type or use Exception".

(** A file with a function that logs, one that does not, a class and a
    handler. *)
Definition standards_content : string :=
  Spec.unlines [ "def run(x):";
                 "    logger.info(x)";
                 "def stop(x):";
                 "    return x";
                 "class worker:";
                 "    except :" ].

Definition standards_dict : gmap string value :=
  <["file" := VStr "w.py"]> (<["content" := VStr standards_content]> ∅).

(** The configuration that test_integration.py and sam_integration.py
    give the standards checker. *)
Definition enabled_config : gmap string value :=
  <["rules" := VDict (<["standards" := VDict (<["enabled" := VBool true]> ∅)]> ∅)]> ∅.

(** A repository name with a slash in it. *)
Fixpoint has_slash (s : string) : bool :=
  match s with
  | EmptyString => false
  | String a s' => Ascii.eqb a "/" || has_slash s'
  end.

(** An item that passes the validation loop of the policy engine: a dict
    with a severity key, whatever is stored under it. *)
Definition validated (v : value) : bool :=
  Policy.is_dict v && Policy.has_key v "severity".

(** A finding whose severity cannot be hashed. *)
Definition unhashable_severity (v : value) : bool :=
  match v with
  | VDict d =>
      match d !! "severity" with
      | Some s => negb (hashable s)
      | None => false
      end
  | _ => false
  end.

Definition is_runtime_error (e : exn) : bool :=
  match e with RuntimeError _ => true | _ => false end.

Import ConfigLoader.

(** The table of defaults, each path by its section and its key. *)
Definition default_table : list (string * string * hval) :=
  [ ("policy", "mode", HStr "ADVISORY");
    ("security", "enabled", HBool true);
    ("standards", "enabled", HBool true);
    ("license", "enabled", HBool true);
    ("ai", "enabled", HBool false);
    ("ai", "model", HStr "gpt-4") ].

Definition singles (table : list (string * string * hval))
    : list (list string * string * hval) :=
  map (fun e => ([e.1.1], e.1.2, e.2)) table.

(** The dict at [r] holds, under [s], a dict that holds [x] under [k]. *)
Definition entry (h : store) (r : loc) (s k : string) (x : hval) : Prop :=
  exists l, deref h r !! s = Some (HRef l) /\ deref h l !! k = Some x.

(** The dict at [r] says nothing about key [k] of section [s]: the section
    is absent, or it is a mapping without the key. *)
Definition unset (h : store) (r : loc) (s k : string) : Prop :=
  deref h r !! s = None
  \/ exists l, deref h r !! s = Some (HRef l) /\ deref h l !! k = None.

(** Every required field is there with its type. *)
Definition typed (h : store) (config : hval) : Prop :=
  Forall (fun f => has_type f.2 (_get_nested_value h config f.1) = true)
         _REQUIRED_FIELDS.

(** A value that is neither None nor a mapping. *)
Definition scalar (v : hval) : bool :=
  match v with
  | HNone | HRef _ => false
  | _ => true
  end.

(** [v[k]] *)
Definition subscript (h : store) (v : hval) (k : string) : result hval :=
  match v with
  | HRef l =>
      match deref h l !! k with
      | Some x => Ok x
      | None => Raise (KeyError k)
      end
  | _ => Raise (TypeError "object is not subscriptable by str")
  end.

(** [config[s][k]], as main.py reads a setting. *)
Definition setting (h : store) (config : hval) (s k : string) : result hval :=
  section ← subscript h config s; subscript h section k.

(** The document gives key [k] of section [s] a value of type [t]. *)
Definition given (h : store) (r : loc) (s k : string) (t : field_type) : Prop :=
  exists x, entry h r s k x /\ has_type t x = true.

(** The documents the loader takes: the two GitHub fields are strings;
    any other required field is left unset or has its type; a policy mode
    that is given is one of the three. *)
Definition acceptable (h : store) (r : loc) : Prop :=
  given h r "github" "token" TStr
  /\ given h r "github" "repo" TStr
  /\ (unset h r "policy" "mode"
      \/ exists pm, entry h r "policy" "mode" (HStr (Spec.mode_name pm)))
  /\ (forall s k dflt t,
        In (s, k, dflt) default_table ->
        In ([s; k], t) _REQUIRED_FIELDS ->
        unset h r s k \/ given h r s k t).

(** Every dict keeps what it holds: keys are added, never removed or
    given another value. *)
Definition extends (h h' : store) : Prop :=
  forall l k x, deref h l !! k = Some x -> deref h' l !! k = Some x.

(** Two sections of the dict at [r] are one dict object. *)
Definition shares (h : store) (r : loc) (s s' : string) : Prop :=
  exists l, deref h r !! s = Some (HRef l) /\ deref h r !! s' = Some (HRef l).

(** The dicts the dict at [r] refers to are in the store, and so is it. *)
Definition allocated (h : store) (r : loc) : Prop :=
  is_Some (h !! r)
  /\ forall s l, deref h r !! s = Some (HRef l) -> is_Some (h !! l).

(** What one default of a section does to the store, when it does not
    raise: nothing, for a section that is None; a [setdefault] on the dict
    of the section; or a new dict for a section that is missing. *)
Inductive stepped (h : store) (r : loc) (s k : string) (d : hval) : store -> Prop :=
| stepped_skip :
    deref h r !! s = Some HNone -> stepped h r s k d h
| stepped_write l :
    deref h r !! s = Some (HRef l) ->
    stepped h r s k d (<[l := setdefault (deref h l) k d]> h)
| stepped_alloc l' :
    deref h r !! s = None -> h !! l' = None -> l' <> r ->
    stepped h r s k d
      (<[l' := <[k := d]> ∅]> (<[r := <[s := HRef l']> (deref h r)]> h)).

(** No key of the table is the name of one of its sections. *)
Definition apart (table : list (string * string * hval)) : Prop :=
  forall s k d s' k' d',
    In (s, k, d) table -> In (s', k', d') table -> k <> s'.

(** A document with nothing but the two GitHub fields, its root at
    location 1 and the section at location 2; and the store that loading
    leaves, with a new dict for each of the five other sections. *)
Definition github_dict : dict :=
  <["token" := HStr "t0k"]> (<["repo" := HStr "acme/tools"]> ∅).

Definition minimal_store : store :=
  <[1%positive := <["github" := HRef 2%positive]> ∅]>
    (<[2%positive := github_dict]> ∅).

Definition minimal_loaded : store :=
  <[1%positive := <["github" := HRef 2%positive]>
                  (<["policy" := HRef 3%positive]>
                  (<["security" := HRef 4%positive]>
                  (<["standards" := HRef 5%positive]>
                  (<["license" := HRef 6%positive]>
                  (<["ai" := HRef 7%positive]> ∅)))))]>
    (<[2%positive := github_dict]>
    (<[3%positive := <["mode" := HStr "ADVISORY"]> ∅]>
    (<[4%positive := <["enabled" := HBool true]> ∅]>
    (<[5%positive := <["enabled" := HBool true]> ∅]>
    (<[6%positive := <["enabled" := HBool true]> ∅]>
    (<[7%positive := <["enabled" := HBool false]>
                     (<["model" := HStr "gpt-4"]> ∅)]> ∅)))))).

(** The same document with one empty mapping that stands, by an anchor
    and an alias, under security and under ai; and the store that loading
    leaves: the shared dict has taken the default of security. *)
Definition aliased_store : store :=
  <[1%positive := <["github" := HRef 2%positive]>
                  (<["security" := HRef 3%positive]>
                  (<["ai" := HRef 3%positive]> ∅))]>
    (<[2%positive := github_dict]> (<[3%positive := ∅]> ∅)).

Definition aliased_loaded : store :=
  <[1%positive := <["github" := HRef 2%positive]>
                  (<["security" := HRef 3%positive]>
                  (<["ai" := HRef 3%positive]>
                  (<["policy" := HRef 4%positive]>
                  (<["standards" := HRef 5%positive]>
                  (<["license" := HRef 6%positive]> ∅)))))]>
    (<[2%positive := github_dict]>
    (<[3%positive := <["enabled" := HBool true]>
                     (<["model" := HStr "gpt-4"]> ∅)]>
    (<[4%positive := <["mode" := HStr "ADVISORY"]> ∅]>
    (<[5%positive := <["enabled" := HBool true]> ∅]>
    (<[6%positive := <["enabled" := HBool true]> ∅]> ∅))))).

(** The first document with a scalar where the section of the licence
    check should be. *)
Definition scalar_section_store : store :=
  <[1%positive := <["github" := HRef 2%positive]>
                  (<["license" := HBool true]> ∅)]>
    (<[2%positive := github_dict]> ∅).

End More.

(** * Properties *)

(** ** The matcher against its specification *)

Section ReFacts.
Import Re.

Lemma exec_sound {R : Type} (r : regex) :
  forall c g (k : cursor -> caps -> option R) x,
    exec r c g k = Some x ->
    exists c' g', run r c g c' g' /\ k c' g' = Some x.
Proof.
  induction r as [|p|r1 IH1 r2 IH2|r1 IH1 r2 IH2|r IH|n r IH| |];
    intros c g k x H; cbn [exec] in H.
  - exists c, g. split; [constructor | exact H].
  - destruct c as [o s]. simpl in H. destruct s as [|a s]; [discriminate|].
    destruct (p a) eqn:Hp; [|discriminate].
    exists (Cursor (Some a) s), g. split; [by constructor | exact H].
  - apply IH1 in H as (c1 & g1 & Hr1 & H).
    apply IH2 in H as (c2 & g2 & Hr2 & H).
    exists c2, g2. split; [econstructor; eauto | exact H].
  - destruct (exec r1 c g k) eqn:E1.
    + inversion H; subst. apply IH1 in E1 as (c' & g' & Hr & Hk).
      exists c', g'. split; [by apply run_alt_l | exact Hk].
    + apply IH2 in H as (c' & g' & Hr & Hk).
      exists c', g'. split; [by apply run_alt_r | exact Hk].
  - remember (S (String.length (rest c))) as fuel eqn:Hf. clear Hf.
    revert c g H. induction fuel as [|fuel IHf]; intros c g H; simpl in H.
    + exists c, g. split; [constructor | exact H].
    + match type of H with
      | match ?e with _ => _ end = _ => destruct e eqn:E
      end.
      * inversion H; subst. apply IH in E as (c1 & g1 & Hr & Hk).
        destruct (String.length (rest c1) <? String.length (rest c))%nat; [|discriminate].
        apply IHf in Hk as (c2 & g2 & Hr2 & Hk).
        exists c2, g2. split; [eapply run_star_step; eauto | exact Hk].
      * exists c, g. split; [constructor | exact H].
  - apply IH in H as (c' & g' & Hr & Hk).
    exists c', ((n, consumed c c') :: g'). split; [by constructor | exact Hk].
  - destruct (at_start c) eqn:E; [|discriminate].
    exists c, g. split; [by constructor | exact H].
  - destruct (at_boundary c) eqn:E; [|discriminate].
    exists c, g. split; [by constructor | exact H].
Qed.

Lemma str_app_cons a s t : String a s +:+ t = String a (s +:+ t).
Proof. reflexivity. Qed.

Lemma str_app_nil_r s : s +:+ "" = s.
Proof. induction s as [|a s IH]; [done|]. by rewrite str_app_cons, IH. Qed.

Lemma str_app_assoc s t u : (s +:+ t) +:+ u = s +:+ (t +:+ u).
Proof. induction s as [|a s IH]; [done|]. by rewrite !str_app_cons, IH. Qed.

Lemma str_length_app s t :
  String.length (s +:+ t) = (String.length s + String.length t)%nat.
Proof. induction s as [|a s IH]; [done|]. rewrite str_app_cons. simpl. by rewrite IH. Qed.

Lemma substring_app t s : String.substring 0 (String.length t) (t +:+ s) = t.
Proof.
  induction t as [|a t IH]; [by destruct s|].
  rewrite str_app_cons. simpl. by rewrite IH.
Qed.

Lemma consumed_app o o' t s : consumed (Cursor o (t +:+ s)) (Cursor o' s) = t.
Proof.
  unfold consumed. simpl. rewrite str_length_app.
  replace (String.length t + String.length s - String.length s)%nat
    with (String.length t) by lia.
  apply substring_app.
Qed.

Lemma all_chars_app p s t :
  all_chars p (s +:+ t) = all_chars p s && all_chars p t.
Proof.
  induction s as [|a s IH]; [done|].
  rewrite str_app_cons. simpl. rewrite IH. by rewrite andb_assoc.
Qed.

(** A run only moves forward: what is left afterwards is a suffix. *)
Lemma run_suffix r c g c' g' :
  run r c g c' g' -> exists t, rest c = t +:+ rest c'.
Proof.
  induction 1 as [c g|p a s o g Hp|r1 r2 c g c1 g1 c2 g2 _ [t1 E1] _ [t2 E2]
                 |r1 r2 c g c' g' _ IH|r1 r2 c g c' g' _ IH|r c g
                 |r c g c1 g1 c2 g2 _ [t1 E1] _ [t2 E2]|n r c g c' g' _ IH
                 |c g|c g]; simpl; try (by exists ""); try exact IH.
  - by exists (String a "").
  - exists (t1 +:+ t2). by rewrite E1, E2, str_app_assoc.
  - exists (t1 +:+ t2). by rewrite E1, E2, str_app_assoc.
Qed.

Lemma run_consumed r c g c' g' :
  run r c g c' g' -> rest c = consumed c c' +:+ rest c'.
Proof.
  intros [t E]%run_suffix. destruct c as [o s], c' as [o' s']. simpl in *.
  subst s. by rewrite consumed_app.
Qed.

Lemma run_no_groups r c g c' g' :
  run r c g c' g' -> no_groups r = true -> g' = g.
Proof.
  induction 1; simpl; intros Hn; try done;
    try (apply andb_true_iff in Hn as [H1 H2]); eauto.
  - rewrite IHrun2, IHrun1; auto.
  - rewrite IHrun2, IHrun1; auto.
Qed.

(** What [(Cls p)*] reads is made of characters of the class. *)
Lemma run_star_cls p c g c' g' :
  run (Star (Cls p)) c g c' g' ->
  g' = g /\ exists t, rest c = t +:+ rest c' /\ all_chars p t = true.
Proof.
  remember (Star (Cls p)) as r eqn:Er. induction 1; try discriminate.
  - split; [done|]. by exists "".
  - inversion Er; subst. destruct (IHrun2 eq_refl) as (-> & t & E & Ht).
    inversion H; subst. simpl in *. split; [done|].
    exists (String a t). rewrite str_app_cons, E. simpl.
    rewrite Ht. by match goal with Hp : p _ = true |- _ => rewrite Hp end.
Qed.

Lemma run_lit s c g c' g' :
  run (Lit s) c g c' g' -> g' = g /\ rest c = s +:+ rest c'.
Proof.
  revert c g. induction s as [|a s IH]; intros c g H; simpl in H.
  - by inversion H; subst.
  - inversion H as [| |r1 r2 c0 g0 c1 g1 c2 g2 Ha Hs| | | | | | |]; subst.
    inversion Ha as [|p b t o g1' Hp| | | | | | | |]; subst.
    apply IH in Hs as [-> E]. simpl in *. split; [done|].
    rewrite str_app_cons, E. f_equal.
    unfold is_char in Hp. by apply Ascii.eqb_eq in Hp.
Qed.

(** The loop of a starred class is [star_cls], whatever fuel is left over. *)
Lemma star_loop_cls {R : Type} p (k : cursor -> caps -> option R) fuel o s g :
  (String.length s < fuel)%nat ->
  star_loop (exec (Cls p)) k fuel (Cursor o s) g = star_cls p o s g k.
Proof.
  revert o s. induction fuel as [|fuel IH]; intros o s Hlt; [lia|].
  destruct s as [|a s]; simpl; [done|].
  destruct (p a); [|done].
  assert ((String.length s <? S (String.length s))%nat = true) as ->
    by (apply Nat.ltb_lt; lia).
  rewrite IH by (simpl in Hlt; lia). done.
Qed.

Lemma exec_star_cls {R : Type} p (k : cursor -> caps -> option R) o s g :
  exec (Star (Cls p)) (Cursor o s) g k = star_cls p o s g k.
Proof. apply (star_loop_cls p k (S (String.length s)) o s g). lia. Qed.

(** Completeness on simple patterns: if some run reaches a position where
    the rest of the pattern succeeds, the matcher succeeds. *)
Lemma exec_complete {R : Type} r c g c' g' :
  run r c g c' g' -> simple r = true ->
  forall k : cursor -> caps -> option R,
    is_Some (k c' g') -> is_Some (exec r c g k).
Proof.
  induction 1 as [c g|p a s o g Hp|r1 r2 c g c1 g1 c2 g2 _ IH1 _ IH2
                 |r1 r2 c g c' g' _ IH|r1 r2 c g c' g' _ IH|r c g
                 |r c g c1 g1 c2 g2 H1 _ _ IH2|n r c g c' g' _ IH
                 |c g Hs|c g Hb]; intros Hsimple k Hk; cbn [exec].
  - done.
  - simpl. by rewrite Hp.
  - simpl in Hsimple. apply andb_true_iff in Hsimple as [S1 S2]. auto.
  - simpl in Hsimple. apply andb_true_iff in Hsimple as [S1 S2].
    destruct (exec r1 c g k) eqn:E; [done|].
    specialize (IH S1 k Hk). rewrite E in IH. by destruct IH.
  - simpl in Hsimple. apply andb_true_iff in Hsimple as [S1 S2].
    destruct (exec r1 c g k) eqn:E; [done|]. auto.
  - simpl. destruct (exec r c g _); [done | exact Hk].
  - destruct r; try discriminate. inversion H1; subst.
    specialize (IH2 Hsimple k Hk). rewrite exec_star_cls in IH2.
    change (is_Some (exec (Star (Cls p)) (Cursor o (String a s)) g1 k)).
    rewrite exec_star_cls. simpl.
    match goal with Hp : p _ = true |- _ => rewrite Hp end.
    destruct (star_cls p (Some a) s g1 k); [done|]. by destruct IH2.
  - apply IH; [exact Hsimple | exact Hk].
  - by rewrite Hs.
  - by rewrite Hb.
Qed.

Lemma run_seq_inv r1 r2 c g c2 g2 :
  run (Seq r1 r2) c g c2 g2 ->
  exists c1 g1, run r1 c g c1 g1 /\ run r2 c1 g1 c2 g2.
Proof. inversion 1; subst; eauto. Qed.

Lemma run_grp_inv n r c g c' g2 :
  run (Grp n r) c g c' g2 ->
  exists g1, run r c g c' g1 /\ g2 = (n, consumed c c') :: g1.
Proof. inversion 1; subst; eauto. Qed.

(** What [(Cls p)+] reads: at least one character, all of the class. *)
Lemma run_plus_cls p c g c' g' :
  run (Plus (Cls p)) c g c' g' ->
  g' = g /\ consumed c c' <> "" /\ all_chars p (consumed c c') = true.
Proof.
  intros (c1 & g1 & H1 & H2)%run_seq_inv.
  apply run_star_cls in H2 as (-> & t & E & Ht).
  inversion H1 as [|q a s o g0 Hp| | | | | | | |]; subst. simpl in E. subst s.
  destruct c' as [o' s']. simpl in *.
  change (String a (t +:+ s')) with (String a t +:+ s').
  rewrite consumed_app. simpl. by rewrite Hp, Ht.
Qed.

Lemma match_at_sound r c m :
  match_at r c = Some m ->
  exists c' g', run r c [] c' g' /\ m = Match (consumed c c') g'.
Proof.
  unfold match_at. intros (c' & g' & Hr & [= <-])%exec_sound. eauto.
Qed.

End ReFacts.

(** ** The policy engine *)

Section PolicyFacts.
Import Policy Spec.

Lemma bind_ok {A B} (a : A) (f : A -> result B) : (x ← Ok a; f x) = f a.
Proof. reflexivity. Qed.

Lemma carries_severity_inv v :
  carries_severity v = true ->
  exists d s, v = VDict d /\ d !! "severity" = Some (VStr s).
Proof.
  unfold carries_severity, severity_of. destruct v as [| | | | |d]; try done.
  destruct (d !! "severity") as [[| | |s| |]|] eqn:E; try done. eauto.
Qed.

Lemma has_severity_dict names d s :
  d !! "severity" = Some (VStr s) ->
  has_severity names (VDict d) = existsb (String.eqb s) names.
Proof. intros Hs. unfold has_severity, severity_of. by rewrite Hs. Qed.

Lemma validate_ok idx findings :
  Forall (fun v => carries_severity v = true) findings ->
  validate idx findings = Ok tt.
Proof.
  intros H. revert idx. induction H as [|v vs Hv _ IH]; intros idx; [done|].
  apply carries_severity_inv in Hv as (d & s & -> & Hs).
  cbn [validate is_dict negb has_key].
  assert (is_Some (d !! "severity")) as Hk by (rewrite Hs; eauto).
  rewrite (bool_decide_eq_true_2 _ Hk). cbn [negb]. apply IH.
Qed.

Lemma keep_critical_high_ok findings :
  Forall (fun v => carries_severity v = true) findings ->
  keep_critical_high findings
  = Ok (List.filter (has_severity ["CRITICAL"; "HIGH"]) findings).
Proof.
  induction 1 as [|v vs Hv _ IH]; [done|].
  apply carries_severity_inv in Hv as (d & s & -> & Hs).
  cbn [keep_critical_high List.filter]. unfold getitem. rewrite Hs, bind_ok.
  unfold in_str_set. cbn [hashable]. rewrite bind_ok, IH, bind_ok.
  by rewrite (has_severity_dict _ _ _ Hs).
Qed.

Lemma any_critical_ok findings :
  Forall (fun v => carries_severity v = true) findings ->
  any_critical findings = Ok (existsb (has_severity ["CRITICAL"]) findings).
Proof.
  induction 1 as [|v vs Hv _ IH]; [done|].
  apply carries_severity_inv in Hv as (d & s & -> & Hs).
  cbn [any_critical existsb]. unfold getitem. rewrite Hs, bind_ok.
  rewrite (has_severity_dict _ _ _ Hs). cbn [eq_str existsb].
  rewrite orb_false_r. destruct (String.eqb s "CRITICAL"); [done | exact IH].
Qed.

(** The decision on a list of findings that all carry a severity. *)
Lemma apply_policy_decision pm findings :
  Forall (fun v => carries_severity v = true) findings ->
  apply_policy (engine_of pm) (VList findings)
  = Ok (Decision true
          (match pm with
           | BLOCKING => existsb (has_severity ["CRITICAL"]) findings
           | _ => false
           end)
          (match pm with
           | WARNING => List.filter (has_severity ["CRITICAL"; "HIGH"]) findings
           | _ => findings
           end)).
Proof.
  intros H. unfold apply_policy. rewrite validate_ok, bind_ok by done.
  destruct pm; cbn [engine_of mode mode_name eq_str String.eqb Ascii.eqb
                    Bool.eqb andb].
  - done.
  - by rewrite keep_critical_high_ok.
  - rewrite bind_ok. by rewrite any_critical_ok.
Qed.

Lemma has_severity_critical v :
  has_severity ["CRITICAL"] v = true <-> severity_of v = Some "CRITICAL".
Proof.
  unfold has_severity. destruct (severity_of v) as [s|]; [|done].
  cbn [existsb]. rewrite orb_false_r, String.eqb_eq. naive_solver.
Qed.

(** C2: the decision table of the policy engine.  On findings that all
    carry a severity, every mode returns a decision with [post_comment]
    true; ADVISORY returns all findings unchanged and does not block;
    WARNING returns exactly the CRITICAL and HIGH findings and does not
    block; BLOCKING returns all findings unchanged and blocks iff some
    finding is CRITICAL. *)
Theorem policy_decision_table (findings : list value) (pm : policy_mode) :
  Forall (fun v => carries_severity v = true) findings ->
  exists d,
    apply_policy (engine_of pm) (VList findings) = Ok d
    /\ post_comment d = true
    /\ match pm with
       | ADVISORY => filtered_issues d = findings /\ block_merge d = false
       | WARNING =>
           filtered_issues d
           = List.filter (has_severity ["CRITICAL"; "HIGH"]) findings
           /\ block_merge d = false
       | BLOCKING =>
           filtered_issues d = findings
           /\ (block_merge d = true
               <-> Exists (fun v => severity_of v = Some "CRITICAL") findings)
       end.
Proof.
  intros H. eexists. split; [by apply apply_policy_decision|].
  split; [done|]. destruct pm; cbn [filtered_issues block_merge]; try done.
  split; [done|]. rewrite existsb_exists, Exists_exists.
  split; intros (v & Hin & Hv); exists v.
  - split; [by apply list_elem_of_In | by apply has_severity_critical].
  - split; [by apply list_elem_of_In | by apply has_severity_critical].
Qed.

(** Scenario C: CRITICAL and LOW under WARNING. *)
Lemma policy_decision_table_witness :
  exists d,
    apply_policy (engine_of WARNING)
      (VList [finding_with "CRITICAL"; finding_with "LOW"]) = Ok d
    /\ post_comment d = true
    /\ filtered_issues d = [finding_with "CRITICAL"]
    /\ block_merge d = false.
Proof.
  apply (policy_decision_table
           [finding_with "CRITICAL"; finding_with "LOW"] WARNING).
  repeat constructor.
Defined.

Lemma filter_sublist {A} (f : A -> bool) (l : list A) :
  sublist (List.filter f l) l.
Proof.
  induction l as [|x l IH]; simpl; [constructor|].
  destruct (f x); by constructor.
Qed.

(** C4: the filter subsequence law.  On findings that all carry a
    severity, the findings a decision reports are an order-preserving
    subsequence of the input, and under ADVISORY and BLOCKING they are the
    input itself. *)
Theorem filtered_is_subsequence (findings : list value) (pm : policy_mode) :
  Forall (fun v => carries_severity v = true) findings ->
  exists d,
    apply_policy (engine_of pm) (VList findings) = Ok d
    /\ sublist (filtered_issues d) findings
    /\ (pm = ADVISORY \/ pm = BLOCKING -> filtered_issues d = findings).
Proof.
  intros H. eexists. split; [by apply apply_policy_decision|].
  cbn [filtered_issues]. split.
  - destruct pm; [done | apply filter_sublist | done].
  - by intros [-> | ->].
Qed.

Lemma filtered_is_subsequence_witness :
  exists d,
    apply_policy (engine_of BLOCKING)
      (VList [finding_with "LOW"; finding_with "CRITICAL"]) = Ok d
    /\ sublist (filtered_issues d) [finding_with "LOW"; finding_with "CRITICAL"]
    /\ (BLOCKING = ADVISORY \/ BLOCKING = BLOCKING ->
        filtered_issues d = [finding_with "LOW"; finding_with "CRITICAL"]).
Proof.
  apply (filtered_is_subsequence
           [finding_with "LOW"; finding_with "CRITICAL"] BLOCKING).
  repeat constructor.
Defined.

Lemma validate_rejects idx findings :
  Exists (fun v => lacks_severity v = true) findings ->
  exists e, validate idx findings = Raise e
    /\ is_validation_error e = true
    /\ (Forall (fun v => is_dict v = true) findings -> exists msg, e = ValueError msg).
Proof.
  intros H. revert idx.
  induction findings as [|v vs IH]; intros idx; [by inversion H|].
  cbn [validate]. destruct (is_dict v) eqn:Hd; cbn [negb].
  - destruct (has_key v "severity") eqn:Hk; cbn [negb].
    + inversion H as [? ? Hv|? ? Hvs]; subst.
      * unfold lacks_severity in Hv. rewrite Hd, Hk in Hv. done.
      * destruct (IH Hvs (S idx)) as (e & He & Hval & Hmsg).
        exists e. split; [done|]. split; [done|].
        intros Hall. apply Hmsg. by inversion Hall.
    + eexists. split; [done|]. split; [done|]. eauto.
  - eexists. split; [done|]. split; [done|].
    intros Hall. inversion Hall; subst. congruence.
Qed.

(** C3: a finding without a severity is rejected.  Whatever the mode, if
    some item of the list is a finding that lacks the severity key, the
    evaluation raises a validation error (a ValueError when all the items
    are dicts) and so returns no decision at all. *)
Theorem missing_severity_rejected (self : engine) (findings : list value) :
  Exists (fun v => lacks_severity v = true) findings ->
  (exists e, apply_policy self (VList findings) = Raise e
     /\ is_validation_error e = true
     /\ (Forall (fun v => is_dict v = true) findings ->
         exists msg, e = ValueError msg))
  /\ (forall d, apply_policy self (VList findings) <> Ok d).
Proof.
  intros H. destruct (validate_rejects 0 findings H) as (e & He & Hval & Hmsg).
  assert (apply_policy self (VList findings) = Raise e) as Hr.
  { unfold apply_policy. by rewrite He. }
  split; [by exists e|]. intros d. by rewrite Hr.
Qed.

(** Scenario D: a finding dict without the severity key, after a good one. *)
Lemma missing_severity_rejected_witness :
  (exists e, apply_policy (engine_of BLOCKING)
               (VList [finding_with "HIGH"; VDict (<["message" := VStr "x"]> ∅)])
             = Raise e
     /\ is_validation_error e = true
     /\ (Forall (fun v => is_dict v = true)
           [finding_with "HIGH"; VDict (<["message" := VStr "x"]> ∅)] ->
         exists msg, e = ValueError msg))
  /\ (forall d, apply_policy (engine_of BLOCKING)
                 (VList [finding_with "HIGH"; VDict (<["message" := VStr "x"]> ∅)])
               <> Ok d).
Proof.
  apply (missing_severity_rejected (engine_of BLOCKING)
           [finding_with "HIGH"; VDict (<["message" := VStr "x"]> ∅)]).
  apply Exists_cons_tl, Exists_cons_hd. reflexivity.
Defined.

Lemma known_mode v :
  existsb (eq_str v) valid_modes = true <-> exists pm, v = VStr (mode_name pm).
Proof.
  split.
  - destruct v as [| | |s| |]; try done. unfold valid_modes. cbn [existsb eq_str].
    rewrite !orb_true_iff, !String.eqb_eq.
    intros [->|[->|[->|?]]]; [by exists ADVISORY|by exists WARNING|by exists BLOCKING|done].
  - intros [[] ->]; reflexivity.
Qed.

Lemma init_unfold config :
  init (VDict config)
  = let m := default (VStr "WARNING") (config !! "mode") in
    if hashable m then
      if existsb (eq_str m) valid_modes then Ok (Engine m)
      else Raise (ValueError ("Invalid policy mode: " +:+ py_str m))
    else Raise (TypeError "unhashable type").
Proof.
  unfold init, get_method, in_str_set. cbv zeta.
  generalize (default (VStr "WARNING") (config !! "mode")). intros m.
  rewrite bind_ok. destruct (hashable m); [|reflexivity].
  rewrite bind_ok. by destruct (existsb (eq_str m) valid_modes).
Qed.

(** The engines construction returns are the three of [engine_of]. *)
Lemma init_engine config e :
  init (VDict config) = Ok e -> exists pm, e = engine_of pm.
Proof.
  rewrite init_unfold. cbv zeta.
  destruct (hashable _); [|done].
  destruct (existsb _ valid_modes) eqn:Hk; [|done].
  apply known_mode in Hk as [pm Hpm]. intros [= <-]. exists pm.
  unfold engine_of. by rewrite Hpm.
Qed.

(** C10: construction.  A configuration without a mode key gives the
    engine of mode WARNING; construction raises exactly when a mode value
    is present and is none of the three mode names, and the exception is
    then the documented ValueError unless the value cannot even be hashed. *)
Theorem init_default_and_validation (config : gmap string value) :
  (config !! "mode" = None -> init (VDict config) = Ok (engine_of WARNING))
  /\ ((exists e, init (VDict config) = Raise e /\ is_validation_error e = true)
      <-> (exists v, config !! "mode" = Some v
                     /\ forall pm, v <> VStr (mode_name pm)))
  /\ (forall v, config !! "mode" = Some v -> hashable v = true ->
        (forall pm, v <> VStr (mode_name pm)) ->
        init (VDict config) = Raise (ValueError ("Invalid policy mode: " +:+ py_str v))).
Proof.
  rewrite init_unfold. destruct (config !! "mode") as [v|] eqn:Hm;
    cbv zeta; unfold default, from_option, id.
  - destruct (hashable v) eqn:Hh.
    + destruct (existsb (eq_str v) valid_modes) eqn:Hk.
      * apply known_mode in Hk as [pm ->]. split; [done|]. split.
        -- split; [by intros (e & He & _)|]. intros (v & [= <-] & Hne). by destruct (Hne pm).
        -- intros v [= <-] _ Hne. by destruct (Hne pm).
      * split; [done|]. split.
        -- split; [|by eauto]. intros _. exists v. split; [done|].
           intros pm ->. assert (existsb (eq_str (VStr (mode_name pm))) valid_modes = true)
             as Hk' by (apply known_mode; eauto). congruence.
        -- by intros v' [= <-] _ _.
    + split; [done|]. split.
      * split; [|by eauto]. intros _. exists v. split; [done|].
        intros pm ->. by cbn in Hh.
      * intros v' [= <-] Hh'. congruence.
  - split; [done|]. split; [|done].
    split; [by intros (e & He & _) | by intros (v & Hv & _)].
Qed.

Lemma init_default_and_validation_witness :
  init (VDict ∅) = Ok (engine_of WARNING)
  /\ init (VDict (<["mode" := VStr "STRICT"]> ∅))
     = Raise (ValueError "Invalid policy mode: STRICT").
Proof.
  split.
  - apply (proj1 (init_default_and_validation ∅)). reflexivity.
  - apply (proj2 (proj2 (init_default_and_validation (<["mode" := VStr "STRICT"]> ∅)))
             (VStr "STRICT")); [reflexivity | reflexivity |].
    intros []; discriminate.
Defined.

End PolicyFacts.

(** ** The diff parser *)

Section ScannerFacts.
Import Re Scanner Spec.

(** Group 1 of a hunk header match is a non-empty string of digits. *)
Lemma hunk_header_group line m :
  re_match hunk_header_re line = Some m ->
  exists ds, group m 1 = Some ds /\ ds <> "" /\ all_digits ds = true.
Proof.
  unfold re_match. intros (c' & g' & Hr & ->)%match_at_sound.
  unfold hunk_header_re, seqs in Hr. cbn [fold_right] in Hr.
  apply run_seq_inv in Hr as (c1 & g1 & H1 & Hr).
  apply run_seq_inv in Hr as (c2 & g2 & H2 & Hr).
  apply run_seq_inv in Hr as (c3 & g3 & H3 & Hr).
  apply run_seq_inv in Hr as (c4 & g4 & H4 & Hr).
  apply run_seq_inv in Hr as (c5 & g5 & H5 & Hr).
  apply run_no_groups in Hr; [|reflexivity].
  apply run_grp_inv in H5 as (g5' & H5 & ->).
  apply run_plus_cls in H5 as (_ & Hne & Hd).
  subst g'. exists (consumed c4 c5). split; [|done].
  unfold group. simpl. done.
Qed.

Lemma py_int_short ds :
  ds <> "" -> all_digits ds = true ->
  (int_max_str_digits <? Z.of_nat (String.length ds))%Z = false ->
  py_int (Some ds) = Ok (digits_value 0 ds).
Proof.
  intros Hne Hd Hlen. unfold py_int. rewrite Hd, Hlen.
  by apply String.eqb_neq in Hne as ->.
Qed.

Lemma py_int_long ds :
  ds <> "" -> all_digits ds = true ->
  (int_max_str_digits <? Z.of_nat (String.length ds))%Z = true ->
  exists msg, py_int (Some ds) = Raise (ValueError msg).
Proof.
  intros Hne Hd Hlen. unfold py_int. rewrite Hd, Hlen.
  apply String.eqb_neq in Hne as ->. eauto.
Qed.

(** A line the hunk pattern matches begins with the two at-signs, so it is
    the third branch of the loop that takes it. *)
Lemma hunk_header_branch st line m :
  re_match hunk_header_re line = Some m ->
  step st line
  = (n ← py_int (group m 1); Ok (State (added_lines st) (current_file st) n)).
Proof.
  intros Hm. assert (exists t, line = "@@ -" +:+ t) as [t ->].
  { unfold re_match in Hm. apply match_at_sound in Hm as (c' & g' & Hr & _).
    unfold hunk_header_re, seqs in Hr. cbn [fold_right] in Hr.
    apply run_seq_inv in Hr as (c1 & g1 & H1 & _).
    apply run_lit in H1 as [_ E]. simpl in E. eauto. }
  unfold step.
  change (startswith ("@@ -" +:+ t) "diff --git") with false.
  change (startswith ("@@ -" +:+ t) "+++") with false.
  change (startswith ("@@ -" +:+ t) "@@") with true.
  cbv iota. by rewrite Hm.
Qed.

(** A line the hunk pattern does not match never reaches [int]. *)
Lemma step_unmatched st line :
  re_match hunk_header_re line = None -> exists st', step st line = Ok st'.
Proof.
  intros Hm. unfold step. rewrite Hm.
  destruct (startswith line "diff --git"); [eauto|].
  destruct (startswith line "+++").
  { destruct (re_match file_header_re line); eauto. }
  destruct (startswith line "@@"); [eauto|].
  destruct (startswith line "+" && negb false); [eauto|].
  destruct (negb (startswith line "-")); eauto.
Qed.

(** One iteration raises on an oversized header and on nothing else. *)
Lemma step_ok st line :
  oversized line = false -> exists st', step st line = Ok st'.
Proof.
  unfold oversized.
  destruct (re_match hunk_header_re line) as [m|] eqn:Em;
    [|intros _; by apply step_unmatched].
  rewrite (hunk_header_branch st line m Em).
  apply hunk_header_group in Em as (ds & -> & Hne & Hd). intros Hlen.
  rewrite py_int_short by done. eauto.
Qed.

Lemma step_oversized st line :
  oversized line = true -> exists msg, step st line = Raise (ValueError msg).
Proof.
  unfold oversized.
  destruct (re_match hunk_header_re line) as [m|] eqn:Em; [|done].
  rewrite (hunk_header_branch st line m Em).
  apply hunk_header_group in Em as (ds & -> & Hne & Hd). intros Hlen.
  destruct (py_int_long ds Hne Hd Hlen) as [msg ->]. eauto.
Qed.

Lemma loop_ok st lines :
  Forall (fun l => oversized l = false) lines -> exists st', loop st lines = Ok st'.
Proof.
  intros H. revert st. induction H as [|l ls Hl _ IH]; intros st; simpl; [eauto|].
  destruct (step_ok st l Hl) as [st' ->]. apply IH.
Qed.

Lemma loop_oversized st lines :
  Exists (fun l => oversized l = true) lines ->
  exists msg, loop st lines = Raise (ValueError msg).
Proof.
  revert st. induction lines as [|l ls IH]; intros st H; [by inversion H|].
  cbn [loop]. destruct (oversized l) eqn:Hl.
  - destruct (step_oversized st l Hl) as [msg ->]. eauto.
  - destruct (step_ok st l Hl) as [st' ->]. rewrite bind_ok. apply IH.
    inversion H as [? ? Hh|? ? Ht]; subst; [congruence|done].
Qed.

Lemma inside_hunk_not_oversized line :
  inside_hunk line = true -> oversized line = false.
Proof.
  unfold inside_hunk, oversized. intros [H2 _]%andb_true_iff.
  destruct (re_match hunk_header_re line) as [m|] eqn:Em; [|done].
  exfalso. unfold re_match in Em.
  apply match_at_sound in Em as (c' & g' & Hr & _).
  unfold hunk_header_re, seqs in Hr. cbn [fold_right] in Hr.
  apply run_seq_inv in Hr as (c1 & g1 & H1 & _).
  apply run_lit in H1 as [_ E]. simpl in E. subst line. done.
Qed.

Lemma loop_app st l1 l2 :
  loop st (l1 ++ l2)%list = (st' ← loop st l1; loop st' l2).
Proof.
  revert st. induction l1 as [|l ls IH]; intros st; simpl; [done|].
  destruct (step st l) as [st'|e]; [apply IH | done].
Qed.








(** Records are only ever appended, and each has the shape of a record. *)
Lemma step_appends st line st' :
  step st line = Ok st' ->
  exists tail, added_lines st' = (added_lines st ++ tail)%list
               /\ Forall is_record tail.
Proof.
  assert (exists tail, added_lines st = (added_lines st ++ tail)%list
                       /\ Forall is_record tail) as Hsame.
  { exists []. by rewrite app_nil_r. }
  unfold step.
  destruct (startswith line "diff --git"); [by intros [= <-]|].
  destruct (startswith line "+++").
  { destruct (re_match file_header_re line); by intros [= <-]. }
  destruct (startswith line "@@").
  { destruct (re_match hunk_header_re line); [|by intros [= <-]].
    destruct (py_int _); [|done]. rewrite bind_ok. by intros [= <-]. }
  destruct (startswith line "+" && negb false).
  { intros [= <-]. simpl. destruct (current_file st) as [f|]; [|done].
    destruct (file_is_set (Some f)); [|done].
    eexists. split; [done|]. constructor; [|constructor]. by eexists _, _, _. }
  destruct (negb (startswith line "-")); by intros [= <-].
Qed.

Lemma loop_appends st lines st' :
  loop st lines = Ok st' ->
  exists tail, added_lines st' = (added_lines st ++ tail)%list
               /\ Forall is_record tail.
Proof.
  revert st. induction lines as [|l ls IH]; intros st; simpl.
  { intros [= <-]. exists []. by rewrite app_nil_r. }
  destruct (step st l) as [st1|e] eqn:Hs; [|done]. rewrite bind_ok.
  intros (t2 & E2 & F2)%IH. apply step_appends in Hs as (t1 & E1 & F1).
  exists (t1 ++ t2)%list. rewrite E2, E1, app_assoc. split; [done|].
  by apply Forall_app.
Qed.





(** Without a file header behind it, a line changes neither the file nor
    the output. *)
Lemma step_no_file st line :
  startswith line "+++" = false -> oversized line = false ->
  current_file st = None ->
  exists st', step st line = Ok st'
    /\ current_file st' = None /\ added_lines st' = added_lines st.
Proof.
  intros H3 Hov Hf.
  destruct (re_match hunk_header_re line) as [m|] eqn:Em.
  { pose proof Em as Hm. unfold oversized in Hov. rewrite Em in Hov.
    rewrite (hunk_header_branch st line m Em).
    apply hunk_header_group in Hm as (ds & Hg & Hne & Hd). rewrite Hg in Hov |- *.
    rewrite py_int_short by done. rewrite bind_ok. eauto. }
  unfold step. rewrite H3, Hf, Em.
  destruct (startswith line "diff --git"); [eauto|].
  destruct (startswith line "@@"); [destruct st; simpl in *; subst; eauto|].
  destruct (startswith line "+" && negb false); [eauto|].
  destruct (negb (startswith line "-")); [eauto|].
  destruct st; simpl in *; subst; eauto.
Qed.

Lemma loop_no_file st lines :
  Forall (fun l => startswith l "+++" = false) lines ->
  Forall (fun l => oversized l = false) lines ->
  current_file st = None ->
  exists st', loop st lines = Ok st'
    /\ current_file st' = None /\ added_lines st' = added_lines st.
Proof.
  intros H. revert st. induction H as [|l ls Hl _ IH]; intros st Hov Hf; [by eauto|].
  apply List.Forall_cons_iff in Hov as [Hov Hovs].
  destruct (step_no_file st l Hl Hov Hf) as (st1 & Hs & Hf1 & Ha1).
  destruct (IH st1 Hovs Hf1) as (st' & Hloop & Hf' & Ha').
  exists st'. simpl. rewrite Hs, bind_ok. split_and!; [done..|]. congruence.
Qed.

(** A hunk header that the pattern rejects changes nothing at all. *)
Lemma step_malformed_hunk st line :
  startswith line "@@" = true -> re_match hunk_header_re line = None ->
  step st line = Ok st.
Proof.
  intros H2 Hm. unfold step. rewrite H2, Hm.
  destruct line as [|a line]; [done|]. cbn [startswith] in H2.
  apply andb_true_iff in H2 as [Ha _]. apply Ascii.eqb_eq in Ha as <-.
  reflexivity.
Qed.

(** The parser returns exactly on the diffs without an oversized header,
    and what it returns then are records. *)
Lemma scan_pr_returns diff :
  (Forall (fun l => oversized l = false) (split_lines diff) ->
   exists recs, scan_pr diff = Ok recs /\ Forall is_record recs)
  /\ (Exists (fun l => oversized l = true) (split_lines diff) ->
      exists msg, scan_pr diff = Raise (ValueError msg)).
Proof.
  unfold scan_pr. split.
  - intros H. destruct (loop_ok init (split_lines diff) H) as [st Hst].
    rewrite Hst, bind_ok. eexists. split; [done|].
    by destruct (loop_appends _ _ _ Hst) as (tail & -> & Htail).
  - intros H. destruct (loop_oversized init _ H) as [msg ->]. eauto.
Qed.

(** C6, evaluated: the parser can raise.  A hunk header that the pattern
    accepts hands its number to int, which nothing guards: on the diff
    whose header declares a start of 4301 digits the ValueError of the
    interpreter's digit limit leaves the parser.  That is the only way.  A
    diff is parsed to a list of records exactly when none of its lines is
    such a header, and raises that ValueError otherwise.  The rest of the
    claim holds: the empty text gives no record; a line that begins like a
    hunk header but is rejected by the pattern leaves the counter, and the
    whole state, as it was; and as long as no file header has been read,
    no line, added or not, produces a record. *)
Theorem long_hunk_number_raises :
  scan_pr long_number_diff
  = Raise (ValueError
             ("Exceeds the limit (4300 digits) for integer string conversion: "
              +:+ "value has 4301 digits; "
              +:+ "use sys.set_int_max_str_digits() to increase the limit"))
  /\ (forall diff,
        (Forall (fun l => oversized l = false) (split_lines diff) ->
         exists recs, scan_pr diff = Ok recs /\ Forall is_record recs)
        /\ (Exists (fun l => oversized l = true) (split_lines diff) ->
            exists msg, scan_pr diff = Raise (ValueError msg)))
  /\ scan_pr "" = Ok []
  /\ (forall st line,
        startswith line "@@" = true -> re_match hunk_header_re line = None ->
        step st line = Ok st)
  /\ (forall pre post,
        Forall (fun l => startswith l "+++" = false) pre ->
        Forall (fun l => oversized l = false) pre ->
        exists st, loop init pre = Ok st
          /\ added_lines st = [] /\ current_file st = None
          /\ loop init (pre ++ post)%list = loop st post).
Proof.
  split_and!.
  - vm_compute. reflexivity.
  - apply scan_pr_returns.
  - reflexivity.
  - apply step_malformed_hunk.
  - intros pre post Hpre Hov.
    destruct (loop_no_file init pre Hpre Hov eq_refl) as (st & Hl & Hf & Ha).
    exists st. split_and!; try done. by rewrite loop_app, Hl.
Qed.

(** C1, evaluated.  The parser reads Scenario A as the claim says: one
    record, file app.py, line 2.  The dict it builds names the file under
    the key filename, while the security scan reads the key file; the
    lookup fails, the exception is swallowed, and the scan of the parser's
    output reports nothing.  Given the same content under the key file, the
    rule for hardcoded secrets fires once, at line 1 of that content. *)
Theorem scenario_a_pipeline :
  scan_pr scenario_a = Ok [added_line "app.py" 2 secret_line]
  /\ getitem (added_line "app.py" 2 secret_line) "file" = Raise (KeyError "file")
  /\ Security.scan [added_line "app.py" 2 secret_line] = []
  /\ Security.scan [VDict (<["file" := VStr "app.py"]>
                           (<["content" := VStr secret_line]> ∅))]
     = [VDict (<["file" := VStr "app.py"]>
              (<["line" := VInt 1]>
              (<["severity" := VStr "CRITICAL"]>
              (<["type" := VStr "A02: Cryptographic Failures (CWE-798)"]>
              (<["message" := VStr "Hardcoded secret detected"]>
              (<["fix" := VStr "Use environment variables or secure vaults"]> ∅))))))].
Proof. split_and!; vm_compute; reflexivity. Qed.

End ScannerFacts.

(** ** The rule sets: one bad item never aborts a scan *)

(** Case analysis on every conditional of the goal. *)
Ltac case_ifs :=
  repeat match goal with
         | |- context [if ?b then _ else _] => destruct b
         end.

Section SkipFacts.
Import Spec.

Lemma security_scan_line_app file_name n line issues :
  Security.scan_line file_name n line issues
  = (issues ++ Security.scan_line file_name n line [])%list.
Proof.
  unfold Security.scan_line. generalize Security.rules as rs.
  intros rs. revert issues. induction rs as [|r rs IH]; intros issues; simpl.
  { by rewrite app_nil_r. }
  destruct (Re.re_search (Security.regex r) line).
  - rewrite IH. rewrite (IH [_]). by rewrite app_assoc.
  - apply IH.
Qed.

Lemma security_scan_lines_app file_name n lines issues :
  Security.scan_lines file_name n lines issues
  = (issues ++ Security.scan_lines file_name n lines [])%list.
Proof.
  revert n issues. induction lines as [|l ls IH]; intros n issues; simpl.
  { by rewrite app_nil_r. }
  rewrite IH. rewrite (IH _ (Security.scan_line _ _ _ [])).
  rewrite security_scan_line_app. by rewrite app_assoc.
Qed.

Lemma security_scan_change_app change issues :
  Security.scan_change change issues
  = ((issues ++ security_findings change)%list,
     snd (Security.scan_change change [])).
Proof.
  unfold security_findings, Security.scan_change.
  destruct (getitem change "content") as [content|e]; [|by rewrite app_nil_r].
  destruct (getitem change "file") as [file_name|e]; [|by rewrite app_nil_r].
  destruct (Security.split_content content) as [lines|e]; [|by rewrite app_nil_r].
  simpl. by rewrite security_scan_lines_app.
Qed.

Lemma security_bad_item_silent change :
  security_item_ok change = false -> security_findings change = [].
Proof.
  unfold security_item_ok, security_findings, Security.scan_change.
  destruct (getitem change "content") as [content|e]; [|done].
  destruct (getitem change "file") as [file_name|e]; [|done].
  destruct (Security.split_content content) as [lines|e]; done.
Qed.

Lemma security_scan_from changes issues :
  Security.scan_from changes issues
  = (issues ++ flat_map security_findings
                 (List.filter security_item_ok changes))%list.
Proof.
  revert issues. induction changes as [|c cs IH]; intros issues; simpl.
  { by rewrite app_nil_r. }
  rewrite IH, security_scan_change_app. cbn [fst].
  destruct (security_item_ok c) eqn:Hok; simpl.
  - by rewrite app_assoc.
  - by rewrite (security_bad_item_silent c Hok), app_nil_r.
Qed.

Lemma standards_check_line_app filename lines idx line violations :
  Standards.check_line filename lines idx line violations
  = (violations ++ Standards.check_line filename lines idx line [])%list.
Proof.
  unfold Standards.check_line.
  case_ifs; rewrite ?app_nil_r, <- ?app_assoc; reflexivity.
Qed.

Lemma standards_check_lines_app filename lines idx todo violations :
  Standards.check_lines filename lines idx todo violations
  = (violations ++ Standards.check_lines filename lines idx todo [])%list.
Proof.
  revert idx violations. induction todo as [|l ls IH]; intros idx violations; simpl.
  { by rewrite app_nil_r. }
  rewrite IH. rewrite (IH _ (Standards.check_line _ _ _ _ [])).
  rewrite standards_check_line_app. by rewrite app_assoc.
Qed.

Lemma standards_scan_change_app change violations :
  Standards.scan_change change violations
  = ((violations ++ standards_findings change)%list,
     snd (Standards.scan_change change [])).
Proof.
  unfold standards_findings, Standards.scan_change.
  destruct (get_method change "file" _) as [filename|e]; [|by rewrite app_nil_r].
  destruct (get_method change "content" _) as [[| | |content| |]|e];
    try by rewrite app_nil_r.
  simpl. by rewrite standards_check_lines_app.
Qed.

Lemma standards_bad_item_silent change :
  standards_item_ok change = false -> standards_findings change = [].
Proof.
  unfold standards_item_ok, standards_findings, Standards.scan_change.
  destruct (get_method change "file" _) as [filename|e]; [|done].
  destruct (get_method change "content" _) as [[| | |content| |]|e]; done.
Qed.

Lemma standards_scan_from changes violations :
  Standards.scan_from changes violations
  = (violations ++ flat_map standards_findings
                     (List.filter standards_item_ok changes))%list.
Proof.
  revert violations. induction changes as [|c cs IH]; intros violations; simpl.
  { by rewrite app_nil_r. }
  rewrite IH, standards_scan_change_app. cbn [fst].
  destruct (standards_item_ok c) eqn:Hok; simpl.
  - by rewrite app_assoc.
  - by rewrite (standards_bad_item_silent c Hok), app_nil_r.
Qed.

(** The items the security scan gets through: dicts with a str content
    and a file. *)
Lemma security_item_ok_iff change :
  security_item_ok change = true
  <-> exists d content file_name,
        change = VDict d /\ d !! "content" = Some (VStr content)
        /\ d !! "file" = Some file_name.
Proof.
  unfold security_item_ok, Security.scan_change, getitem. split.
  - destruct change as [| | | | |d]; try done.
    destruct (d !! "content") as [content|] eqn:Ec; [|done].
    destruct (d !! "file") as [file_name|] eqn:Ef; [|done].
    destruct content; try done. eauto 10.
  - intros (d & content & file_name & -> & -> & ->). done.
Qed.

(** C7: one bad item never aborts a scan.  Both scans return a list for
    every list of items; an item whose try-body raises adds nothing and
    changes nothing; and the result is, in order, what the items that do
    not raise produce. *)
Theorem bad_items_are_skipped :
  (forall changes,
     Security.scan changes
     = flat_map security_findings (List.filter security_item_ok changes))
  /\ (forall self changes,
        truthy (Standards.enabled self) = true ->
        Standards.scan self changes
        = flat_map standards_findings (List.filter standards_item_ok changes))
  /\ (forall change issues,
        security_item_ok change = false ->
        Security.scan_change change issues
        = (issues, snd (Security.scan_change change []))
        /\ forall before after,
             Security.scan (before ++ change :: after)%list
             = Security.scan (before ++ after)%list)
  /\ (forall self change violations,
        standards_item_ok change = false ->
        Standards.scan_change change violations
        = (violations, snd (Standards.scan_change change []))
        /\ forall before after,
             Standards.scan self (before ++ change :: after)%list
             = Standards.scan self (before ++ after)%list).
Proof.
  split_and!.
  - intros changes. unfold Security.scan. by rewrite security_scan_from.
  - intros self changes He. unfold Standards.scan. rewrite He. simpl.
    by rewrite standards_scan_from.
  - intros change issues Hbad. split.
    + rewrite security_scan_change_app.
      by rewrite (security_bad_item_silent _ Hbad), app_nil_r.
    + intros before after. unfold Security.scan.
      rewrite !security_scan_from, !List.filter_app. simpl. by rewrite Hbad.
  - intros self change violations Hbad. split.
    + rewrite standards_scan_change_app.
      by rewrite (standards_bad_item_silent _ Hbad), app_nil_r.
    + intros before after. unfold Standards.scan.
      destruct (negb (truthy (Standards.enabled self))); [done|].
      rewrite !standards_scan_from, !List.filter_app. simpl. by rewrite Hbad.
Qed.

(** A list with a malformed item between two good ones. *)
Lemma bad_items_are_skipped_witness :
  Security.scan ([sample_change] ++ VNone :: [sample_change])%list
  = Security.scan ([sample_change] ++ [sample_change])%list
  /\ Standards.scan (Standards.Checker (VBool true)) [VInt 3; sample_change]
     = flat_map standards_findings
         (List.filter standards_item_ok [VInt 3; sample_change]).
Proof.
  destruct bad_items_are_skipped as (_ & Hstd & Hsec & _). split.
  - apply (proj2 (Hsec VNone [] eq_refl)).
  - apply Hstd. reflexivity.
Defined.

End SkipFacts.

(** ** The standards rule set: function names *)

Section NamingFacts.
Import Re Spec.


Lemma run_lit_startswith p o s g :
  startswith s p = true ->
  exists o', run (Lit p) (Cursor o s) g (Cursor o' (str_drop (String.length p) s)) g.
Proof.
  revert o s. induction p as [|a p IH]; intros o s H.
  { exists o. simpl. destruct s; constructor. }
  destruct s as [|b s]; [done|]. cbn [startswith] in H.
  apply andb_true_iff in H as [Hab Hs].
  destruct (IH (Some b) s Hs) as [o' Hr]. exists o'. simpl.
  eapply run_seq; [|exact Hr]. constructor. exact Hab.
Qed.











End NamingFacts.

(** ** The license rule set *)

Section LicenseFacts.
Import Re Spec.

Lemma contains_unfold s p :
  contains s p
  = startswith s p || match s with String _ s' => contains s' p | EmptyString => false end.
Proof. by destruct s. Qed.

Lemma contains_tail a s p : contains s p = true -> contains (String a s) p = true.
Proof. intros H. rewrite contains_unfold, H. apply orb_true_r. Qed.

Lemma contains_drop_first s a p :
  contains s (String a p) = true -> contains s p = true.
Proof.
  induction s as [|b s IH]; rewrite contains_unfold; [done|].
  intros [H|H]%orb_true_iff.
  - cbn [startswith] in H. apply andb_true_iff in H as [_ H].
    apply contains_tail. rewrite contains_unfold, H. done.
  - by apply contains_tail, IH.
Qed.

(** Every token holds the letters GPL. *)
Lemma token_contains_gpl line :
  existsb (contains line) license_tokens = true -> contains line "GPL" = true.
Proof.
  unfold license_tokens. cbn [existsb]. rewrite !orb_true_iff.
  intros [H|[H|[H|H]]]; [done| | |done]; by eapply contains_drop_first.
Qed.

Lemma restricted_matches_at o s :
  startswith s "GPL" = true ->
  is_Some (match_at License.restricted_re (Cursor o s)).
Proof.
  intros H. destruct (run_lit_startswith "GPL" o s [] H) as [o' R].
  unfold match_at.
  eapply (exec_complete License.restricted_re _ _ _ _); [|reflexivity|done].
  unfold License.restricted_re, seqs, Opt. cbn [fold_right].
  eapply run_seq; [apply run_grp, run_alt_l, R|].
  repeat (eapply run_seq; [apply run_alt_r, run_eps|]).
  apply run_eps.
Qed.

(** The pattern finds something on every line that holds a token. *)
Lemma restricted_search_complete line :
  contains line "GPL" = true -> is_Some (re_search License.restricted_re line).
Proof.
  unfold re_search. generalize (@None ascii) as o.
  induction line as [|a s IH]; intros o; rewrite contains_unfold; [done|].
  intros H. cbn [search_from].
  destruct (match_at License.restricted_re (Cursor o (String a s))) eqn:Em; [done|].
  apply orb_true_iff in H as [H|H].
  - apply (restricted_matches_at o) in H. rewrite Em in H. by destruct H.
  - by apply IH.
Qed.

Lemma license_scan_line_keeps file p n line issues hc x :
  In x issues -> In x (fst (License.scan_line file p n line (issues, hc))).
Proof.
  intros H. unfold License.scan_line. cbn [fst].
  destruct (re_search License.restricted_re line); [|done].
  destruct (_ && _); rewrite ?in_app_iff; tauto.
Qed.

Lemma license_scan_line_adds file p n line issues hc m :
  re_search License.restricted_re line = Some m ->
  In (License.restricted_issue file n m)
     (fst (License.scan_line file p n line (issues, hc)))
  /\ (License.is_gpl (group m 1) = true -> truthy p = true ->
      In (License.conflict_issue file n)
         (fst (License.scan_line file p n line (issues, hc)))).
Proof.
  intros Hm. unfold License.scan_line. rewrite Hm. cbn [fst]. split.
  - destruct (_ && _); rewrite ?in_app_iff; simpl; tauto.
  - intros -> ->. cbn [andb]. rewrite in_app_iff. simpl. tauto.
Qed.

Lemma license_scan_lines_keeps file p n lines st x :
  In x (fst st) -> In x (fst (License.scan_lines file p n lines st)).
Proof.
  revert n st. induction lines as [|l ls IH]; intros n [issues hc] H; simpl; [done|].
  apply IH. by apply license_scan_line_keeps.
Qed.

Lemma license_scan_lines_adds file p n lines st i line m :
  lines !! i = Some line ->
  re_search License.restricted_re line = Some m ->
  In (License.restricted_issue file (n + i) m)
     (fst (License.scan_lines file p n lines st))
  /\ (License.is_gpl (group m 1) = true -> truthy p = true ->
      In (License.conflict_issue file (n + i))
         (fst (License.scan_lines file p n lines st))).
Proof.
  revert n st i. induction lines as [|l ls IH]; intros n [issues hc] i Hi Hm; [done|].
  destruct i as [|i]; simpl in Hi.
  - injection Hi as ->. rewrite Nat.add_0_r. cbn [License.scan_lines].
    destruct (license_scan_line_adds file p n line issues hc m Hm) as [H1 H2].
    split; [|intros Hg Hp]; apply license_scan_lines_keeps; auto.
  - replace (n + S i)%nat with (S n + i)%nat by lia. cbn [License.scan_lines].
    by apply IH.
Qed.

Lemma license_scan_file_keeps api p file issues x :
  In x issues -> In x (License.scan_file api p file issues).
Proof.
  intros H. unfold License.scan_file.
  destruct (License.get_file_content api file) as [content|e]; [|done].
  pose proof (license_scan_lines_keeps file p 1 (split_lines content)
                (issues, false) x H) as Hk.
  destruct (License.scan_lines _ _ _ _ _) as [issues' hc]. cbn [fst] in Hk.
  destruct (negb hc); rewrite ?in_app_iff; tauto.
Qed.

Lemma license_scan_file_adds api p file issues content i line m :
  License.get_file_content api file = Ok content ->
  split_lines content !! i = Some line ->
  re_search License.restricted_re line = Some m ->
  In (License.restricted_issue file (i + 1) m) (License.scan_file api p file issues)
  /\ (License.is_gpl (group m 1) = true -> truthy p = true ->
      In (License.conflict_issue file (i + 1)) (License.scan_file api p file issues)).
Proof.
  intros Hc Hi Hm. unfold License.scan_file. rewrite Hc.
  pose proof (license_scan_lines_adds file p 1 (split_lines content)
                (issues, false) i line m Hi Hm) as [H1 H2].
  replace (1 + i)%nat with (i + 1)%nat in * by lia.
  destruct (License.scan_lines _ _ _ _ _) as [issues' hc]. cbn [fst] in *.
  destruct (negb hc); rewrite ?in_app_iff; tauto.
Qed.

Lemma license_fold_keeps api p files issues x :
  In x issues ->
  In x (fold_left (fun issues file => License.scan_file api p file issues) files issues).
Proof.
  revert issues. induction files as [|f fs IH]; intros issues H; simpl; [done|].
  by apply IH, license_scan_file_keeps.
Qed.

Lemma license_fold_adds api p files issues file x :
  In file files ->
  (forall issues', In x (License.scan_file api p file issues')) ->
  In x (fold_left (fun issues file => License.scan_file api p file issues) files issues).
Proof.
  revert issues. induction files as [|f fs IH]; intros issues Hin Hx; [done|].
  simpl. destruct Hin as [-> | Hin].
  - apply license_fold_keeps, Hx.
  - by apply IH.
Qed.

Lemma search_from_sound r o s m :
  search_from r o s = Some m -> exists o' s', match_at r (Cursor o' s') = Some m.
Proof.
  revert o. induction s as [|a s IH]; intros o; cbn [search_from].
  - destruct (match_at r (Cursor o "")) eqn:E; [|done]. intros [= <-]. eauto.
  - destruct (match_at r (Cursor o (String a s))) eqn:E.
    + intros [= <-]. eauto.
    + apply IH.
Qed.

(** Group 1 of a match of the licence pattern is one of the three tokens. *)
Lemma restricted_group line m :
  re_search License.restricted_re line = Some m ->
  exists token, group m 1 = Some token /\ In token license_tokens.
Proof.
  unfold re_search. intros (o & s & Hm)%search_from_sound.
  apply match_at_sound in Hm as (c' & g' & Hr & ->).
  unfold License.restricted_re, seqs in Hr. cbn [fold_right] in Hr.
  apply run_seq_inv in Hr as (c1 & g1 & H1 & Hr).
  apply run_no_groups in Hr; [|reflexivity]. subst g'.
  apply run_grp_inv in H1 as (g0 & H1 & ->).
  destruct c1 as [o1 s1]. unfold group. cbn [groups List.find fst Nat.eqb fmap
    option_fmap option_map snd].
  inversion H1 as [| | |r1 r2 c g c2 g2 Ha|r1 r2 c g c2 g2 Hb| | | | |]; subst.
  - apply (run_lit "GPL") in Ha as [_ E]. simpl in E. subst s.
    exists "GPL". rewrite consumed_app. split; [done|]. simpl. tauto.
  - inversion Hb as [| | |r1 r2 c g c2 g2 Ha|r1 r2 c g c2 g2 Hc| | | | |]; subst.
    + apply (run_lit "AGPL") in Ha as [_ E]. simpl in E. subst s.
      exists "AGPL". rewrite consumed_app. split; [done|]. simpl. tauto.
    + apply (run_lit "LGPL") in Hc as [_ E]. simpl in E. subst s.
      exists "LGPL". rewrite consumed_app. split; [done|]. simpl. tauto.
Qed.

Lemma restricted_issue_fields file n m :
  is_finding_at "restricted_license" "HIGH" n (License.restricted_issue file n m) = true.
Proof.
  apply bool_decide_eq_true_2.
  unfold License.restricted_issue, License.mk_issue, str_field, int_field.
  split_and!; by rewrite !lookup_insert_ne, lookup_insert_eq by done.
Qed.

Lemma conflict_issue_fields file n :
  is_finding_at "license_conflict" "HIGH" n (License.conflict_issue file n) = true.
Proof.
  apply bool_decide_eq_true_2.
  unfold License.conflict_issue, License.mk_issue, str_field, int_field.
  split_and!; by rewrite !lookup_insert_ne, lookup_insert_eq by done.
Qed.

(** C8, as the code has it: every line with a token is reported, and plain
    GPL conflicts with a proprietary project.  When the check is enabled
    and a listed file can be read, each of its lines that holds one of the
    tokens GPL, AGPL, LGPL is matched by the pattern, whose group 1 is one
    of the tokens, and gets the HIGH restricted-license finding; when that
    group is GPL and the project is flagged proprietary, the line also gets
    the HIGH conflict finding. *)
Theorem restricted_license_flagged (api : License.github_api) (on : value)
    (files : list string) (file content : string) (i : nat) (line : string) :
  get_method (License.config api) "license_check_enabled" (VBool false) = Ok on ->
  truthy on = true ->
  License.get_files api = Ok files ->
  In file files ->
  License.get_file_content api file = Ok content ->
  split_lines content !! i = Some line ->
  existsb (contains line) license_tokens = true ->
  exists issues m token,
    License.scan api = Ok issues
    /\ re_search License.restricted_re line = Some m
    /\ group m 1 = Some token /\ In token license_tokens
    /\ In (License.restricted_issue file (i + 1) m) issues
    /\ existsb (is_finding_at "restricted_license" "HIGH" (i + 1)) issues = true
    /\ (token = "GPL" -> truthy (proprietary_flag api) = true ->
        In (License.conflict_issue file (i + 1)) issues
        /\ existsb (is_finding_at "license_conflict" "HIGH" (i + 1)) issues = true).
Proof.
  intros Hon Ht Hfiles Hin Hc Hi Htok.
  apply token_contains_gpl, restricted_search_complete in Htok as [m Hm].
  destruct (restricted_group line m Hm) as (token & Hg & Htoken).
  eexists _, m, token.
  split.
  { unfold License.scan. rewrite Hon, bind_ok, Ht, Hfiles. cbn [negb]. reflexivity. }
  fold (proprietary_flag api).
  assert (In (License.restricted_issue file (i + 1) m)
            (fold_left (fun issues f =>
                          License.scan_file api (proprietary_flag api) f issues)
                       files [])) as Hr.
  { apply (license_fold_adds _ _ _ _ file); [done|]. intros issues'.
    by apply (license_scan_file_adds api _ file issues' content i line m). }
  split_and!; try done.
  - apply existsb_exists. eexists. split; [exact Hr|].
    exact (restricted_issue_fields file (i + 1) m).
  - intros -> Hp.
    assert (In (License.conflict_issue file (i + 1))
              (fold_left (fun issues f =>
                            License.scan_file api (proprietary_flag api) f issues)
                         files [])) as Hcf.
    { apply (license_fold_adds _ _ _ _ file); [done|]. intros issues'.
      apply (license_scan_file_adds api _ file issues' content i line m); try done.
      by rewrite Hg. }
    split; [done|]. apply existsb_exists. eexists. split; [exact Hcf|].
    exact (conflict_issue_fields file (i + 1)).
Qed.

Lemma restricted_license_flagged_witness :
  exists issues m token,
    License.scan (proprietary_project "Released under GPL-3.0") = Ok issues
    /\ re_search License.restricted_re "Released under GPL-3.0" = Some m
    /\ group m 1 = Some token /\ In token license_tokens
    /\ In (License.restricted_issue "LICENSE" (0 + 1) m) issues
    /\ existsb (is_finding_at "restricted_license" "HIGH" (0 + 1)) issues = true
    /\ (token = "GPL" ->
        truthy (proprietary_flag (proprietary_project "Released under GPL-3.0")) = true ->
        In (License.conflict_issue "LICENSE" (0 + 1)) issues
        /\ existsb (is_finding_at "license_conflict" "HIGH" (0 + 1)) issues = true).
Proof.
  apply (restricted_license_flagged (proprietary_project "Released under GPL-3.0")
           (VBool true) ["LICENSE"] "LICENSE" "Released under GPL-3.0" 0
           "Released under GPL-3.0").
  - reflexivity.
  - reflexivity.
  - reflexivity.
  - left. reflexivity.
  - reflexivity.
  - reflexivity.
  - reflexivity.
Defined.

(** C8, as stated, fails: AGPL is a strong-copyleft token, yet in a
    proprietary project it gets the restricted-license finding only. *)
Lemma agpl_conflict_counterexample :
  ~ (forall (api : License.github_api) (on : value) (files : list string)
            (file content : string) (i : nat) (line token : string)
            (issues : list value),
       get_method (License.config api) "license_check_enabled" (VBool false) = Ok on ->
       truthy on = true ->
       License.get_files api = Ok files ->
       In file files ->
       License.get_file_content api file = Ok content ->
       split_lines content !! i = Some line ->
       In token license_tokens ->
       contains line token = true ->
       License.scan api = Ok issues ->
       existsb (is_finding_at "restricted_license" "HIGH" (i + 1)) issues = true
       /\ (truthy (proprietary_flag api) = true ->
           In token strong_copyleft ->
           existsb (is_finding_at "license_conflict" "HIGH" (i + 1)) issues = true)).
Proof.
  intros H.
  destruct (H (proprietary_project "Licensed under AGPL-3.0") (VBool true)
              ["LICENSE"] "LICENSE" "Licensed under AGPL-3.0" 0%nat
              "Licensed under AGPL-3.0" "AGPL" _
              eq_refl eq_refl eq_refl (or_introl eq_refl) eq_refl eq_refl
              (or_intror (or_introl eq_refl)) eq_refl eq_refl) as [_ Hc].
  specialize (Hc eq_refl (or_intror (or_introl eq_refl))).
  vm_compute in Hc. discriminate Hc.
Qed.

End LicenseFacts.


(** * Further properties of the code *)

(** ** The diff parser, continued *)

Section ScannerMore.
Import Re Scanner Spec More.

Lemma split_lines_no_newline s :
  Forall (fun l => all_chars is_any l = true) (split_lines s).
Proof.
  induction s as [|a s IH]; simpl; [constructor; [reflexivity|constructor]|].
  destruct (Ascii.eqb a newline) eqn:Ea; [by constructor|].
  destruct (split_lines s) as [|l ls].
  { constructor; [|constructor]. simpl. unfold is_any. by rewrite Ea. }
  inversion IH; subst. constructor; [|done].
  simpl. unfold is_any at 1. by rewrite Ea.
Qed.

Lemma startswith_split s p :
  startswith s p = true -> s = p +:+ str_drop (String.length p) s.
Proof.
  revert s. induction p as [|a p IH]; intros s H; [by destruct s|].
  destruct s as [|b s]; [done|]. cbn [startswith] in H.
  apply andb_true_iff in H as [Hab Hs]. apply Ascii.eqb_eq in Hab as ->.
  rewrite str_app_cons. simpl. f_equal. by apply IH.
Qed.

(** A literal is a prefix test. *)
Lemma exec_lit {R : Type} p o s g (k : cursor -> caps -> option R) :
  exec (Lit p) (Cursor o s) g k
  = if startswith s p
    then k (Cursor (last_of o p) (str_drop (String.length p) s)) g
    else None.
Proof.
  revert o s. induction p as [|a p IH]; intros o s; [by destruct s|].
  destruct s as [|b s]; [done|]. cbn [Lit exec rest startswith].
  unfold is_char. destruct (Ascii.eqb_spec a b) as [->|]; [|done]. simpl. apply IH.
Qed.

(** When the rest of the pattern cannot fail, a starred class reads as far
    as the class allows. *)
Lemma star_cls_greedy {R : Type} p o s g (k : cursor -> caps -> option R) :
  (forall c g', is_Some (k c g')) ->
  exists o' t s',
    s = t +:+ s' /\ all_chars p t = true
    /\ match s' with String a _ => p a = false | EmptyString => True end
    /\ star_cls p o s g k = k (Cursor o' s') g.
Proof.
  intros Hk. revert o. induction s as [|a s IH]; intros o.
  { by exists o, "", "". }
  simpl. destruct (p a) eqn:Hp.
  - destruct (IH (Some a)) as (o' & t & s' & -> & Ht & Hs' & E).
    exists o', (String a t), s'. rewrite E.
    destruct (Hk (Cursor o' s') g) as [x ->].
    split_and!; try done. simpl. by rewrite Hp, Ht.
  - exists o, "", (String a s). by split_and!.
Qed.

Lemma all_chars_drop p n s : all_chars p s = true -> all_chars p (str_drop n s) = true.
Proof.
  revert s. induction n as [|n IH]; intros s H; [by destruct s|].
  destruct s as [|a s]; [done|]. simpl in *.
  apply andb_true_iff in H as [_ H]. by apply IH.
Qed.

Lemma exec_plus_cls {R : Type} p o s g (k : cursor -> caps -> option R) :
  exec (Plus (Cls p)) (Cursor o s) g k
  = match s with
    | String a s' => if p a then star_cls p (Some a) s' g k else None
    | EmptyString => None
    end.
Proof.
  destruct s as [|a s']; [done|].
  change (exec (Plus (Cls p)) (Cursor o (String a s')) g k)
    with (if p a then exec (Star (Cls p)) (Cursor (Some a) s') g k else None).
  destruct (p a); [|done]. apply exec_star_cls.
Qed.

(** On a line without a newline, group 1 of a file header match is all
    that follows the prefix, and it is not empty. *)
Lemma file_header_group line m :
  all_chars is_any line = true ->
  re_match file_header_re line = Some m ->
  exists f, group m 1 = Some f /\ f <> "" /\ line = "+++ b/" +:+ f.
Proof.
  intros Hline. unfold re_match, match_at, file_header_re, seqs.
  cbn [fold_right]. cbn [exec]. rewrite exec_lit.
  destruct (startswith line "+++ b/") eqn:Hp; [|done].
  pose proof (startswith_split _ _ Hp) as Hsplit.
  pose proof (all_chars_drop _ 6 _ Hline) as Hrest.
  simpl String.length in *. destruct (str_drop 6 line) as [|a s] eqn:Hd; [done|].
  simpl in Hrest. apply andb_true_iff in Hrest as [Ha Hs].
  rewrite exec_plus_cls, Ha.
  match goal with
  | |- star_cls _ _ _ _ ?k = _ -> _ =>
      destruct (star_cls_greedy is_any (Some a) s [] k) as (o' & t & s' & E & Ht & Hs' & ->);
        [intros; eauto|]
  end.
  subst s. rewrite all_chars_app in Hs. apply andb_true_iff in Hs as [_ Hs'any].
  destruct s' as [|b s']; [|simpl in Hs'any; rewrite Hs' in Hs'any; done].
  intros [= <-]. exists (String a t). unfold group. cbn [groups List.find fst
    Nat.eqb fmap option_fmap option_map snd].
  change (String a (t +:+ "")) with (String a t +:+ "").
  rewrite consumed_app. rewrite str_app_nil_r in Hsplit. by split_and!.
Qed.

Lemma digits_value_nonneg acc s : (0 <= acc)%Z -> (0 <= digits_value acc s)%Z.
Proof.
  revert acc. induction s as [|a s IH]; intros acc H; simpl; [done|].
  apply IH. lia.
Qed.

Lemma step_state_ok lines st line st' :
  In line lines -> all_chars is_any line = true ->
  state_ok lines st -> step st line = Ok st' -> state_ok lines st'.
Proof.
  intros Hin Hnl (Hfile & Hnum & Hrecs). unfold step.
  destruct (startswith line "diff --git").
  { intros [= <-]. by split_and!. }
  destruct (startswith line "+++") eqn:H3.
  { destruct (re_match file_header_re line) as [m|] eqn:Em;
      [|intros [= <-]; by split_and!].
    apply file_header_group in Em as (f & Hg & Hne & Hline); [|done].
    intros [= <-]. split_and!; try done. simpl. rewrite Hg.
    intros f' [= <-]. split; [done|]. by rewrite <- Hline. }
  destruct (startswith line "@@").
  { destruct (re_match hunk_header_re line) as [m|] eqn:Em;
      [|intros [= <-]; by split_and!].
    apply hunk_header_group in Em as (ds & -> & Hne & Hd).
    destruct (int_max_str_digits <? Z.of_nat (String.length ds))%Z eqn:Hlen.
    { destruct (py_int_long ds Hne Hd Hlen) as [msg ->]. done. }
    rewrite py_int_short by done. intros [= <-].
    split_and!; try done. by apply digits_value_nonneg. }
  destruct (startswith line "+") eqn:H1; cbn [andb negb].
  { intros [= <-]. split_and!; try done; simpl; [lia|].
    destruct (current_file st) as [f|] eqn:Hf; [|done].
    destruct (file_is_set (Some f)); [|done].
    apply Forall_app. split; [done|]. constructor; [|constructor].
    destruct (Hfile f eq_refl) as [Hne Hhdr].
    exists f, (line_number st), (drop_first line). split_and!; try done.
    destruct line as [|a line]; [done|]. cbn [startswith] in H1.
    apply andb_true_iff in H1 as [Ha _]. apply Ascii.eqb_eq in Ha as <-. done. }
  destruct (negb (startswith line "-")); intros [= <-]; split_and!; try done.
  simpl. lia.
Qed.

Lemma loop_state_ok lines todo st st' :
  (forall l, In l todo -> In l lines /\ all_chars is_any l = true) ->
  state_ok lines st -> loop st todo = Ok st' -> state_ok lines st'.
Proof.
  revert st. induction todo as [|l ls IH]; intros st Hin Hst; simpl.
  { by intros [= <-]. }
  destruct (step st l) as [st1|e] eqn:Hs; [|done].
  destruct (Hin l (or_introl eq_refl)) as [Hl Hnl].
  apply IH; [intros; apply Hin; by right|].
  by eapply step_state_ok.
Qed.

Lemma scan_pr_accounted diff :
  Forall (fun l => oversized l = false) (split_lines diff) ->
  exists recs,
    scan_pr diff = Ok recs /\ Forall (record_of (split_lines diff)) recs.
Proof.
  intros Hov. unfold scan_pr.
  destruct (loop_ok init (split_lines diff) Hov) as [st Hst].
  rewrite Hst. exists (added_lines st). split; [done|].
  assert (state_ok (split_lines diff) st) as (_ & _ & H); [|done].
  eapply loop_state_ok; [| |exact Hst].
  - intros l Hl. split; [done|].
    pose proof (split_lines_no_newline diff) as Hall.
    rewrite List.Forall_forall in Hall. by apply Hall.
  - split_and!; [done|simpl; lia|constructor].
Qed.

(** X1: nothing is made up.  A diff none of whose hunk headers is too long
    for int is parsed, and every record the parser returns has a non-empty
    file that stands behind the prefix of a file header line of the diff, a
    line number that is not negative, and a content that is an added line
    of the diff without its plus sign. *)
Theorem scan_pr_records (diff : string) :
  Forall (fun l => oversized l = false) (split_lines diff) ->
  exists recs,
    scan_pr diff = Ok recs
    /\ Forall (fun r =>
                exists f n c,
                  r = added_line f n c
                  /\ f <> "" /\ (0 <= n)%Z
                  /\ In ("+++ b/" +:+ f) (split_lines diff)
                  /\ In (String "+" c) (split_lines diff)) recs.
Proof. exact (scan_pr_accounted diff). Qed.

(** The two hunks of the diff that is out of order. *)
Lemma scan_pr_records_witness :
  exists recs,
    scan_pr out_of_order_diff = Ok recs
    /\ Forall (fun r =>
                exists f n c,
                  r = added_line f n c
                  /\ f <> "" /\ (0 <= n)%Z
                  /\ In ("+++ b/" +:+ f) (split_lines out_of_order_diff)
                  /\ In (String "+" c) (split_lines out_of_order_diff)) recs.
Proof. apply (scan_pr_records out_of_order_diff). repeat constructor. Defined.

(** A removal changes nothing. *)
Lemma step_removed st line : startswith line "-" = true -> step st line = Ok st.
Proof.
  intros H. destruct line as [|a line]; [done|]. cbn [startswith] in H.
  apply andb_true_iff in H as [Ha _]. apply Ascii.eqb_eq in Ha as <-.
  unfold step. cbn. by destruct line.
Qed.

Lemma loop_without_removed st lines :
  loop st (List.filter (fun l => negb (startswith l "-")) lines) = loop st lines.
Proof.
  revert st. induction lines as [|l ls IH]; intros st; simpl; [done|].
  destruct (startswith l "-") eqn:Hl; simpl.
  - by rewrite (step_removed st l Hl), bind_ok.
  - destruct (step st l); [apply IH | done].
Qed.

(** X2: removed lines, and the old-file header with them, have no say: a diff
    and the same diff without its lines that begin with a minus sign are
    parsed to the same records. *)
Theorem removed_lines_ignored (diff diff' : string) :
  split_lines diff'
  = List.filter (fun l => negb (startswith l "-")) (split_lines diff) ->
  scan_pr diff' = scan_pr diff.
Proof. intros H. unfold scan_pr. by rewrite H, loop_without_removed. Qed.

(** Scenario A without the header of the old file. *)
Lemma removed_lines_ignored_witness :
  scan_pr scenario_a_new_side = scan_pr scenario_a.
Proof. apply removed_lines_ignored. vm_compute. reflexivity. Defined.

Lemma omap_cons {A B} (f : A -> option B) (x : A) (l : list A) :
  omap f (x :: l)
  = match f x with Some y => y :: omap f l | None => omap f l end.
Proof. reflexivity. Qed.

Lemma omap_ext_in {A B} (f g : A -> option B) (l : list A) :
  (forall x, In x l -> f x = g x) -> omap f l = omap g l.
Proof.
  induction l as [|x l IH]; intros H; [done|].
  rewrite !omap_cons, (H x (or_introl eq_refl)), IH; [done|].
  intros y Hy. apply H. by right.
Qed.

Lemma omap_map {A B C} (f : B -> option C) (h : A -> B) (l : list A) :
  omap f (map h l) = omap (fun x => f (h x)) l.
Proof.
  induction l as [|x l IH]; [done|].
  cbn [map]. by rewrite !omap_cons, IH.
Qed.

Lemma kept_cons l ls : kept (l :: ls) = (kept [l] + kept ls)%Z.
Proof. unfold kept. simpl. destruct (negb (startswith l "-")); simpl; lia. Qed.

(** The records of a body, read off its first line and the rest. *)
Lemma body_records_cons f n l ls :
  body_records f n (l :: ls)
  = ((if startswith l "+" then [added_line f n (drop_first l)] else [])
     ++ body_records f (n + kept [l]) ls)%list.
Proof.
  unfold body_records. cbn [length seq]. rewrite omap_cons.
  rewrite <- seq_shift, omap_map.
  assert (omap (fun j => body_record f n (l :: ls) (S j)) (seq 0 (length ls))
          = omap (body_record f (n + kept [l]) ls) (seq 0 (length ls))) as ->.
  { apply omap_ext_in. intros j _. unfold body_record. simpl.
    destruct (ls !! j) as [l'|]; [|done].
    destruct (startswith l' "+"); [|done].
    rewrite (kept_cons l (take j ls)). by rewrite Z.add_assoc. }
  unfold body_record at 1. cbn [lookup list_lookup take]. unfold kept at 1.
  cbn [List.filter length Z.of_nat]. rewrite Z.add_0_r.
  by destruct (startswith l "+").
Qed.

Lemma startswith_plus_not_minus l :
  startswith l "+" = true -> startswith l "-" = false.
Proof.
  destruct l as [|a l]; [done|]. cbn [startswith].
  intros [Ha _]%andb_true_iff. apply Ascii.eqb_eq in Ha as <-. done.
Qed.

(** One line of a hunk body, with a file set. *)
Lemma step_body_line st f l :
  current_file st = Some f -> f <> "" -> body_line l = true ->
  step st l
  = Ok (State
          (added_lines st
           ++ (if startswith l "+"
               then [added_line f (line_number st) (drop_first l)] else []))%list
          (Some f) (line_number st + kept [l])).
Proof.
  intros Hf Hne. unfold body_line, inside_hunk.
  intros [[H2 H3]%andb_true_iff Hd]%andb_true_iff.
  apply negb_true_iff in H2, H3, Hd. unfold step. rewrite Hd, H3, H2, Hf.
  destruct (startswith l "+") eqn:H1; cbn [andb negb].
  - unfold file_is_set. apply String.eqb_neq in Hne as ->. cbn [negb].
    unfold kept. simpl. by rewrite (startswith_plus_not_minus l H1).
  - unfold kept. simpl. destruct (startswith l "-"); simpl.
    + rewrite app_nil_r, Z.add_0_r. destruct st; simpl in *. by subst.
    + by rewrite app_nil_r.
Qed.

(** X3: the line numbers of a hunk.  With a file set and the counter at [n],
    a body of lines without headers emits one record per added line, in
    order, and the record of the line at index [j] is numbered [n] plus
    the number of earlier body lines that are not removals; afterwards the
    counter has advanced by the number of lines that are not removals. *)
Theorem hunk_body_numbering (st : state) (f : string) (body : list string) :
  current_file st = Some f -> f <> "" ->
  Forall (fun l => body_line l = true) body ->
  exists st',
    loop st body = Ok st'
    /\ added_lines st'
       = (added_lines st ++ body_records f (line_number st) body)%list
    /\ line_number st' = (line_number st + kept body)%Z
    /\ current_file st' = Some f.
Proof.
  intros Hf Hne Hbody. revert st Hf.
  induction Hbody as [|l ls Hl _ IH]; intros st Hf.
  { exists st. unfold body_records, kept. simpl.
    by rewrite app_nil_r, Z.add_0_r. }
  cbn [loop]. rewrite (step_body_line st f l Hf Hne Hl), bind_ok.
  match goal with
  | |- context [loop ?s1 ls] =>
      destruct (IH s1 eq_refl) as (st' & Hloop & Hrecs & Hnum & Hfile)
  end.
  exists st'. split; [exact Hloop|]. cbn [added_lines line_number] in *.
  split_and!; [|by rewrite Hnum, (kept_cons l ls), Z.add_assoc|done].
  by rewrite Hrecs, body_records_cons, <- app_assoc.
Qed.

(** A hunk that starts at line 10: context, a removal, two additions. *)
Lemma hunk_body_numbering_witness :
  exists st',
    loop (State [] (Some "a.py") 10) [" ctx"; "-old"; "+new"; " ctx"; "+more"] = Ok st'
    /\ added_lines st'
       = ([] ++ body_records "a.py" 10 [" ctx"; "-old"; "+new"; " ctx"; "+more"])%list
    /\ line_number st' = (10 + kept [" ctx"; "-old"; "+new"; " ctx"; "+more"])%Z
    /\ current_file st' = Some "a.py".
Proof.
  apply (hunk_body_numbering (State [] (Some "a.py") 10) "a.py"
           [" ctx"; "-old"; "+new"; " ctx"; "+more"]).
  - reflexivity.
  - discriminate.
  - repeat constructor.
Defined.

Lemma added_line_no_file f n c :
  getitem (added_line f n c) "file" = Raise (KeyError "file").
Proof.
  unfold getitem, added_line.
  by rewrite !lookup_insert_ne, lookup_empty by done.
Qed.

Lemma added_line_content f n c :
  getitem (added_line f n c) "content" = Ok (VStr c).
Proof.
  unfold getitem, added_line.
  by rewrite !lookup_insert_ne, lookup_insert_eq by done.
Qed.

Lemma record_not_security_item lines r :
  record_of lines r -> security_item_ok r = false.
Proof.
  intros (f & n & c & -> & _). unfold security_item_ok, Security.scan_change.
  by rewrite added_line_content, added_line_no_file.
Qed.

Lemma records_filtered_out lines recs :
  Forall (record_of lines) recs -> List.filter security_item_ok recs = [].
Proof.
  induction 1 as [|r rs Hr _ IH]; [done|]. cbn [List.filter].
  by rewrite (record_not_security_item _ _ Hr).
Qed.

(** X4: the parser and the security scan do not fit together.  Whatever the
    diff that is parsed, the records the parser returns name their file
    under the key filename, the security scan asks each for the key file,
    and so the scan of the parser's output finds nothing. *)
Theorem security_scan_of_records_empty (diff : string) :
  Forall (fun l => oversized l = false) (split_lines diff) ->
  exists recs, scan_pr diff = Ok recs /\ Security.scan recs = [].
Proof.
  intros Hov. destruct (scan_pr_accounted diff Hov) as (recs & Hscan & Hrecs).
  exists recs. split; [done|]. unfold Security.scan.
  rewrite security_scan_from. cbn [app].
  by rewrite (records_filtered_out _ _ Hrecs).
Qed.

(** Scenario A, whose added line holds a secret. *)
Lemma security_scan_of_records_empty_witness :
  exists recs, scan_pr scenario_a = Ok recs /\ Security.scan recs = [].
Proof. apply (security_scan_of_records_empty scenario_a). repeat constructor. Defined.

Lemma split_single_line c : all_chars is_any c = true -> split_lines c = [c].
Proof.
  induction c as [|a c IH]; [done|]. simpl.
  intros [Ha Hc]%andb_true_iff. unfold is_any in Ha.
  apply negb_true_iff in Ha as ->. by rewrite (IH Hc).
Qed.

Lemma check_line_new filename lines idx line violations v :
  In v (Standards.check_line filename lines idx line violations) ->
  In v violations
  \/ exists t msg fx, v = Standards._create_violation filename (idx + 1) t msg fx.
Proof.
  unfold Standards.check_line. case_ifs; rewrite ?in_app_iff; simpl;
    intuition (subst; eauto 6).
Qed.

Lemma record_content_single_line lines r :
  Forall (fun l => all_chars is_any l = true) lines ->
  record_of lines r ->
  exists f n c, r = added_line f n c /\ split_lines c = [c].
Proof.
  intros Hall (f & n & c & -> & _ & _ & _ & Hin).
  exists f, n, c. split; [done|]. apply split_single_line.
  rewrite List.Forall_forall in Hall. apply Hall in Hin. by simpl in Hin.
Qed.

Lemma added_line_get_file f n c :
  get_method (added_line f n c) "file" (VStr "") = Ok (VStr "").
Proof.
  unfold get_method, added_line.
  by rewrite !lookup_insert_ne, lookup_empty by done.
Qed.

Lemma added_line_get_content f n c :
  get_method (added_line f n c) "content" (VStr "") = Ok (VStr c).
Proof.
  unfold get_method, added_line.
  by rewrite !lookup_insert_ne, lookup_insert_eq by done.
Qed.

(** X5: the parser and the standards check do not fit together either.  The
    check takes each record for a file of its own: it finds no file name
    and reads the one added line as line 1.  So every finding it reports
    on the output of the parser, for a diff that is parsed, carries the
    empty file name and the line 1. *)
Theorem standards_scan_of_records (diff : string) (self : Standards.checker) :
  Forall (fun l => oversized l = false) (split_lines diff) ->
  exists recs,
    scan_pr diff = Ok recs
    /\ Forall (fun v =>
                exists t msg fx,
                  v = Standards._create_violation (VStr "") 1 t msg fx)
         (Standards.scan self recs).
Proof.
  intros Hov. destruct (scan_pr_accounted diff Hov) as (recs & Hscan & Hrecs).
  exists recs. split; [done|]. apply List.Forall_forall. intros v.
  unfold Standards.scan. destruct (negb _); [done|].
  rewrite standards_scan_from. cbn [app]. intros Hv.
  apply in_flat_map in Hv as (r & Hr & Hv). apply filter_In in Hr as [Hr _].
  rewrite List.Forall_forall in Hrecs. apply Hrecs in Hr.
  apply (record_content_single_line _ _ (split_lines_no_newline diff)) in Hr
    as (f & n & c & -> & Hc).
  unfold standards_findings, Standards.scan_change in Hv.
  rewrite added_line_get_file, added_line_get_content, Hc in Hv.
  cbn [fst Standards.check_lines] in Hv.
  apply check_line_new in Hv as [[]|Hv]. exact Hv.
Qed.

(** Scenario A under an enabled checker. *)
Lemma standards_scan_of_records_witness :
  exists recs,
    scan_pr scenario_a = Ok recs
    /\ Forall (fun v =>
                exists t msg fx,
                  v = Standards._create_violation (VStr "") 1 t msg fx)
         (Standards.scan (Standards.Checker (VBool true)) recs).
Proof.
  apply (standards_scan_of_records scenario_a (Standards.Checker (VBool true))).
  repeat constructor.
Defined.

End ScannerMore.

(** ** The security rule set, continued *)

Section SecurityMore.
Import Re Spec More.

(** The findings of one line: the rules that match, nothing else. *)
Lemma security_scan_line_in file_name n line issues v :
  In v (Security.scan_line file_name n line issues)
  <-> In v issues
      \/ exists r, In r Security.rules
           /\ is_Some (re_search (Security.regex r) line)
           /\ v = Security.issue file_name n r.
Proof.
  unfold Security.scan_line. generalize Security.rules as rs. intros rs.
  revert issues. induction rs as [|r rs IH]; intros issues; simpl.
  { split; [by left | by intros [?|(r & [] & _)]]. }
  rewrite IH. destruct (re_search (Security.regex r) line) as [m|] eqn:Em.
  - rewrite in_app_iff. simpl. split.
    + intros [[?|[<-|[]]]|(r' & ? & ? & ?)]; eauto 8.
    + intros [?|(r' & [<-|?] & ? & ->)]; eauto 8.
  - split.
    + intros [?|(r' & ? & ? & ?)]; eauto 8.
    + intros [?|(r' & [<-|?] & Hm & ->)]; eauto 8.
      rewrite Em in Hm. by destruct Hm.
Qed.

Lemma security_scan_lines_in file_name n lines issues v :
  In v (Security.scan_lines file_name n lines issues)
  <-> In v issues
      \/ exists i line r,
           lines !! i = Some line /\ In r Security.rules
           /\ is_Some (re_search (Security.regex r) line)
           /\ v = Security.issue file_name (n + i) r.
Proof.
  revert n issues. induction lines as [|l ls IH]; intros n issues; simpl.
  { split; [by left | by intros [?|(i & ? & ? & ? & _)]]. }
  rewrite IH, security_scan_line_in. split.
  - intros [[?|(r & ? & ? & ->)]|(i & line & r & ? & ? & ? & ->)].
    + by left.
    + right. exists 0%nat, l, r. by rewrite Nat.add_0_r.
    + right. exists (S i), line, r. split_and!; try done. f_equal. lia.
  - intros [?|(i & line & r & Hi & ? & ? & ->)]; [by eauto|].
    destruct i as [|i]; simpl in Hi.
    + injection Hi as ->. left. right. exists r. by rewrite Nat.add_0_r.
    + right. exists i, line, r. split_and!; try done. f_equal. lia.
Qed.

Lemma security_scan_in (changes : list value) (v : value) :
  In v (Security.scan changes)
  <-> exists d content file_name i line r,
        In (VDict d) changes
        /\ d !! "content" = Some (VStr content)
        /\ d !! "file" = Some file_name
        /\ split_lines content !! i = Some line
        /\ In r Security.rules
        /\ is_Some (re_search (Security.regex r) line)
        /\ v = Security.issue file_name (i + 1) r.
Proof.
  unfold Security.scan. rewrite security_scan_from. cbn [app].
  rewrite in_flat_map. split.
  - intros (c & Hc & Hv). apply filter_In in Hc as [Hc Hok].
    apply security_item_ok_iff in Hok as (d & content & fn & -> & Hcont & Hfile).
    unfold security_findings, Security.scan_change, getitem in Hv.
    rewrite Hcont, Hfile in Hv. cbn [Security.split_content fst] in Hv.
    apply security_scan_lines_in in Hv as [[]|(i & line & r & ? & ? & ? & ->)].
    exists d, content, fn, i, line, r. split_and!; try done. f_equal. lia.
  - intros (d & content & fn & i & line & r & Hin & Hcont & Hfile & Hi & Hr & Hm & ->).
    exists (VDict d). split.
    + apply filter_In. split; [done|]. apply security_item_ok_iff. eauto 8.
    + unfold security_findings, Security.scan_change, getitem.
      rewrite Hcont, Hfile. cbn [Security.split_content fst].
      apply security_scan_lines_in. right. exists i, line, r.
      split_and!; try done. f_equal. lia.
Qed.

(** X6: one finding per line and rule that match, and no other.  A value is
    among the findings of the security scan exactly when some item of the
    list is a dict with a str content and a file, some rule matches some
    line of that content, and the value is the finding of that rule for
    that file at that line, counted from 1. *)
Theorem security_scan_findings (changes : list value) (v : value) :
  In v (Security.scan changes)
  <-> exists d content file_name i line r,
        In (VDict d) changes
        /\ d !! "content" = Some (VStr content)
        /\ d !! "file" = Some file_name
        /\ split_lines content !! i = Some line
        /\ In r Security.rules
        /\ is_Some (re_search (Security.regex r) line)
        /\ v = Security.issue file_name (i + 1) r.
Proof. apply security_scan_in. Qed.

Lemma search_from_unfold r o s :
  search_from r o s
  = match match_at r (Cursor o s) with
    | Some m => Some m
    | None =>
        match s with
        | String a s' => search_from r (Some a) s'
        | EmptyString => None
        end
    end.
Proof. by destruct s. Qed.

(** A search finds something when the pattern matches at some position. *)
Lemma search_from_app r pre s o :
  (forall o', is_Some (match_at r (Cursor o' s))) ->
  is_Some (search_from r o (pre +:+ s)).
Proof.
  intros H. revert o. induction pre as [|a pre IH]; intros o.
  - change ("" +:+ s) with s. rewrite search_from_unfold.
    destruct (H o) as [m ->]. eauto.
  - rewrite str_app_cons, search_from_unfold.
    destruct (match_at r _); [eauto|]. apply IH.
Qed.

Lemma run_lit_app p o s g :
  run (Lit p) (Cursor o (p +:+ s)) g (Cursor (last_of o p) s) g.
Proof.
  revert o. induction p as [|a p IH]; intros o; simpl; [constructor|].
  rewrite str_app_cons. eapply run_seq; [|apply IH].
  constructor. unfold is_char. apply Ascii.eqb_refl.
Qed.

Lemma run_star_app p t s o g :
  all_chars p t = true ->
  exists o', run (Star (Cls p)) (Cursor o (t +:+ s)) g (Cursor o' s) g.
Proof.
  revert o. induction t as [|a t IH]; intros o Ht.
  { exists o. constructor. }
  simpl in Ht. apply andb_true_iff in Ht as [Ha Ht].
  destruct (IH (Some a) Ht) as [o' Hr]. exists o'. rewrite str_app_cons.
  eapply run_star_step; [|exact Hr]. by constructor.
Qed.

(** The shape of a hardcoded secret is matched wherever it stands. *)
Lemma secret_shape_matches pre key ws1 ws2 q1 body q2 post :
  In key credential_names ->
  all_chars is_space ws1 = true -> all_chars is_space ws2 = true ->
  Security.quote_chars q1 = true -> Security.quote_chars q2 = true ->
  body <> "" -> all_chars Security.not_quote body = true ->
  is_Some (re_search Security.secret_re
             (pre +:+ key +:+ ws1 +:+ "=" +:+ ws2
              +:+ String q1 (body +:+ String q2 post))).
Proof.
  intros Hkey H1 H2 Hq1 Hq2 Hne Hbody. unfold re_search.
  apply search_from_app. intros o. unfold match_at.
  destruct body as [|b body]; [done|]. simpl in Hbody.
  apply andb_true_iff in Hbody as [Hb Hbody].
  destruct (run_star_app is_space ws1
              ("=" +:+ ws2 +:+ String q1 (String b body +:+ String q2 post))
              (last_of o key) [(1, key)] H1) as [o1 R1].
  destruct (run_star_app is_space ws2
              (String q1 (String b body +:+ String q2 post))
              (last_of o1 "=") [(1, key)] H2) as [o2 R2].
  destruct (run_star_app Security.not_quote body (String q2 post)
              (Some b) [(1, key)] Hbody) as [o3 R3].
  eapply (exec_complete Security.secret_re _ _ (Cursor (Some q2) post) [(1, key)]);
    [|reflexivity|done].
  unfold Security.secret_re, seqs. cbn [fold_right].
  eapply run_seq.
  { assert (run (Alt (Lit "password") (Alt (Lit "api_key")
                   (Alt (Lit "secret") (Lit "token"))))
              (Cursor o (key +:+ ws1 +:+ "=" +:+ ws2
                         +:+ String q1 (String b body +:+ String q2 post))) []
              (Cursor (last_of o key)
                 (ws1 +:+ "=" +:+ ws2
                  +:+ String q1 (String b body +:+ String q2 post))) []) as Hk.
    { unfold credential_names in Hkey. simpl in Hkey.
      destruct Hkey as [<-|[<-|[<-|[<-|[]]]]].
      - apply run_alt_l, run_lit_app.
      - apply run_alt_r, run_alt_l, run_lit_app.
      - apply run_alt_r, run_alt_r, run_alt_l, run_lit_app.
      - apply run_alt_r, run_alt_r, run_alt_r, run_lit_app. }
    pose proof (run_grp 1 _ _ _ _ _ Hk) as Hg.
    rewrite consumed_app in Hg. exact Hg. }
  eapply run_seq; [exact R1|].
  eapply run_seq; [apply run_lit_app|].
  eapply run_seq; [exact R2|].
  eapply run_seq; [by apply run_cls|].
  eapply run_seq.
  { eapply run_seq; [by apply run_cls|]. exact R3. }
  eapply run_seq; [by apply run_cls|]. constructor.
Qed.

(** X7: rule coverage.  If a line of a well-formed item holds one of the names
    password, api_key, secret, token, then optional blanks, an equals sign,
    optional blanks, and a non-empty text without quotes between two quote
    characters, the scan reports the CRITICAL finding for a hardcoded
    secret at that line. *)
Theorem hardcoded_secret_reported (changes : list value)
    (d : gmap string value) (content : string) (file_name : value) (i : nat)
    (pre key ws1 ws2 : string) (q1 : ascii) (body : string) (q2 : ascii)
    (post : string) :
  In (VDict d) changes ->
  d !! "content" = Some (VStr content) ->
  d !! "file" = Some file_name ->
  split_lines content !! i
  = Some (pre +:+ key +:+ ws1 +:+ "=" +:+ ws2
          +:+ String q1 (body +:+ String q2 post)) ->
  In key credential_names ->
  all_chars is_space ws1 = true -> all_chars is_space ws2 = true ->
  Security.quote_chars q1 = true -> Security.quote_chars q2 = true ->
  body <> "" -> all_chars Security.not_quote body = true ->
  exists r,
    In r Security.rules
    /\ Security.severity r = "CRITICAL"
    /\ Security.message r = "Hardcoded secret detected"
    /\ In (Security.issue file_name (i + 1) r) (Security.scan changes).
Proof.
  intros Hin Hc Hf Hi Hkey H1 H2 Hq1 Hq2 Hne Hbody.
  eexists. split; [left; reflexivity|]. split; [done|]. split; [done|].
  apply security_scan_in. eexists d, content, file_name, i, _, _.
  split_and!; try done; [by left|]. cbn [Security.regex].
  by apply secret_shape_matches.
Qed.

Lemma hardcoded_secret_reported_witness :
  exists r,
    In r Security.rules
    /\ Security.severity r = "CRITICAL"
    /\ Security.message r = "Hardcoded secret detected"
    /\ In (Security.issue (VStr "app.py") (0 + 1) r)
          (Security.scan [VDict sample_dict]).
Proof.
  apply (hardcoded_secret_reported [VDict sample_dict] sample_dict
           ("  " +:+ secret_line) (VStr "app.py") 0
           "  " "password" " " " " Security.dquote "abc123" Security.dquote "").
  - left. reflexivity.
  - reflexivity.
  - reflexivity.
  - reflexivity.
  - left. reflexivity.
  - reflexivity.
  - reflexivity.
  - reflexivity.
  - reflexivity.
  - discriminate.
  - reflexivity.
Defined.

Lemma security_rule_severity r :
  In r Security.rules ->
  Security.severity r = "CRITICAL" \/ Security.severity r = "HIGH".
Proof.
  unfold Security.rules. simpl. intros [<-|[<-|[<-|[<-|[]]]]]; simpl; auto.
Qed.

Lemma security_issue_severity file_name n r :
  severity_of (Security.issue file_name n r) = Some (Security.severity r).
Proof.
  unfold severity_of, Security.issue.
  by rewrite !lookup_insert_ne, lookup_insert_eq by done.
Qed.

Lemma security_findings_severe changes :
  Forall (fun v => has_severity ["CRITICAL"; "HIGH"] v = true)
         (Security.scan changes).
Proof.
  apply List.Forall_forall. intros v Hv.
  apply security_scan_in in Hv as (d & c & fn & i & line & r & _ & _ & _ & _ & Hr & _ & ->).
  unfold has_severity. rewrite security_issue_severity.
  destruct (security_rule_severity r Hr) as [-> | ->]; reflexivity.
Qed.

Lemma filter_all {A} (f : A -> bool) (l : list A) :
  Forall (fun x => f x = true) l -> List.filter f l = l.
Proof. induction 1 as [|x l Hx _ IH]; simpl; [done|]. by rewrite Hx, IH. Qed.

(** X8: the security scan and the policy.  Every finding of the security scan
    is CRITICAL or HIGH, so under WARNING the policy reports all of them,
    in their order, and does not block. *)
Theorem warning_keeps_security_findings (changes : list value) :
  Policy.apply_policy (engine_of WARNING) (VList (Security.scan changes))
  = Ok (Policy.Decision true false (Security.scan changes)).
Proof.
  pose proof (security_findings_severe changes) as Hsev.
  rewrite apply_policy_decision.
  - by rewrite (filter_all _ _ Hsev).
  - eapply Forall_impl; [exact Hsev|]. simpl. intros v Hv.
    unfold has_severity in Hv. unfold carries_severity.
    by destruct (severity_of v).
Qed.

End SecurityMore.

(** ** The standards rule set, continued *)

Section StandardsMore.
Import Re Spec More.

(** The findings of the lines of one content: those of each line. *)
Lemma check_lines_in filename lines idx todo violations v :
  In v (Standards.check_lines filename lines idx todo violations)
  <-> In v violations
      \/ exists j line,
           todo !! j = Some line
           /\ In v (Standards.check_line filename lines (idx + j) line []).
Proof.
  revert idx violations. induction todo as [|l ls IH]; intros idx violations; simpl.
  { split; [by left | by intros [?|(j & ? & ? & _)]]. }
  rewrite IH, standards_check_line_app, in_app_iff. split.
  - intros [[?|?]|(j & line & ? & ?)].
    + by left.
    + right. exists 0%nat, l. by rewrite Nat.add_0_r.
    + right. exists (S j), line. split; [done|].
      by replace (idx + S j)%nat with (S idx + j)%nat by lia.
  - intros [?|(j & line & Hj & Hv)]; [by eauto|].
    destruct j as [|j]; simpl in Hj.
    + injection Hj as ->. left. right. by rewrite Nat.add_0_r in Hv.
    + right. exists j, line. split; [done|].
      by replace (S idx + j)%nat with (idx + S j)%nat by lia.
Qed.

(** The findings of a scan, item by item and line by line. *)
Lemma standards_scan_in self changes v :
  In v (Standards.scan self changes)
  <-> truthy (Standards.enabled self) = true
      /\ exists d content j line,
           In (VDict d) changes
           /\ d !! "content" = Some (VStr content)
           /\ split_lines content !! j = Some line
           /\ In v (Standards.check_line (default (VStr "") (d !! "file"))
                      (split_lines content) j line []).
Proof.
  unfold Standards.scan. destruct (truthy (Standards.enabled self)); cbn [negb].
  2: { split; [done | by intros [? _]]. }
  rewrite standards_scan_from. cbn [app]. rewrite in_flat_map. split.
  - intros (c & Hc & Hv). split; [done|]. apply filter_In in Hc as [Hc Hok].
    unfold standards_item_ok, standards_findings, Standards.scan_change,
      get_method in *.
    destruct c as [| | | | |d]; try done.
    destruct (d !! "content") as [[| | |content| |]|] eqn:Ec;
      cbn [default from_option id fst] in *; try done.
    apply check_lines_in in Hv as [[]|(j & line & Hj & Hv)].
    exists d, content, j, line. by split_and!.
  - intros (_ & d & content & j & line & Hin & Hc & Hj & Hv).
    exists (VDict d). split.
    + apply filter_In. split; [done|].
      unfold standards_item_ok, Standards.scan_change, get_method. by rewrite Hc.
    + unfold standards_findings, Standards.scan_change, get_method.
      rewrite Hc. cbn [fst]. apply check_lines_in. right. by exists j, line.
Qed.

Lemma standards_scan_violations self changes v :
  In v (Standards.scan self changes) ->
  exists filename n t msg fx, v = Standards._create_violation filename n t msg fx.
Proof.
  intros (_ & d & content & j & line & _ & _ & _ & Hv)%standards_scan_in.
  apply check_line_new in Hv as [[]|(t & msg & fx & ->)]. eauto 8.
Qed.

Lemma violation_severity filename n t msg fx :
  severity_of (Standards._create_violation filename n t msg fx) = Some "MEDIUM".
Proof.
  unfold severity_of, Standards._create_violation.
  by rewrite !lookup_insert_ne, lookup_insert_eq by done.
Qed.

Lemma filter_none {A} (f : A -> bool) (l : list A) :
  Forall (fun x => f x = false) l -> List.filter f l = [].
Proof. induction 1 as [|x l Hx _ IH]; simpl; [done|]. by rewrite Hx. Qed.

Lemma existsb_none {A} (f : A -> bool) (l : list A) :
  Forall (fun x => f x = false) l -> existsb f l = false.
Proof. induction 1 as [|x l Hx _ IH]; simpl; [done|]. by rewrite Hx. Qed.

(** X9: the standards check and the policy.  Every finding of the standards
    check is MEDIUM.  So under WARNING the policy reports none of them, and
    under BLOCKING it reports them all and never blocks on them. *)
Theorem standards_findings_never_block (self : Standards.checker)
    (changes : list value) :
  Policy.apply_policy (engine_of WARNING) (VList (Standards.scan self changes))
  = Ok (Policy.Decision true false [])
  /\ Policy.apply_policy (engine_of BLOCKING) (VList (Standards.scan self changes))
     = Ok (Policy.Decision true false (Standards.scan self changes)).
Proof.
  assert (Forall (fun v => severity_of v = Some "MEDIUM")
                 (Standards.scan self changes)) as Hmed.
  { apply List.Forall_forall. intros v Hv.
    apply standards_scan_violations in Hv as (fn & n & t & msg & fx & ->).
    apply violation_severity. }
  assert (Forall (fun v => carries_severity v = true)
                 (Standards.scan self changes)) as Hwf.
  { eapply Forall_impl; [exact Hmed|]. simpl. intros v Hv.
    unfold carries_severity. by rewrite Hv. }
  rewrite !apply_policy_decision by done. split.
  - rewrite filter_none; [done|]. eapply Forall_impl; [exact Hmed|].
    simpl. intros v Hv. unfold has_severity. by rewrite Hv.
  - rewrite existsb_none; [done|]. eapply Forall_impl; [exact Hmed|].
    simpl. intros v Hv. unfold has_severity. by rewrite Hv.
Qed.


Lemma violation_type filename n t msg fx :
  str_field "type" (Standards._create_violation filename n t msg fx) = Some t.
Proof.
  unfold str_field, Standards._create_violation.
  by rewrite !lookup_insert_ne, lookup_insert_eq by done.
Qed.






Lemma check_line_class filename lines idx line :
  is_Some (re_match Standards.class_lower_re line) ->
  In (class_naming_finding filename (idx + 1))
     (Standards.check_line filename lines idx line []).
Proof.
  intros [m Hm]. unfold Standards.check_line. rewrite Hm. cbn [Standards.matched].
  case_ifs; rewrite ?in_app_iff; cbn [In]; unfold class_naming_finding; tauto.
Qed.

Lemma check_line_except filename lines idx line :
  is_Some (re_search Standards.bare_except_re line) ->
  In (bare_except_finding filename (idx + 1))
     (Standards.check_line filename lines idx line []).
Proof.
  intros [m Hm]. unfold Standards.check_line. rewrite Hm. cbn [Standards.matched].
  case_ifs; rewrite ?in_app_iff; cbn [In]; unfold bare_except_finding; tauto.
Qed.

Lemma class_shape_matches indent sp c rest :
  all_chars is_space indent = true ->
  sp <> "" -> all_chars is_space sp = true -> is_lower c = true ->
  is_Some (re_match Standards.class_lower_re
             (indent +:+ "class" +:+ sp +:+ String c rest)).
Proof.
  intros Hi Hne Hsp Hc. destruct sp as [|a sp]; [done|]. simpl in Hsp.
  apply andb_true_iff in Hsp as [Ha Hsp].
  destruct (run_star_app is_space indent
              ("class" +:+ String a sp +:+ String c rest) None [] Hi) as [o1 R1].
  destruct (run_star_app is_space sp (String c rest) (Some a) [] Hsp) as [o2 R2].
  unfold re_match, match_at.
  eapply (exec_complete Standards.class_lower_re _ _ (Cursor (Some c) rest) []);
    [|reflexivity|done].
  unfold Standards.class_lower_re, seqs. cbn [fold_right].
  eapply run_seq; [by apply run_bol|].
  eapply run_seq; [exact R1|].
  eapply run_seq; [apply run_lit_app|].
  eapply run_seq.
  { eapply run_seq; [by apply run_cls | exact R2]. }
  eapply run_seq; [by apply run_cls | constructor].
Qed.

Lemma except_shape_matches pre ws post :
  all_chars is_space ws = true ->
  is_Some (re_search Standards.bare_except_re
             (pre +:+ "except" +:+ ws +:+ ":" +:+ post)).
Proof.
  intros Hws. unfold re_search. apply search_from_app. intros o.
  destruct (run_star_app is_space ws (":" +:+ post) (last_of o "except") [] Hws)
    as [o1 R1].
  unfold match_at.
  eapply (exec_complete Standards.bare_except_re _ _ (Cursor (last_of o1 ":") post) []);
    [|reflexivity|done].
  unfold Standards.bare_except_re, seqs. cbn [fold_right].
  eapply run_seq; [apply run_lit_app|].
  eapply run_seq; [exact R1|].
  eapply run_seq; [apply run_lit_app | constructor].
Qed.

(** X11: class names and bare handlers.  When the checker is enabled, a line of
    a scanned content that declares a class whose name begins with a
    lower-case letter gets the class naming finding, and a line that holds
    the word except, optional blanks and a colon, wherever on the line,
    gets the bare-except finding. *)
Theorem class_and_except_flagged (self : Standards.checker)
    (changes : list value) (d : gmap string value) (content : string)
    (i : nat) (line : string) :
  truthy (Standards.enabled self) = true ->
  In (VDict d) changes ->
  d !! "content" = Some (VStr content) ->
  split_lines content !! i = Some line ->
  ((exists indent sp c rest,
      line = indent +:+ "class" +:+ sp +:+ String c rest
      /\ all_chars is_space indent = true
      /\ sp <> "" /\ all_chars is_space sp = true /\ is_lower c = true) ->
   In (class_naming_finding (default (VStr "") (d !! "file")) (i + 1))
      (Standards.scan self changes))
  /\ ((exists pre ws post,
         line = pre +:+ "except" +:+ ws +:+ ":" +:+ post
         /\ all_chars is_space ws = true) ->
      In (bare_except_finding (default (VStr "") (d !! "file")) (i + 1))
         (Standards.scan self changes)).
Proof.
  intros He Hin Hc Hi. split.
  - intros (indent & sp & c & rest & -> & ? & ? & ? & ?).
    apply standards_scan_in. split; [done|]. eexists d, content, i, _.
    split_and!; try done. by apply check_line_class, class_shape_matches.
  - intros (pre & ws & post & -> & ?).
    apply standards_scan_in. split; [done|]. eexists d, content, i, _.
    split_and!; try done. by apply check_line_except, except_shape_matches.
Qed.

Lemma class_and_except_flagged_witness :
  In (class_naming_finding (default (VStr "") (standards_dict !! "file")) (4 + 1))
     (Standards.scan (Standards.Checker (VBool true)) [VDict standards_dict])
  /\ In (bare_except_finding (default (VStr "") (standards_dict !! "file")) (5 + 1))
       (Standards.scan (Standards.Checker (VBool true)) [VDict standards_dict]).
Proof.
  split.
  - apply (proj1 (class_and_except_flagged (Standards.Checker (VBool true))
                    [VDict standards_dict] standards_dict standards_content 4
                    "class worker:" eq_refl (or_introl eq_refl) eq_refl eq_refl)).
    exists "", " ", "w"%char, "orker:". by split_and!.
  - apply (proj2 (class_and_except_flagged (Standards.Checker (VBool true))
                    [VDict standards_dict] standards_dict standards_content 5
                    "    except :" eq_refl (or_introl eq_refl) eq_refl eq_refl)).
    exists "    ", " ", "". by split_and!.
Defined.

(** X12: the checker is opt-in.  If construction from a configuration dict
    succeeds and a scan reports anything at all, then the configuration
    holds a dict under rules, that a dict under standards, and that a
    truthy value under enabled. *)
Theorem standards_is_opt_in (config : gmap string value)
    (self : Standards.checker) (changes : list value) :
  Standards.init (VDict config) = Ok self ->
  Standards.scan self changes <> [] ->
  exists rules standards enabled,
    config !! "rules" = Some (VDict rules)
    /\ rules !! "standards" = Some (VDict standards)
    /\ standards !! "enabled" = Some enabled
    /\ truthy enabled = true.
Proof.
  unfold Standards.init, Standards.scan. cbn [get_method]. rewrite bind_ok.
  destruct (config !! "rules") as [r|] eqn:Er; cbn [default from_option id].
  2: { cbn [get_method]. rewrite !bind_ok, lookup_empty.
       cbn [default from_option id get_method]. rewrite bind_ok, lookup_empty.
       intros [= <-]. by cbn. }
  destruct r as [| | | | |rules]; try done. cbn [get_method]. rewrite bind_ok.
  destruct (rules !! "standards") as [s|] eqn:Es; cbn [default from_option id].
  2: { cbn [get_method]. rewrite bind_ok, lookup_empty. intros [= <-]. by cbn. }
  destruct s as [| | | | |standards]; try done. cbn [get_method]. rewrite bind_ok.
  destruct (standards !! "enabled") as [e|] eqn:Ee; cbn [default from_option id].
  2: { intros [= <-]. by cbn. }
  intros [= <-]. cbn [Standards.enabled].
  destruct (truthy e) eqn:Ht; [|by cbn]. intros _. eauto 8.
Qed.

Lemma standards_is_opt_in_witness :
  exists rules standards enabled,
    enabled_config !! "rules" = Some (VDict rules)
    /\ rules !! "standards" = Some (VDict standards)
    /\ standards !! "enabled" = Some enabled
    /\ truthy enabled = true.
Proof.
  apply (standards_is_opt_in enabled_config (Standards.Checker (VBool true))
           [VDict standards_dict]).
  - reflexivity.
  - vm_compute. discriminate.
Defined.

End StandardsMore.

(** ** The license rule set, continued *)

Section LicenseMore.
Import Re Spec More.

(** What one line adds to the issues, and what it does to the flag. *)
Lemma license_scan_line_in file p n line issues hc v :
  In v (fst (License.scan_line file p n line (issues, hc)))
  <-> In v issues
      \/ exists m,
           re_search License.restricted_re line = Some m
           /\ (v = License.restricted_issue file n m
               \/ (v = License.conflict_issue file n
                   /\ License.is_gpl (group m 1) && truthy p = true)).
Proof.
  unfold License.scan_line. cbn [fst].
  destruct (re_search License.restricted_re line) as [m|].
  - destruct (License.is_gpl (group m 1) && truthy p) eqn:Ec;
      rewrite ?in_app_iff; cbn [In]; split.
    + intros [[?|[<-|[]]]|[<-|[]]]; eauto 8.
    + intros [?|(m' & [= <-] & [->|[-> _]])]; eauto 8.
    + intros [?|[<-|[]]]; eauto 8.
    + intros [?|(m' & [= <-] & [->|[-> ?]])]; eauto 8. congruence.
  - split; [by left|]. by intros [?|(m & ? & _)].
Qed.

Lemma license_scan_line_flag file p n line issues hc :
  snd (License.scan_line file p n line (issues, hc))
  = hc || bool_decide (is_Some (re_search License.copyright_re line)).
Proof.
  unfold License.scan_line. cbn [snd].
  destruct (re_search License.copyright_re line) as [m|].
  - rewrite bool_decide_eq_true_2 by eauto. by rewrite orb_true_r.
  - rewrite bool_decide_eq_false_2 by (by intros [? ?]). by rewrite orb_false_r.
Qed.

Lemma license_scan_lines_in file p n lines issues hc v :
  In v (fst (License.scan_lines file p n lines (issues, hc)))
  <-> In v issues
      \/ exists i line m,
           lines !! i = Some line
           /\ re_search License.restricted_re line = Some m
           /\ (v = License.restricted_issue file (n + i) m
               \/ (v = License.conflict_issue file (n + i)
                   /\ License.is_gpl (group m 1) && truthy p = true)).
Proof.
  revert n issues hc. induction lines as [|l ls IH]; intros n issues hc.
  { simpl. split; [by left | by intros [?|(i & ? & ? & ? & _)]]. }
  cbn [License.scan_lines].
  destruct (License.scan_line file p n l (issues, hc)) as [issues1 hc1] eqn:E.
  rewrite IH. assert (issues1 = fst (License.scan_line file p n l (issues, hc)))
    as -> by (by rewrite E).
  rewrite license_scan_line_in. split.
  - intros [[?|(m & ? & H)]|(i & line & m & ? & ? & H)].
    + by left.
    + right. exists 0%nat, l, m. by rewrite Nat.add_0_r.
    + right. exists (S i), line, m.
      by replace (n + S i)%nat with (S n + i)%nat by lia.
  - intros [?|(i & line & m & Hi & ? & H)]; [by eauto|].
    destruct i as [|i]; simpl in Hi.
    + injection Hi as ->. left. right. exists m. by rewrite Nat.add_0_r in H.
    + right. exists i, line, m.
      by replace (S n + i)%nat with (n + S i)%nat by lia.
Qed.

Lemma license_scan_lines_flag file p n lines issues hc :
  snd (License.scan_lines file p n lines (issues, hc))
  = hc || existsb (fun l => bool_decide (is_Some (re_search License.copyright_re l)))
            lines.
Proof.
  revert n issues hc. induction lines as [|l ls IH]; intros n issues hc.
  { simpl. by rewrite orb_false_r. }
  cbn [License.scan_lines existsb].
  destruct (License.scan_line file p n l (issues, hc)) as [issues1 hc1] eqn:E.
  rewrite IH. assert (hc1 = snd (License.scan_line file p n l (issues, hc)))
    as -> by (by rewrite E).
  by rewrite license_scan_line_flag, orb_assoc.
Qed.

(** The findings of one file. *)
Lemma license_scan_file_in api p file issues v :
  In v (License.scan_file api p file issues)
  <-> In v issues
      \/ exists content,
           License.get_file_content api file = Ok content
           /\ ((exists i line m,
                  split_lines content !! i = Some line
                  /\ re_search License.restricted_re line = Some m
                  /\ (v = License.restricted_issue file (i + 1) m
                      \/ (v = License.conflict_issue file (i + 1)
                          /\ License.is_gpl (group m 1) && truthy p = true)))
               \/ (v = License.missing_copyright_issue file
                   /\ Forall (fun l => re_search License.copyright_re l = None)
                        (split_lines content))).
Proof.
  unfold License.scan_file.
  destruct (License.get_file_content api file) as [content|e].
  2: { split; [by left | by intros [?|(c & ? & _)]]. }
  pose proof (license_scan_lines_in file p 1 (split_lines content) issues false v)
    as Hin.
  pose proof (license_scan_lines_flag file p 1 (split_lines content) issues false)
    as Hflag.
  destruct (License.scan_lines file p 1 (split_lines content) (issues, false))
    as [issues' hc]. cbn [fst snd] in *. cbn [orb] in Hflag.
  assert (hc = false
          <-> Forall (fun l => re_search License.copyright_re l = None)
                (split_lines content)) as Hnone.
  { rewrite Hflag. clear. induction (split_lines content) as [|l ls IH]; simpl.
    - split; [constructor | done].
    - rewrite orb_false_iff, IH, bool_decide_eq_false. split.
      + intros [Hl ?]. constructor; [|done].
        destruct (re_search License.copyright_re l); [|done]. destruct Hl. eauto.
      + intros H. inversion H as [|? ? Hl ?]; subst. split; [|done].
        rewrite Hl. by intros [? ?]. }
  assert (forall i, (1 + i)%nat = (i + 1)%nat) as Hcomm by (intros; lia).
  destruct hc; cbn [negb].
  - rewrite Hin. split.
    + intros [?|(i & line & m & ? & ? & H)]; [by left|].
      right. exists content. split; [done|]. left. exists i, line, m.
      by rewrite <- Hcomm.
    + intros [?|(c & [= <-] & [(i & line & m & ? & ? & H)|[_ H]])]; [by left| |].
      * right. exists i, line, m. by rewrite Hcomm.
      * apply Hnone in H. done.
  - rewrite in_app_iff, Hin. cbn [In]. split.
    + intros [[?|(i & line & m & ? & ? & H)]|[<-|[]]]; [by left| |].
      * right. exists content. split; [done|]. left. exists i, line, m.
        by rewrite <- Hcomm.
      * right. exists content. split; [done|]. right. split; [done|].
        by apply Hnone.
    + intros [?|(c & [= <-] & [(i & line & m & ? & ? & H)|[-> _]])]; [by eauto| |].
      * left. right. exists i, line, m. by rewrite Hcomm.
      * right. by left.
Qed.

Lemma license_fold_in api p files issues v :
  In v (fold_left (fun issues file => License.scan_file api p file issues)
          files issues)
  <-> In v issues
      \/ exists file, In file files /\ In v (License.scan_file api p file []).
Proof.
  revert issues. induction files as [|f fs IH]; intros issues; simpl.
  { split; [by left | by intros [?|(? & [] & _)]]. }
  rewrite IH, license_scan_file_in. split.
  - intros [[Hi|Hf]|(file & Hfile & Hv)]; [by left| |by eauto].
    right. exists f. split; [by left|]. apply license_scan_file_in. by right.
  - intros [Hi|(file & [->|Hfile] & Hv)]; [by eauto| |by eauto].
    apply license_scan_file_in in Hv as [[]|Hv']. left. by right.
Qed.

(** All the findings of the license scan, and only those. *)
Lemma license_scan_in api on files v :
  get_method (License.config api) "license_check_enabled" (VBool false) = Ok on ->
  truthy on = true ->
  License.get_files api = Ok files ->
  exists issues,
    License.scan api = Ok issues
    /\ (In v issues
        <-> exists file content,
              In file files
              /\ License.get_file_content api file = Ok content
              /\ ((exists i line m,
                     split_lines content !! i = Some line
                     /\ re_search License.restricted_re line = Some m
                     /\ (v = License.restricted_issue file (i + 1) m
                         \/ (v = License.conflict_issue file (i + 1)
                             /\ License.is_gpl (group m 1)
                                && truthy (proprietary_flag api) = true)))
                  \/ (v = License.missing_copyright_issue file
                      /\ Forall (fun l => re_search License.copyright_re l = None)
                           (split_lines content)))).
Proof.
  intros Hon Ht Hfiles. eexists. split.
  { unfold License.scan. rewrite Hon, bind_ok, Ht, Hfiles. cbn [negb]. reflexivity. }
  fold (proprietary_flag api). rewrite license_fold_in. split.
  - intros [[]|(file & Hin & H)].
    apply license_scan_file_in in H as [[]|(content & Hc & H')].
    by exists file, content.
  - intros (file & content & Hin & Hc & H). right. exists file.
    split; [done|]. apply license_scan_file_in. right. by exists content.
Qed.

Lemma mk_issue_type file n sev t msg fx :
  str_field "type" (License.mk_issue file n sev t msg fx) = Some t.
Proof.
  unfold str_field, License.mk_issue.
  by rewrite !lookup_insert_ne, lookup_insert_eq by done.
Qed.

Lemma mk_issue_file file n sev t msg fx :
  str_field "file" (License.mk_issue file n sev t msg fx) = Some file.
Proof. unfold str_field, License.mk_issue. by rewrite lookup_insert_eq. Qed.

(** X13: the findings of the license scan.  With the check enabled and the
    list of files at hand, a value is among the findings exactly when it
    comes from a listed file whose content could be fetched, and is either
    the restricted-license finding of a line the licence pattern matches,
    or the conflict finding of such a line whose match is plain GPL while
    the project is flagged proprietary, or the missing-copyright finding of
    a file none of whose lines the copyright pattern matches.  Files whose
    content cannot be fetched add nothing. *)
Theorem license_scan_findings (api : License.github_api) (on : value)
    (files : list string) (v : value) :
  get_method (License.config api) "license_check_enabled" (VBool false) = Ok on ->
  truthy on = true ->
  License.get_files api = Ok files ->
  exists issues,
    License.scan api = Ok issues
    /\ (In v issues
        <-> exists file content,
              In file files
              /\ License.get_file_content api file = Ok content
              /\ ((exists i line m,
                     split_lines content !! i = Some line
                     /\ re_search License.restricted_re line = Some m
                     /\ (v = License.restricted_issue file (i + 1) m
                         \/ (v = License.conflict_issue file (i + 1)
                             /\ License.is_gpl (group m 1)
                                && truthy (proprietary_flag api) = true)))
                  \/ (v = License.missing_copyright_issue file
                      /\ Forall (fun l => re_search License.copyright_re l = None)
                           (split_lines content)))).
Proof. apply license_scan_in. Qed.

Lemma license_scan_findings_witness :
  exists issues,
    License.scan (proprietary_project "Released under GPL-3.0") = Ok issues
    /\ (In (License.conflict_issue "LICENSE" 1) issues
        <-> exists file content,
              In file ["LICENSE"]
              /\ License.get_file_content
                   (proprietary_project "Released under GPL-3.0") file = Ok content
              /\ ((exists i line m,
                     split_lines content !! i = Some line
                     /\ re_search License.restricted_re line = Some m
                     /\ (License.conflict_issue "LICENSE" 1
                         = License.restricted_issue file (i + 1) m
                         \/ (License.conflict_issue "LICENSE" 1
                             = License.conflict_issue file (i + 1)
                             /\ License.is_gpl (group m 1)
                                && truthy (proprietary_flag
                                             (proprietary_project "Released under GPL-3.0"))
                                = true)))
                  \/ (License.conflict_issue "LICENSE" 1
                      = License.missing_copyright_issue file
                      /\ Forall (fun l => re_search License.copyright_re l = None)
                           (split_lines content)))).
Proof.
  apply (license_scan_findings (proprietary_project "Released under GPL-3.0")
           (VBool true) ["LICENSE"] (License.conflict_issue "LICENSE" 1));
    reflexivity.
Defined.

Lemma is_gpl_true o : License.is_gpl o = true -> o = Some "GPL".
Proof.
  destruct o as [t|]; [|done]. simpl. by intros ->%String.eqb_eq.
Qed.

(** X14: conflicts come from plain GPL in proprietary projects only.  Every
    finding of type license_conflict that the scan returns is the conflict
    finding of a line of a listed, readable file on which the pattern's
    first group is exactly GPL, and the project is then flagged
    proprietary; an AGPL or LGPL match never yields one. *)
Theorem conflict_only_for_gpl (api : License.github_api) (on : value)
    (files : list string) (issues : list value) (v : value) :
  get_method (License.config api) "license_check_enabled" (VBool false) = Ok on ->
  truthy on = true ->
  License.get_files api = Ok files ->
  License.scan api = Ok issues ->
  In v issues ->
  str_field "type" v = Some "license_conflict" ->
  truthy (proprietary_flag api) = true
  /\ exists file content i line m,
       In file files
       /\ License.get_file_content api file = Ok content
       /\ split_lines content !! i = Some line
       /\ re_search License.restricted_re line = Some m
       /\ group m 1 = Some "GPL"
       /\ v = License.conflict_issue file (i + 1).
Proof.
  intros Hon Ht Hfiles Hscan Hv Htype.
  destruct (license_scan_in api on files v Hon Ht Hfiles) as (issues' & Hs & Hin).
  rewrite Hscan in Hs. injection Hs as <-.
  apply Hin in Hv as (file & content & Hfile & Hc & [(i & line & m & Hi & Hm & H)|[-> _]]).
  - destruct H as [-> | [-> Hcond]].
    + unfold License.restricted_issue in Htype. by rewrite mk_issue_type in Htype.
    + apply andb_true_iff in Hcond as [Hg Hp]. split; [done|].
      exists file, content, i, line, m. split_and!; try done. by apply is_gpl_true.
  - unfold License.missing_copyright_issue in Htype.
    by rewrite mk_issue_type in Htype.
Qed.

Lemma conflict_only_for_gpl_witness :
  truthy (proprietary_flag (proprietary_project "Released under GPL-3.0")) = true
  /\ exists file content i line m,
       In file ["LICENSE"]
       /\ License.get_file_content (proprietary_project "Released under GPL-3.0") file
          = Ok content
       /\ split_lines content !! i = Some line
       /\ re_search License.restricted_re line = Some m
       /\ group m 1 = Some "GPL"
       /\ License.conflict_issue "LICENSE" 1 = License.conflict_issue file (i + 1).
Proof.
  eapply (conflict_only_for_gpl (proprietary_project "Released under GPL-3.0")
            (VBool true) ["LICENSE"] _ (License.conflict_issue "LICENSE" 1)).
  - reflexivity.
  - reflexivity.
  - reflexivity.
  - vm_compute. reflexivity.
  - right. left. reflexivity.
  - reflexivity.
Defined.

Lemma search_from_suffix r o s m :
  search_from r o s = Some m ->
  exists pre o' s', s = pre +:+ s' /\ match_at r (Cursor o' s') = Some m.
Proof.
  revert o. induction s as [|a s IH]; intros o; rewrite search_from_unfold.
  - destruct (match_at r (Cursor o "")) eqn:E; [|done]. intros [= <-].
    by exists "", o, "".
  - destruct (match_at r (Cursor o (String a s))) eqn:E.
    + intros [= <-]. by exists "", o, (String a s).
    + intros (pre & o' & s' & -> & Hm)%IH.
      by exists (String a pre), o', s'.
Qed.

Lemma startswith_app p s : startswith (p +:+ s) p = true.
Proof.
  induction p as [|a p IH]; [by destruct s|].
  rewrite str_app_cons. cbn [startswith]. by rewrite Ascii.eqb_refl, IH.
Qed.

Lemma contains_app pre p s : contains (pre +:+ p +:+ s) p = true.
Proof.
  induction pre as [|a pre IH].
  - change ("" +:+ p +:+ s) with (p +:+ s).
    by rewrite contains_unfold, startswith_app.
  - rewrite str_app_cons. by apply contains_tail.
Qed.

(** The copyright pattern finds nothing where the words do not stand. *)
Lemma copyright_search_sound line m :
  re_search License.copyright_re line = Some m ->
  contains line "Copyright (c) " = true.
Proof.
  unfold re_search. intros (pre & o & s & -> & Hm)%search_from_suffix.
  apply match_at_sound in Hm as (c' & g' & Hr & _).
  unfold License.copyright_re, seqs in Hr. cbn [fold_right] in Hr.
  apply run_seq_inv in Hr as (c1 & g1 & H1 & _).
  apply (run_lit "Copyright (c) ") in H1 as [_ E]. simpl in E. subst s.
  apply contains_app.
Qed.

(** And finds the words followed by four digits wherever they stand. *)
Lemma copyright_shape_matches pre d1 d2 d3 d4 post :
  is_digit d1 = true -> is_digit d2 = true ->
  is_digit d3 = true -> is_digit d4 = true ->
  is_Some (re_search License.copyright_re
             (pre +:+ "Copyright (c) "
              +:+ String d1 (String d2 (String d3 (String d4 post))))).
Proof.
  intros H1 H2 H3 H4. unfold re_search. apply search_from_app. intros o.
  unfold match_at.
  eapply (exec_complete License.copyright_re _ _ (Cursor (Some d4) post) []);
    [|reflexivity|done].
  unfold License.copyright_re, seqs. cbn [fold_right].
  eapply run_seq; [apply run_lit_app|].
  repeat (eapply run_seq; [by apply run_cls|]). constructor.
Qed.

(** X15: the copyright rule.  With the check enabled, a listed and readable
    file none of whose lines holds the words of a copyright notice gets the
    missing-copyright finding; a file with a line that holds those words
    followed by four digits gets none. *)
Theorem copyright_rule (api : License.github_api) (on : value)
    (files : list string) (file content : string) :
  get_method (License.config api) "license_check_enabled" (VBool false) = Ok on ->
  truthy on = true ->
  License.get_files api = Ok files ->
  In file files ->
  License.get_file_content api file = Ok content ->
  exists issues,
    License.scan api = Ok issues
    /\ (Forall (fun l => contains l "Copyright (c) " = false) (split_lines content) ->
        In (License.missing_copyright_issue file) issues)
    /\ ((exists pre d1 d2 d3 d4 post,
           In (pre +:+ "Copyright (c) "
               +:+ String d1 (String d2 (String d3 (String d4 post))))
              (split_lines content)
           /\ is_digit d1 = true /\ is_digit d2 = true
           /\ is_digit d3 = true /\ is_digit d4 = true) ->
        ~ In (License.missing_copyright_issue file) issues).
Proof.
  intros Hon Ht Hfiles Hin Hc.
  destruct (license_scan_in api on files (License.missing_copyright_issue file)
              Hon Ht Hfiles) as (issues & Hs & Hiff).
  exists issues. split; [done|]. split.
  - intros Hnone. apply Hiff. exists file, content. split_and!; try done.
    right. split; [done|]. eapply Forall_impl; [exact Hnone|]. simpl.
    intros l Hl. destruct (re_search License.copyright_re l) as [m|] eqn:E; [|done].
    apply copyright_search_sound in E. congruence.
  - intros (pre & d1 & d2 & d3 & d4 & post & Hl & H1 & H2 & H3 & H4) Hv.
    apply Hiff in Hv
      as (file' & content' & _ & Hc' & [(i & line & m & _ & _ & [E|[E _]])|[E Hnone]]).
    + apply (f_equal (str_field "type")) in E.
      unfold License.missing_copyright_issue, License.restricted_issue in E.
      by rewrite !mk_issue_type in E.
    + apply (f_equal (str_field "type")) in E.
      unfold License.missing_copyright_issue, License.conflict_issue in E.
      by rewrite !mk_issue_type in E.
    + apply (f_equal (str_field "file")) in E.
      unfold License.missing_copyright_issue in E. rewrite !mk_issue_file in E.
      injection E as <-. rewrite Hc in Hc'. injection Hc' as <-.
      rewrite List.Forall_forall in Hnone. apply Hnone in Hl.
      destruct (copyright_shape_matches pre d1 d2 d3 d4 post H1 H2 H3 H4) as [m Hm].
      congruence.
Qed.

Lemma copyright_rule_witness :
  exists issues,
    License.scan (proprietary_project "# Copyright (c) 2024 ACME") = Ok issues
    /\ (Forall (fun l => contains l "Copyright (c) " = false)
          (split_lines "# Copyright (c) 2024 ACME") ->
        In (License.missing_copyright_issue "LICENSE") issues)
    /\ ((exists pre d1 d2 d3 d4 post,
           In (pre +:+ "Copyright (c) "
               +:+ String d1 (String d2 (String d3 (String d4 post))))
              (split_lines "# Copyright (c) 2024 ACME")
           /\ is_digit d1 = true /\ is_digit d2 = true
           /\ is_digit d3 = true /\ is_digit d4 = true) ->
        ~ In (License.missing_copyright_issue "LICENSE") issues).
Proof.
  apply (copyright_rule (proprietary_project "# Copyright (c) 2024 ACME")
           (VBool true) ["LICENSE"] "LICENSE" "# Copyright (c) 2024 ACME").
  - reflexivity.
  - reflexivity.
  - reflexivity.
  - left. reflexivity.
  - reflexivity.
Defined.

End LicenseMore.

(** ** The policy engine, continued *)

Section PolicyMore.
Import Policy Spec More.

Lemma filter_app_list {A} (f : A -> bool) (l1 l2 : list A) :
  List.filter f (l1 ++ l2) = (List.filter f l1 ++ List.filter f l2)%list.
Proof. apply List.filter_app. Qed.

(** X16: decisions compose.  For findings that carry a severity, the decision
    on two lists joined is made of the decisions on each: the reported
    findings are joined in order, and the merge is blocked when either
    part blocks it.  So adding findings never unblocks a merge, and adding
    findings that are not CRITICAL never blocks one. *)
Theorem decisions_compose (pm : policy_mode) (fs gs : list value) :
  Forall (fun v => carries_severity v = true) fs ->
  Forall (fun v => carries_severity v = true) gs ->
  exists d1 d2 d,
    apply_policy (engine_of pm) (VList fs) = Ok d1
    /\ apply_policy (engine_of pm) (VList gs) = Ok d2
    /\ apply_policy (engine_of pm) (VList (fs ++ gs)) = Ok d
    /\ filtered_issues d = (filtered_issues d1 ++ filtered_issues d2)%list
    /\ block_merge d = block_merge d1 || block_merge d2.
Proof.
  intros Hf Hg. do 3 eexists.
  rewrite !apply_policy_decision by (try apply Forall_app; done).
  split_and!; try reflexivity; cbn [filtered_issues block_merge].
  - destruct pm; [done | apply List.filter_app | done].
  - destruct pm; [done | done | apply existsb_app].
Qed.

Lemma decisions_compose_witness :
  exists d1 d2 d,
    apply_policy (engine_of BLOCKING) (VList [finding_with "LOW"]) = Ok d1
    /\ apply_policy (engine_of BLOCKING) (VList [finding_with "CRITICAL"]) = Ok d2
    /\ apply_policy (engine_of BLOCKING)
         (VList ([finding_with "LOW"] ++ [finding_with "CRITICAL"])) = Ok d
    /\ filtered_issues d = (filtered_issues d1 ++ filtered_issues d2)%list
    /\ block_merge d = block_merge d1 || block_merge d2.
Proof.
  apply (decisions_compose BLOCKING [finding_with "LOW"] [finding_with "CRITICAL"]);
    repeat constructor.
Defined.

Lemma filter_idem {A} (f : A -> bool) (l : list A) :
  List.filter f (List.filter f l) = List.filter f l.
Proof.
  induction l as [|x l IH]; simpl; [done|].
  destruct (f x) eqn:E; simpl; [|done]. by rewrite E, IH.
Qed.

Lemma filter_Forall {A} (P : A -> Prop) (f : A -> bool) (l : list A) :
  Forall P l -> Forall P (List.filter f l).
Proof.
  induction 1 as [|x l Hx _ IH]; simpl; [constructor|].
  destruct (f x); [by constructor | done].
Qed.

(** X17: filtering twice is filtering once.  The decision on the findings a
    decision reports is that same decision. *)
Theorem apply_policy_idempotent (pm : policy_mode) (fs : list value) :
  Forall (fun v => carries_severity v = true) fs ->
  exists d,
    apply_policy (engine_of pm) (VList fs) = Ok d
    /\ apply_policy (engine_of pm) (VList (filtered_issues d)) = Ok d.
Proof.
  intros Hf. eexists. rewrite apply_policy_decision by done.
  split; [reflexivity|]. cbn [filtered_issues].
  destruct pm.
  - by rewrite apply_policy_decision.
  - rewrite apply_policy_decision by (by apply filter_Forall).
    by rewrite filter_idem.
  - by rewrite apply_policy_decision.
Qed.

Lemma apply_policy_idempotent_witness :
  exists d,
    apply_policy (engine_of WARNING)
      (VList [finding_with "HIGH"; finding_with "LOW"]) = Ok d
    /\ apply_policy (engine_of WARNING) (VList (filtered_issues d)) = Ok d.
Proof.
  apply (apply_policy_idempotent WARNING [finding_with "HIGH"; finding_with "LOW"]).
  repeat constructor.
Defined.

Lemma validated_inv v :
  validated v = true -> exists d s, v = VDict d /\ d !! "severity" = Some s.
Proof.
  unfold validated. destruct v as [| | | | |d]; try done. cbn [is_dict has_key andb].
  intros [s Hs]%bool_decide_eq_true. eauto.
Qed.

Lemma validate_validated idx fs :
  Forall (fun v => validated v = true) fs -> validate idx fs = Ok tt.
Proof.
  intros H. revert idx. induction H as [|v vs Hv _ IH]; intros idx; [done|].
  cbn [validate]. unfold validated in Hv. apply andb_true_iff in Hv as [-> ->].
  apply IH.
Qed.

Lemma validate_app idx good more :
  Forall (fun v => validated v = true) good ->
  validate idx (good ++ more) = validate (idx + length good) more.
Proof.
  intros H. revert idx. induction H as [|v vs Hv _ IH]; intros idx.
  { simpl. by rewrite Nat.add_0_r. }
  cbn [validate app length]. unfold validated in Hv.
  apply andb_true_iff in Hv as [-> ->]. cbn [negb]. rewrite IH. f_equal. lia.
Qed.

(** X18: the first offending item decides.  When the items before it all pass
    the checks, an item that is not a dict makes the evaluation raise the
    TypeError that names its index, and a dict without a severity key the
    ValueError that names its index, whatever follows and whatever the
    mode. *)
Theorem first_offender_is_reported (self : engine) (good : list value)
    (bad : value) (rest : list value) :
  Forall (fun v => validated v = true) good ->
  (is_dict bad = false ->
   apply_policy self (VList (good ++ bad :: rest))
   = Raise (TypeError ("Issue at index " +:+ str_of_nat (length good)
                       +:+ " is not a dictionary")))
  /\ (is_dict bad = true -> has_key bad "severity" = false ->
      apply_policy self (VList (good ++ bad :: rest))
      = Raise (ValueError ("Issue at index " +:+ str_of_nat (length good)
                           +:+ " missing 'severity' key"))).
Proof.
  intros Hgood. unfold apply_policy. rewrite (validate_app 0 good _ Hgood).
  cbn [validate Nat.add]. split.
  - by intros ->.
  - by intros -> ->.
Qed.

Lemma first_offender_is_reported_witness :
  apply_policy (engine_of ADVISORY)
    (VList ([finding_with "LOW"; finding_with "HIGH"] ++ VStr "oops" :: [VNone]))
  = Raise (TypeError ("Issue at index "
                      +:+ str_of_nat (length [finding_with "LOW"; finding_with "HIGH"])
                      +:+ " is not a dictionary")).
Proof.
  apply (proj1 (first_offender_is_reported (engine_of ADVISORY)
                  [finding_with "LOW"; finding_with "HIGH"] (VStr "oops") [VNone]
                  ltac:(repeat constructor))).
  reflexivity.
Defined.

Lemma keep_unhashable fs :
  Forall (fun v => validated v = true) fs ->
  Exists (fun v => unhashable_severity v = true) fs ->
  keep_critical_high fs = Raise (TypeError "unhashable type").
Proof.
  induction 1 as [|v vs Hv _ IH]; intros Hex; [by inversion Hex|].
  apply validated_inv in Hv as (d & s & -> & Hs).
  cbn [keep_critical_high]. unfold getitem. rewrite Hs, bind_ok.
  unfold in_str_set. destruct (hashable s) eqn:Hh.
  - rewrite bind_ok. rewrite IH; [done|].
    inversion Hex as [? ? Hhead|]; subst; [|done].
    unfold unhashable_severity in Hhead. rewrite Hs, Hh in Hhead. done.
  - done.
Qed.

Lemma any_critical_validated fs :
  Forall (fun v => validated v = true) fs -> exists b, any_critical fs = Ok b.
Proof.
  induction 1 as [|v vs Hv _ [b IH]]; [by eexists|].
  apply validated_inv in Hv as (d & s & -> & Hs).
  cbn [any_critical]. unfold getitem. rewrite Hs, bind_ok.
  destruct (eq_str s "CRITICAL"); eauto.
Qed.

(** X19: a severity that cannot be hashed.  The validation loop asks only for
    the severity key.  If the value under it is a list or a dict in some
    finding, WARNING, which looks the severity up in a set, raises a
    TypeError, while ADVISORY and BLOCKING accept the same list and report
    all of it. *)
Theorem unhashable_severity_breaks_warning (fs : list value) :
  Forall (fun v => validated v = true) fs ->
  Exists (fun v => unhashable_severity v = true) fs ->
  apply_policy (engine_of WARNING) (VList fs) = Raise (TypeError "unhashable type")
  /\ apply_policy (engine_of ADVISORY) (VList fs) = Ok (Decision true false fs)
  /\ exists b, apply_policy (engine_of BLOCKING) (VList fs) = Ok (Decision true b fs).
Proof.
  intros Hv Hex. unfold apply_policy. rewrite (validate_validated 0 fs Hv), bind_ok.
  cbn [engine_of mode mode_name eq_str String.eqb Ascii.eqb Bool.eqb andb].
  split_and!.
  - by rewrite keep_unhashable.
  - done.
  - destruct (any_critical_validated fs Hv) as [b Hb]. exists b.
    by rewrite !bind_ok, Hb.
Qed.

Lemma unhashable_severity_breaks_warning_witness :
  apply_policy (engine_of WARNING)
    (VList [finding_with "HIGH"; VDict (<["severity" := VList [VStr "HIGH"]]> ∅)])
  = Raise (TypeError "unhashable type")
  /\ apply_policy (engine_of ADVISORY)
       (VList [finding_with "HIGH"; VDict (<["severity" := VList [VStr "HIGH"]]> ∅)])
     = Ok (Decision true false
             [finding_with "HIGH"; VDict (<["severity" := VList [VStr "HIGH"]]> ∅)])
  /\ exists b,
       apply_policy (engine_of BLOCKING)
         (VList [finding_with "HIGH"; VDict (<["severity" := VList [VStr "HIGH"]]> ∅)])
       = Ok (Decision true b
               [finding_with "HIGH"; VDict (<["severity" := VList [VStr "HIGH"]]> ∅)]).
Proof.
  apply (unhashable_severity_breaks_warning
           [finding_with "HIGH"; VDict (<["severity" := VList [VStr "HIGH"]]> ∅)]).
  - repeat constructor.
  - apply Exists_cons_tl, Exists_cons_hd. reflexivity.
Defined.

Lemma getitem_not_runtime v k e :
  getitem v k = Raise e -> is_runtime_error e = false.
Proof.
  unfold getitem. destruct v as [| | | | |d]; try by intros [= <-].
  destruct (d !! k); [done | by intros [= <-]].
Qed.

Lemma in_str_set_not_runtime v set e :
  in_str_set v set = Raise e -> is_runtime_error e = false.
Proof. unfold in_str_set. destruct (hashable v); [done | by intros [= <-]]. Qed.

Lemma keep_not_runtime fs e :
  keep_critical_high fs = Raise e -> is_runtime_error e = false.
Proof.
  induction fs as [|v vs IH]; [done|]. cbn [keep_critical_high].
  destruct (getitem v "severity") as [s|e1] eqn:E1.
  2: { intros [= <-]. by eapply getitem_not_runtime. }
  rewrite bind_ok. destruct (in_str_set s _) as [k|e2] eqn:E2.
  2: { intros [= <-]. by eapply in_str_set_not_runtime. }
  rewrite bind_ok. destruct (keep_critical_high vs) as [r|e3]; [done|].
  intros [= <-]. by apply IH.
Qed.

Lemma any_critical_not_runtime fs e :
  any_critical fs = Raise e -> is_runtime_error e = false.
Proof.
  induction fs as [|v vs IH]; [done|]. cbn [any_critical].
  destruct (getitem v "severity") as [s|e1] eqn:E1.
  2: { intros [= <-]. by eapply getitem_not_runtime. }
  rewrite bind_ok. destruct (eq_str s "CRITICAL"); [done | apply IH].
Qed.

Lemma validate_not_runtime idx fs e :
  validate idx fs = Raise e -> is_runtime_error e = false.
Proof.
  revert idx. induction fs as [|v vs IH]; intros idx; [done|]. cbn [validate].
  destruct (negb (is_dict v)); [by intros [= <-]|].
  destruct (negb (has_key v "severity")); [by intros [= <-] | apply IH].
Qed.

(** X20: construction guards the mode.  Given anything but a dict (the mode
    string itself, as main.py passes it) construction raises an
    AttributeError; and an engine that construction did return never runs
    into the RuntimeError of an unknown mode, whatever it is asked to
    evaluate. *)
Theorem constructed_engine_knows_its_mode :
  (forall config, is_dict config = false ->
     init config = Raise (AttributeError "object has no attribute 'get'"))
  /\ (forall config self issues e,
        init config = Ok self ->
        apply_policy self issues = Raise e ->
        is_runtime_error e = false).
Proof.
  split.
  - intros config Hd. by destruct config.
  - intros config self issues e Hinit Happ.
    destruct config as [| | | | |d]; try done.
    apply init_engine in Hinit as [pm ->].
    unfold apply_policy in Happ. destruct issues as [| | | |fs|]; try by injection Happ as <-.
    destruct (validate 0 fs) as [[]|e0] eqn:Ev.
    2: { injection Happ as <-. by eapply validate_not_runtime. }
    rewrite bind_ok in Happ.
    destruct pm; cbn [engine_of mode mode_name eq_str String.eqb Ascii.eqb
                      Bool.eqb andb] in Happ.
    + done.
    + destruct (keep_critical_high fs) as [r|e1] eqn:Ek; [done|].
      injection Happ as <-. by eapply keep_not_runtime.
    + rewrite bind_ok in Happ.
      destruct (any_critical fs) as [b|e1] eqn:Ea; [done|].
      injection Happ as <-. by eapply any_critical_not_runtime.
Qed.

Lemma constructed_engine_knows_its_mode_witness :
  init (VStr "BLOCKING") = Raise (AttributeError "object has no attribute 'get'")
  /\ is_runtime_error (TypeError "issues must be a list") = false.
Proof.
  destruct constructed_engine_knows_its_mode as [Hbad Hgood]. split.
  - apply Hbad. reflexivity.
  - apply (Hgood (VDict ∅) (engine_of WARNING) VNone); reflexivity.
Defined.

End PolicyMore.

(** ** The GitHub client and the check of generated code *)

Section ClientFacts.
Import Re Spec More.

Lemma split_slash_once_spec s :
  if has_slash s
  then exists a b, GitHub.split_slash_once s = [a; b]
                   /\ a +:+ "/" +:+ b = s /\ has_slash a = false
  else GitHub.split_slash_once s = [s].
Proof.
  induction s as [|c s IH]; [done|]. simpl.
  destruct (Ascii.eqb_spec c "/") as [->|Hc]; simpl.
  { by exists "", s. }
  destruct (has_slash s).
  - destruct IH as (a & b & -> & <- & Ha). exists (String c a), b.
    split_and!; [done|done|]. simpl. rewrite Ha.
    by apply Ascii.eqb_neq in Hc as ->.
  - by rewrite IH.
Qed.

(** X21: the repository name is split at its first slash.  With a slash in it,
    construction succeeds, the owner is what stands before the first slash
    and holds none, owner and name joined by a slash give the repository
    back, and the token goes into the Authorization header; without a
    slash, construction raises the ValueError on the format. *)
Theorem github_init_splits_repo (token repo : string) :
  (has_slash repo = true ->
   exists c,
     GitHub.init token repo = Ok c
     /\ GitHub.owner c +:+ "/" +:+ GitHub.repo_name c = repo
     /\ has_slash (GitHub.owner c) = false
     /\ GitHub.token c = token
     /\ GitHub.headers c !! "Authorization" = Some (VStr ("token " +:+ token)))
  /\ (has_slash repo = false ->
      GitHub.init token repo
      = Raise (ValueError "Invalid repo format. Expected 'owner/repo'")).
Proof.
  pose proof (split_slash_once_spec repo) as H. unfold GitHub.init. split.
  - intros Hs. rewrite Hs in H. destruct H as (a & b & -> & Hab & Ha).
    eexists. split; [reflexivity|]. cbn [GitHub.owner GitHub.repo_name
      GitHub.token GitHub.headers]. by split_and!.
  - intros Hs. rewrite Hs in H. by rewrite H.
Qed.

Lemma github_init_splits_repo_witness :
  (exists c,
     GitHub.init "t0k" "acme/tools/x" = Ok c
     /\ GitHub.owner c +:+ "/" +:+ GitHub.repo_name c = "acme/tools/x"
     /\ has_slash (GitHub.owner c) = false
     /\ GitHub.token c = "t0k"
     /\ GitHub.headers c !! "Authorization" = Some (VStr ("token " +:+ "t0k")))
  /\ GitHub.init "t0k" "acme"
     = Raise (ValueError "Invalid repo format. Expected 'owner/repo'").
Proof.
  split.
  - apply (proj1 (github_init_splits_repo "t0k" "acme/tools/x")). reflexivity.
  - apply (proj2 (github_init_splits_repo "t0k" "acme")). reflexivity.
Defined.

Lemma sam_any_critical issues :
  Forall (fun v => carries_severity v = true) issues ->
  Sam.any_critical issues = Ok (existsb (has_severity ["CRITICAL"]) issues).
Proof.
  induction 1 as [|v vs Hv _ IH]; [done|].
  apply carries_severity_inv in Hv as (d & s & -> & Hs).
  cbn [Sam.any_critical existsb get_method]. rewrite Hs, bind_ok.
  rewrite (has_severity_dict _ _ _ Hs). cbn [default from_option id eq_str existsb].
  rewrite orb_false_r. destruct (String.eqb s "CRITICAL"); [done | exact IH].
Qed.

Lemma security_findings_carry changes :
  Forall (fun v => carries_severity v = true) (Security.scan changes).
Proof.
  eapply Forall_impl; [apply security_findings_severe|]. simpl. intros v Hv.
  unfold has_severity in Hv. unfold carries_severity. by destruct (severity_of v).
Qed.

Lemma standards_findings_medium self changes :
  Forall (fun v => severity_of v = Some "MEDIUM") (Standards.scan self changes).
Proof.
  apply List.Forall_forall. intros v Hv.
  apply standards_scan_violations in Hv as (fn & n & t & msg & fx & ->).
  apply violation_severity.
Qed.

Lemma critical_rule r :
  In r Security.rules ->
  Security.severity r = "CRITICAL"
  <-> Security.regex r = Security.secret_re \/ Security.regex r = Security.sql_re.
Proof.
  unfold Security.rules. simpl. intros [<-|[<-|[<-|[<-|[]]]]]; simpl.
  - split; [by left | done].
  - split; [by right | done].
  - split; [done|]. intros [H|H]; discriminate H.
  - split; [done|]. intros [H|H]; discriminate H.
Qed.

(** X22: generated code is unsafe exactly when a CRITICAL rule fires.  The
    check of a piece of code returns the findings of the security scan
    followed by those of the standards check, and declares the code unsafe
    exactly when some line of it is matched by the pattern for hardcoded
    secrets or by the pattern for SQL built from strings; findings of the
    other rules never make code unsafe. *)
Theorem check_code_unsafe_iff_critical (code filename : string) :
  exists self is_safe,
    Sam.init = Ok self
    /\ Sam.check_code self code filename
       = Ok (is_safe,
             (Security.scan
                [VDict (<["file" := VStr filename]> (<["content" := VStr code]> ∅))]
              ++ Standards.scan (Sam.standards_checker self)
                   [VDict (<["file" := VStr filename]> (<["content" := VStr code]> ∅))])%list)
    /\ (is_safe = false
        <-> exists line,
              In line (split_lines code)
              /\ (is_Some (re_search Security.secret_re line)
                  \/ is_Some (re_search Security.sql_re line))).
Proof.
  eexists _, _. split; [reflexivity|]. unfold Sam.check_code. cbv zeta.
  set (data := [VDict (<["file" := VStr filename]> (<["content" := VStr code]> ∅))]).
  set (std := Standards.scan _ data).
  assert (Forall (fun v => severity_of v = Some "MEDIUM") std) as Hmed
    by apply standards_findings_medium.
  rewrite sam_any_critical, bind_ok.
  2: { apply Forall_app. split; [apply security_findings_carry|].
       eapply Forall_impl; [exact Hmed|]. simpl. intros v Hv.
       unfold carries_severity. by rewrite Hv. }
  split; [reflexivity|].
  rewrite negb_false_iff, existsb_app, orb_true_iff.
  rewrite (existsb_none _ std).
  2: { eapply Forall_impl; [exact Hmed|]. simpl. intros v Hv.
       unfold has_severity. by rewrite Hv. }
  rewrite existsb_exists. split.
  - intros [(v & Hv & Hsev)|?]; [|done].
    apply security_scan_in in Hv
      as (d & content & fn & i & line & r & Hd & Hc & _ & Hi & Hr & Hm & ->).
    destruct Hd as [Hd|[]]. injection Hd as <-.
    rewrite lookup_insert_ne, lookup_insert_eq in Hc by done. injection Hc as <-.
    exists line. split; [by eapply list_elem_of_In, list_elem_of_lookup_2|].
    unfold has_severity in Hsev. rewrite security_issue_severity in Hsev.
    cbn [existsb] in Hsev. rewrite orb_false_r in Hsev.
    apply String.eqb_eq, (critical_rule r Hr) in Hsev as [<-|<-]; auto.
  - intros (line & Hline & Hm). left.
    apply list_elem_of_In, list_elem_of_lookup_1 in Hline as [i Hi].
    assert (exists r, In r Security.rules /\ Security.severity r = "CRITICAL"
                      /\ is_Some (re_search (Security.regex r) line))
      as (r & Hr & Hsev & Hrm).
    { destruct Hm as [Hm|Hm].
      - eexists. split; [left; reflexivity|]. by split.
      - eexists. split; [right; left; reflexivity|]. by split. }
    exists (Security.issue (VStr filename) (i + 1) r). split.
    + apply security_scan_in.
      exists (<["file" := VStr filename]> (<["content" := VStr code]> ∅)),
        code, (VStr filename), i, line, r.
      split_and!; try done;
        first [ by left
              | by rewrite lookup_insert_ne, lookup_insert_eq
              | by rewrite lookup_insert_eq ].
    + unfold has_severity. rewrite security_issue_severity, Hsev. reflexivity.
Qed.

End ClientFacts.

(** ** The configuration loader *)

Section ConfigFacts.
Import Spec More ConfigLoader.

Lemma defaults_singles : _DEFAULTS = singles default_table.
Proof. reflexivity. Qed.

Lemma deref_insert_eq (h : store) (l : loc) (d : dict) : deref (<[l := d]> h) l = d.
Proof. unfold deref. by rewrite lookup_insert_eq. Qed.

Lemma deref_insert_ne (h : store) (l l' : loc) (d : dict) : l' <> l -> deref (<[l := d]> h) l' = deref h l'.
Proof. intros H. unfold deref. by rewrite lookup_insert_ne. Qed.

Lemma deref_none (h : store) (l : loc) : h !! l = None -> deref h l = ∅.
Proof. unfold deref. by intros ->. Qed.

Lemma deref_key (h : store) (l : loc) k x : deref h l !! k = Some x -> h !! l = Some (deref h l).
Proof.
  unfold deref. destruct (h !! l) as [d|]; [done|].
  simpl. by rewrite lookup_empty.
Qed.

Lemma fresh_none (h : store) : h !! fresh (dom h) = None.
Proof. apply not_elem_of_dom, is_fresh. Qed.

Lemma setdefault_present (d : dict) k x dflt :
  d !! k = Some x -> setdefault d k dflt = d.
Proof. unfold setdefault. by intros ->. Qed.

Lemma setdefault_keeps (d : dict) k dflt k' x :
  d !! k' = Some x -> setdefault d k dflt !! k' = Some x.
Proof.
  intros H. unfold setdefault. destruct (d !! k) eqn:E; [done|].
  rewrite lookup_insert_ne; [done|]. congruence.
Qed.

Lemma setdefault_has (d : dict) k dflt : is_Some (setdefault d k dflt !! k).
Proof.
  unfold setdefault. destruct (d !! k) eqn:E; [by rewrite E|].
  rewrite lookup_insert_eq. eauto.
Qed.

Lemma setdefault_new (d : dict) k dflt k' x :
  setdefault d k dflt !! k' = Some x -> d !! k' = Some x \/ (k' = k /\ x = dflt /\ d !! k = None).
Proof.
  unfold setdefault. destruct (d !! k) eqn:E; [by left|].
  destruct (decide (k' = k)) as [->|Hne].
  - rewrite lookup_insert_eq. intros [= <-]. by right.
  - rewrite lookup_insert_ne by done. by left.
Qed.

(** One default, on the dict at [r]. *)
Lemma step_unfold (h : store) (r : loc) s k d :
  set_default h (HRef r) [s] k d
  = match deref h r !! s with
    | None =>
        let l' := fresh (dom h) in
        let h1 := <[r := <[s := HRef l']> (deref h r)]> (<[l' := ∅]> h) in
        Ok (<[l' := setdefault (deref h1 l') k d]> h1)
    | Some HNone => Ok h
    | Some (HRef l) => Ok (<[l := setdefault (deref h l) k d]> h)
    | Some _ => Raise (AttributeError "object has no attribute 'setdefault'")
    end.
Proof. cbn [set_default]. by destruct (deref h r !! s) as [[]|]. Qed.

Lemma step_stepped h r s k d h' :
  is_Some (h !! r) ->
  set_default h (HRef r) [s] k d = Ok h' -> stepped h r s k d h'.
Proof.
  intros Hr. rewrite step_unfold.
  destruct (deref h r !! s) as [[| | | | |l]|] eqn:Es; try done.
  - intros [= <-]. by constructor.
  - intros [= <-]. by constructor.
  - cbv zeta. intros [= <-].
    pose proof (fresh_none h) as Hl. set (l' := fresh (dom h)) in *.
    assert (l' <> r) as Hne by (intros ->; rewrite Hl in Hr; by destruct Hr).
    rewrite deref_insert_ne, deref_insert_eq by done.
    unfold setdefault at 1. rewrite lookup_empty.
    rewrite (insert_insert_ne _ r l') by done.
    rewrite insert_insert_eq. by constructor.
Qed.

Lemma step_raises h r s k d e :
  set_default h (HRef r) [s] k d = Raise e ->
  exists v msg, deref h r !! s = Some v /\ scalar v = true /\ e = AttributeError msg.
Proof.
  rewrite step_unfold.
  destruct (deref h r !! s) as [[| | | | |l]|] eqn:Es; try done;
    intros [= <-]; eauto.
Qed.

Lemma step_scalar h r s k d v :
  deref h r !! s = Some v -> scalar v = true ->
  exists msg, set_default h (HRef r) [s] k d = Raise (AttributeError msg).
Proof. intros Hv Hs. rewrite step_unfold, Hv. destruct v; try done; eauto. Qed.

(** *** What one default does *)

Lemma stepped_extends h r s k d h' : stepped h r s k d h' -> extends h h'.
Proof.
  destruct 1 as [Hs|l Hs|l' Hs Hl Hne]; intros l0 key x Hx; [done| |].
  - destruct (decide (l0 = l)) as [->|Hn].
    + rewrite deref_insert_eq. by apply setdefault_keeps.
    + by rewrite deref_insert_ne.
  - destruct (decide (l0 = l')) as [->|Hn].
    { rewrite (deref_none _ _ Hl), lookup_empty in Hx. done. }
    rewrite deref_insert_ne by done.
    destruct (decide (l0 = r)) as [->|Hr]; [|by rewrite deref_insert_ne].
    rewrite deref_insert_eq, lookup_insert_ne; [done|]. congruence.
Qed.

Lemma stepped_keeps h r s k d h' l0 :
  stepped h r s k d h' -> is_Some (h !! l0) -> is_Some (h' !! l0).
Proof.
  destruct 1 as [Hs|l Hs|l' Hs Hl Hne]; intros H0; [done| |].
  - destruct (decide (l0 = l)) as [->|Hn];
      [rewrite lookup_insert_eq; eauto | by rewrite lookup_insert_ne].
  - destruct (decide (l0 = l')) as [->|Hn]; [rewrite lookup_insert_eq; eauto|].
    rewrite lookup_insert_ne by done.
    destruct (decide (l0 = r)) as [->|Hr];
      [rewrite lookup_insert_eq; eauto | by rewrite lookup_insert_ne].
Qed.

(** Where a binding of the store comes from, after one default: it was
    there; or it is the new section, under the root; or it is the default,
    in the dict of the section. *)
Lemma stepped_new h r s k d h' l0 key x :
  stepped h r s k d h' ->
  deref h' l0 !! key = Some x ->
  deref h l0 !! key = Some x
  \/ (l0 = r /\ key = s /\ deref h r !! s = None
      /\ exists l', x = HRef l' /\ h !! l' = None /\ is_Some (h' !! l'))
  \/ (key = k /\ x = d /\ deref h' r !! s = Some (HRef l0)).
Proof.
  intros Hst. pose proof (stepped_extends _ _ _ _ _ _ Hst) as Hext.
  destruct Hst as [Hs|l Hs|l' Hs Hl Hne]; [by left| |].
  - destruct (decide (l0 = l)) as [->|Hn]; [|rewrite deref_insert_ne by done; by left].
    rewrite deref_insert_eq. intros [Hold|(-> & -> & _)]%setdefault_new; [by left|].
    right; right. split_and!; [done|done|]. by apply Hext.
  - destruct (decide (l0 = l')) as [->|Hn].
    { rewrite deref_insert_eq. intros Hx. right; right.
      destruct (decide (key = k)) as [->|Hk];
        [rewrite lookup_insert_eq in Hx
        |rewrite lookup_insert_ne, lookup_empty in Hx by done; done].
      injection Hx as <-. split_and!; [done|done|].
      rewrite deref_insert_ne, deref_insert_eq by done. by rewrite lookup_insert_eq. }
    rewrite deref_insert_ne by done.
    destruct (decide (l0 = r)) as [->|Hr]; [|rewrite deref_insert_ne by done; by left].
    rewrite deref_insert_eq.
    destruct (decide (key = s)) as [->|Hk]; [|rewrite lookup_insert_ne by done; by left].
    rewrite lookup_insert_eq. intros [= <-]. right; left.
    split_and!; [done|done|done|]. exists l'. split_and!; [done|done|].
    rewrite lookup_insert_eq. eauto.
Qed.

Lemma stepped_applied h r s k d h' :
  stepped h r s k d h' -> deref h r !! s <> Some HNone ->
  exists l x, deref h' r !! s = Some (HRef l) /\ deref h' l !! k = Some x.
Proof.
  intros Hst. pose proof (stepped_extends _ _ _ _ _ _ Hst) as Hext.
  destruct Hst as [Hs|l Hs|l' Hs Hl Hne]; intros Hn; [done| |].
  - destruct (setdefault_has (deref h l) k d) as [x Hx].
    exists l, x. split; [by apply Hext|]. by rewrite deref_insert_eq.
  - exists l', d. rewrite deref_insert_eq, lookup_insert_eq.
    rewrite deref_insert_ne, deref_insert_eq by done. by rewrite lookup_insert_eq.
Qed.

(** A default that is no reference brings no sharing of sections that
    was not there, when the sections of the root are in the store. *)
Lemma stepped_sharing h r s k d h' :
  stepped h r s k d h' -> (forall l, d <> HRef l) -> allocated h r ->
  allocated h' r
  /\ forall s1 s2 l, s1 <> s2 ->
       deref h' r !! s1 = Some (HRef l) -> deref h' r !! s2 = Some (HRef l) ->
       deref h r !! s1 = Some (HRef l) /\ deref h r !! s2 = Some (HRef l).
Proof.
  intros Hst Hd [Hr Hal]. split.
  - split; [by eapply stepped_keeps|]. intros s0 l Hs0.
    destruct (stepped_new _ _ _ _ _ _ _ _ _ Hst Hs0)
      as [Hold|[(_ & _ & _ & l' & [= ->] & _ & Hl')|(_ & Hx & _)]].
    + eapply stepped_keeps; [done|]. by eapply Hal.
    + done.
    + by destruct (Hd l).
  - intros s1 s2 l Hne H1 H2.
    destruct (stepped_new _ _ _ _ _ _ _ _ _ Hst H1)
      as [O1|[(_ & E1 & _ & l1 & [= <-] & N1 & _)|(_ & X1 & _)]];
      [| |by destruct (Hd l)];
    (destruct (stepped_new _ _ _ _ _ _ _ _ _ Hst H2)
      as [O2|[(_ & E2 & _ & l2 & [= <-] & N2 & _)|(_ & X2 & _)]];
      [| |by destruct (Hd l)]).
    + done.
    + apply Hal in O1 as [? O1]. congruence.
    + apply Hal in O2 as [? O2]. congruence.
    + congruence.
Qed.

(** *** The defaults of a table, one after the other *)

Lemma run_cons s k d table h config :
  apply_defaults_from (singles ((s, k, d) :: table)) h config
  = (h' ← set_default h config [s] k d; apply_defaults_from (singles table) h' config).
Proof. reflexivity. Qed.

Lemma run_cons_inv s k d table h r h' :
  apply_defaults_from (singles ((s, k, d) :: table)) h (HRef r) = Ok h' ->
  is_Some (h !! r) ->
  exists h1, set_default h (HRef r) [s] k d = Ok h1
    /\ stepped h r s k d h1 /\ is_Some (h1 !! r)
    /\ apply_defaults_from (singles table) h1 (HRef r) = Ok h'.
Proof.
  rewrite run_cons. destruct (set_default h (HRef r) [s] k d) as [h1|e] eqn:E; [|done].
  rewrite bind_ok. intros Hrest Hr. exists h1.
  pose proof (step_stepped _ _ _ _ _ _ Hr E) as Hst.
  split_and!; [done|done| |done]. by eapply stepped_keeps.
Qed.

Lemma run_extends table h r h' :
  apply_defaults_from (singles table) h (HRef r) = Ok h' -> is_Some (h !! r) ->
  extends h h'.
Proof.
  revert h. induction table as [|[[s k] d] table IH]; intros h.
  - intros [= <-] _ l key x Hx. exact Hx.
  - intros Hrun Hr. apply run_cons_inv in Hrun as (h1 & _ & Hst & Hr1 & Hrest); [|done].
    intros l key x Hx. eapply IH; [done..|]. by eapply stepped_extends.
Qed.

Lemma run_keeps table h r h' l :
  apply_defaults_from (singles table) h (HRef r) = Ok h' -> is_Some (h !! r) ->
  is_Some (h !! l) -> is_Some (h' !! l).
Proof.
  revert h. induction table as [|[[s k] d] table IH]; intros h.
  - by intros [= <-] _.
  - intros Hrun Hr. apply run_cons_inv in Hrun as (h1 & _ & Hst & Hr1 & Hrest); [|done].
    intros Hl. eapply IH; [done..|]. by eapply stepped_keeps.
Qed.

(** Where a binding comes from, after the defaults of a table: it was
    there; or it is a new section of the table, under the root; or it is a
    default of the table, in the dict of its section. *)
Lemma run_new table h r h' l key x :
  apply_defaults_from (singles table) h (HRef r) = Ok h' -> is_Some (h !! r) ->
  deref h' l !! key = Some x ->
  deref h l !! key = Some x
  \/ (l = r /\ deref h r !! key = None /\ (exists k d, In (key, k, d) table)
      /\ exists l', x = HRef l' /\ h !! l' = None /\ is_Some (h' !! l'))
  \/ (exists s, In (s, key, x) table /\ deref h' r !! s = Some (HRef l)).
Proof.
  revert h. induction table as [|[[s k] d] table IH]; intros h.
  - intros [= <-] _. by left.
  - intros Hrun Hr. apply run_cons_inv in Hrun as (h1 & _ & Hst & Hr1 & Hrest); [|done].
    intros Hx. pose proof (run_extends _ _ _ _ Hrest Hr1) as Hext.
    destruct (IH h1 Hrest Hr1 Hx)
      as [Hold|[(-> & Hn & (k0 & d0 & Hin) & l' & -> & Hl' & Hl'')|(s0 & Hin & Hs0)]].
    + destruct (stepped_new _ _ _ _ _ _ _ _ _ Hst Hold)
        as [Hold'|[(-> & -> & Hn & l' & -> & Hl' & Hl'')|(-> & -> & Hs)]].
      * by left.
      * right; left. split_and!; [done|done|by exists k, d; left|].
        exists l'. split_and!; [done|done|]. by eapply run_keeps.
      * right; right. exists s. split; [by left|]. by apply Hext.
    + right; left. split_and!; [done| |by exists k0, d0; right|].
      * destruct (deref h r !! key) as [y|] eqn:Ey; [|done].
        apply (stepped_extends _ _ _ _ _ _ Hst) in Ey. congruence.
      * exists l'. split_and!; [done| |done].
        destruct (h !! l') as [y|] eqn:Ey; [|done].
        destruct (stepped_keeps _ _ _ _ _ _ l' Hst) as [? ?]; [by rewrite Ey|].
        congruence.
    + right; right. exists s0. split; [by right|done].
Qed.

Lemma run_applied table h r h' s k d :
  apply_defaults_from (singles table) h (HRef r) = Ok h' -> is_Some (h !! r) ->
  In (s, k, d) table ->
  deref h' r !! s = Some HNone
  \/ exists l x, deref h' r !! s = Some (HRef l) /\ deref h' l !! k = Some x.
Proof.
  revert h. induction table as [|[[s0 k0] d0] table IH]; intros h; [by intros _ _ []|].
  intros Hrun Hr. apply run_cons_inv in Hrun as (h1 & _ & Hst & Hr1 & Hrest); [|done].
  intros [[= -> -> ->]|Hin].
  - pose proof (run_extends _ _ _ _ Hrest Hr1) as Hext.
    assert (deref h r !! s = Some HNone \/ deref h r !! s <> Some HNone) as [Hn|Hn]
      by (destruct (deref h r !! s) as [[]|]; first [by left | by right]).
    + left. apply Hext. by eapply stepped_extends.
    + right. destruct (stepped_applied _ _ _ _ _ _ Hst Hn) as (l & x & Hs & Hk).
      exists l, x. split; by apply Hext.
  - by eapply IH.
Qed.

Lemma apart_tail e table : apart (e :: table) -> apart table.
Proof. intros H s k d s' k' d' H1 H2. eapply H; by right. Qed.

Lemma run_success table h r :
  apart table -> is_Some (h !! r) ->
  (forall s k d v, In (s, k, d) table -> deref h r !! s = Some v -> scalar v = false) ->
  exists h', apply_defaults_from (singles table) h (HRef r) = Ok h'.
Proof.
  revert h. induction table as [|[[s k] d] table IH]; intros h Hap Hr Hsec; [by eexists|].
  rewrite run_cons.
  destruct (set_default h (HRef r) [s] k d) as [h1|e] eqn:E.
  - rewrite bind_ok. pose proof (step_stepped _ _ _ _ _ _ Hr E) as Hst.
    apply IH; [by eapply apart_tail|by eapply stepped_keeps|].
    intros s2 k2 d2 v Hin Hv.
    destruct (stepped_new _ _ _ _ _ _ _ _ _ Hst Hv)
      as [Hold|[(_ & _ & _ & l' & -> & _)|(-> & _ & _)]].
    + eapply Hsec; [by right|done].
    + done.
    + exfalso. eapply Hap; [by left|by right|done].
  - apply step_raises in E as (v & msg & Hv & Hsc & _).
    rewrite (Hsec s k d v (or_introl eq_refl) Hv) in Hsc. done.
Qed.

Lemma run_scalar table h r s v :
  deref h r !! s = Some v -> scalar v = true ->
  (exists k d, In (s, k, d) table) -> is_Some (h !! r) ->
  exists msg, apply_defaults_from (singles table) h (HRef r) = Raise (AttributeError msg).
Proof.
  intros Hv Hsc. revert h Hv.
  induction table as [|[[s0 k0] d0] table IH]; intros h Hv (k & d & Hin) Hr; [done|].
  rewrite run_cons.
  destruct (set_default h (HRef r) [s0] k0 d0) as [h1|e] eqn:E.
  - rewrite bind_ok. pose proof (step_stepped _ _ _ _ _ _ Hr E) as Hst.
    destruct (decide (s0 = s)) as [->|Hne].
    { destruct (step_scalar h r s k0 d0 v Hv Hsc) as [msg Hm]. congruence. }
    apply IH; [by eapply stepped_extends| |by eapply stepped_keeps].
    destruct Hin as [[= -> -> ->]|Hin]; [done|eauto].
  - apply step_raises in E as (v' & msg & _ & _ & ->). eauto.
Qed.

Lemma step_same h r s k d x :
  entry h r s k x -> set_default h (HRef r) [s] k d = Ok h.
Proof.
  intros (l & Hs & Hk). rewrite step_unfold, Hs.
  rewrite (setdefault_present _ _ _ _ Hk). by rewrite (insert_id _ _ _ (deref_key _ _ _ _ Hk)).
Qed.

Lemma run_same table h r :
  Forall (fun e => exists x, entry h r e.1.1 e.1.2 x) table ->
  apply_defaults_from (singles table) h (HRef r) = Ok h.
Proof.
  induction 1 as [|[[s k] d] table [x Hx] _ IH]; [done|].
  rewrite run_cons. simpl in Hx. by rewrite (step_same _ _ _ _ _ _ Hx), bind_ok.
Qed.

Lemma run_sharing table h r h' :
  apply_defaults_from (singles table) h (HRef r) = Ok h' ->
  (forall s k d l, In (s, k, d) table -> d <> HRef l) -> allocated h r ->
  allocated h' r
  /\ forall s1 s2 l, s1 <> s2 ->
       deref h' r !! s1 = Some (HRef l) -> deref h' r !! s2 = Some (HRef l) ->
       deref h r !! s1 = Some (HRef l) /\ deref h r !! s2 = Some (HRef l).
Proof.
  revert h. induction table as [|[[s k] d] table IH]; intros h.
  - intros [= <-] _ Hal. by split.
  - intros Hrun Hd Hal. pose proof Hal as [Hr _].
    apply run_cons_inv in Hrun as (h1 & _ & Hst & Hr1 & Hrest); [|done].
    destruct (stepped_sharing _ _ _ _ _ _ Hst) as [Hal1 Hsh1];
      [intros l; by eapply Hd; left|done|].
    destruct (IH h1 Hrest) as [Hal' Hsh']; [intros; eapply Hd; by right|done|].
    split; [done|]. intros s1 s2 l Hne H1 H2.
    destruct (Hsh' s1 s2 l Hne H1 H2) as [H1' H2']. by apply Hsh1.
Qed.

(** *** The two tables *)

Ltac table_cases :=
  unfold default_table, _REQUIRED_FIELDS in *; cbn [In] in *;
  repeat match goal with
         | H : _ \/ _ |- _ => destruct H
         | H : False |- _ => destruct H
         end;
  simplify_eq.

Lemma table_apart : apart default_table.
Proof. intros s k d s' k' d' H1 H2 ->. by table_cases. Qed.

Lemma table_scalar s k d : In (s, k, d) default_table -> scalar d = true.
Proof. intros H. by table_cases. Qed.

Lemma table_not_ref s k d l : In (s, k, d) default_table -> d <> HRef l.
Proof. intros H ->. by apply table_scalar in H. Qed.

Lemma table_fun s k d d' :
  In (s, k, d) default_table -> In (s, k, d') default_table -> d = d'.
Proof. intros H1 H2. by table_cases. Qed.

Lemma table_types s k t s' d :
  In ([s; k], t) _REQUIRED_FIELDS -> In (s', k, d) default_table ->
  has_type t d = true.
Proof. intros H1 H2. by table_cases. Qed.

Lemma table_required s k d :
  In (s, k, d) default_table -> exists t, In ([s; k], t) _REQUIRED_FIELDS.
Proof.
  intros H. unfold default_table in H. cbn [In] in H.
  repeat match goal with
         | H : _ \/ _ |- _ => destruct H
         | H : False |- _ => destruct H
         end; simplify_eq;
    first [ exists TStr; unfold _REQUIRED_FIELDS; cbn [In]; tauto
          | exists TBool; unfold _REQUIRED_FIELDS; cbn [In]; tauto ].
Qed.

(** No key of a required field is a section with defaults, and no section
    of a required field is a key with a default. *)
Lemma required_key_no_section s k t k' d' :
  In ([s; k], t) _REQUIRED_FIELDS -> In (k, k', d') default_table -> False.
Proof. intros H1 H2. by table_cases. Qed.

Lemma required_section_no_key s k t s' d' :
  In ([s; k], t) _REQUIRED_FIELDS -> In (s', s, d') default_table -> False.
Proof. intros H1 H2. by table_cases. Qed.

Lemma required_paths path t :
  In (path, t) _REQUIRED_FIELDS -> exists s k, path = [s; k].
Proof. intros H. table_cases; eauto. Qed.

Lemma github_no_section k d : ~ In ("github", k, d) default_table.
Proof. intros H. by table_cases. Qed.

Lemma github_no_default k t s d :
  In (["github"; k], t) _REQUIRED_FIELDS -> In (s, k, d) default_table -> False.
Proof. intros H1 H2. by table_cases. Qed.

Lemma mode_default s x : In (s, "mode", x) default_table -> x = HStr "ADVISORY".
Proof. intros H. by table_cases. Qed.

(** *** Reading *)

Lemma entry_fun h r s k x y : entry h r s k x -> entry h r s k y -> x = y.
Proof. intros (l & Hs & Hk) (l' & Hs' & Hk'). congruence. Qed.

Lemma unset_not_entry h r s k x : unset h r s k -> entry h r s k x -> False.
Proof. intros [Hn|(l & Hs & Hk)] (l' & Hs' & Hk'); congruence. Qed.

Lemma entry_extends h h' r s k x : extends h h' -> entry h r s k x -> entry h' r s k x.
Proof. intros He (l & Hs & Hk). exists l. split; by apply He. Qed.

Lemma extends_trans h1 h2 h3 : extends h1 h2 -> extends h2 h3 -> extends h1 h3.
Proof. intros H1 H2 l k x Hx. by apply H2, H1. Qed.

Lemma get_entry h r s k rest v :
  _get_nested_value h (HRef r) (s :: k :: rest) = v -> v <> HNone ->
  exists x, entry h r s k x /\ x <> HNone /\ _get_nested_value h x rest = v.
Proof.
  cbn [_get_nested_value]. unfold entry.
  destruct (deref h r !! s) as [[| | | | |l]|]; try congruence.
  destruct (deref h l !! k) as [x|] eqn:Ek; [|congruence].
  intros Hv Hn. exists x. split; [by exists l|].
  destruct x; try (split; [discriminate | exact Hv]). congruence.
Qed.

Lemma entry_get h r s k x rest :
  entry h r s k x -> x <> HNone ->
  _get_nested_value h (HRef r) (s :: k :: rest) = _get_nested_value h x rest.
Proof.
  intros (l & Hs & Hk) Hx. cbn [_get_nested_value]. rewrite Hs, Hk.
  by destruct x.
Qed.

Lemma get_extends h h' node path v :
  extends h h' ->
  _get_nested_value h node path = v -> v <> HNone ->
  _get_nested_value h' node path = v.
Proof.
  intros He. revert node. induction path as [|key rest IH]; intros node; [done|].
  cbn [_get_nested_value]. destruct node as [| | | | |l]; try done.
  destruct (deref h l !! key) as [child|] eqn:Ec; [|congruence].
  rewrite (He _ _ _ Ec). destruct child; try apply IH. congruence.
Qed.

Lemma has_type_not_none t x : has_type t x = true -> x <> HNone.
Proof. by destruct t, x. Qed.

Lemma typed_entry h r s k t :
  typed h (HRef r) -> In ([s; k], t) _REQUIRED_FIELDS ->
  exists x, entry h r s k x /\ has_type t x = true.
Proof.
  unfold typed. rewrite List.Forall_forall. intros Hty Hin.
  specialize (Hty _ Hin). cbn [fst snd] in Hty.
  destruct (get_entry h r s k [] _ eq_refl) as (x & He & Hx & Hg).
  { by apply has_type_not_none in Hty. }
  exists x. split; [done|]. cbn [_get_nested_value] in Hg. by rewrite Hg.
Qed.

(** *** The checks *)

Lemma validate_fields_typed fs h config :
  validate_fields fs h config = Loaded tt
  <-> Forall (fun f => has_type f.2 (_get_nested_value h config f.1) = true) fs.
Proof.
  induction fs as [|[path ty] fs IH]; [by split; [constructor|]|].
  cbn [validate_fields]. rewrite List.Forall_cons_iff. cbn [fst snd].
  destruct (_get_nested_value h config path) as [|b|z|t|l|d] eqn:Eg;
    destruct ty; cbn [has_type negb]; split;
    try done; try (by intros [? ?]); rewrite IH; tauto.
Qed.

Lemma shallow_str x s : shallow x = VStr s -> x = HStr s.
Proof. destruct x; try done. by intros [= ->]. Qed.

Lemma validate_mode_known h config :
  _validate_policy_mode h config = Loaded tt
  <-> exists pm, _get_nested_value h config ["policy"; "mode"] = HStr (mode_name pm).
Proof.
  unfold _validate_policy_mode, in_str_set. cbv zeta.
  pose proof (known_mode (shallow (_get_nested_value h config ["policy"; "mode"]))) as Hk.
  change Policy.valid_modes with _VALID_POLICY_MODES in Hk.
  destruct (hashable _) eqn:Hh.
  - destruct (existsb _ _VALID_POLICY_MODES) eqn:Ek.
    + split; [intros _|done]. destruct (proj1 Hk eq_refl) as [pm Hpm].
      exists pm. by apply shallow_str.
    + split; [done|]. intros [pm Hpm].
      assert (exists pm0, shallow (_get_nested_value h config ["policy"; "mode"])
                          = VStr (mode_name pm0)) as Hex by (exists pm; by rewrite Hpm).
      apply Hk in Hex. congruence.
  - split; [done|]. intros [pm Hpm]. by rewrite Hpm in Hh.
Qed.

Lemma parsed_ref h r :
  deref h r <> ∅ -> parsed h (HRef r) = Loaded (HRef r, h).
Proof.
  intros Hne. unfold parsed. cbn [is_true].
  by destruct (bool_decide_reflect (deref h r = ∅)).
Qed.

Lemma parsed_inv h doc root h0 :
  parsed h doc = Loaded (root, h0) ->
  exists r, root = HRef r /\ is_Some (h0 !! r)
    /\ ((doc = HRef r /\ h0 = h /\ deref h r <> ∅)
        \/ (is_true h doc = false /\ h !! r = None /\ h0 = <[r := ∅]> h)).
Proof.
  unfold parsed. destruct (is_true h doc) eqn:Et.
  - destruct doc as [| | | | |r]; try done. intros [= <- <-]. exists r.
    cbn [is_true] in Et. apply negb_true_iff, bool_decide_eq_false in Et.
    split_and!; [done| |left; by split_and!].
    unfold deref in Et. destruct (h !! r); [eauto|done].
  - intros [= <- <-]. eexists. split_and!; [done| |right; split_and!; [done| |done]].
    + rewrite lookup_insert_eq. eauto.
    + apply fresh_none.
Qed.

Lemma falsy_get h doc s rest :
  is_true h doc = false -> _get_nested_value h doc (s :: rest) = HNone.
Proof.
  intros Hf. cbn [_get_nested_value]. destruct doc as [| | | | |l]; try done.
  cbn [is_true] in Hf. apply negb_false_iff, bool_decide_eq_true in Hf as ->.
  by rewrite lookup_empty.
Qed.

Lemma required_typed h config :
  _validate_required_fields h config = Loaded tt <-> typed h config.
Proof. apply validate_fields_typed. Qed.

Lemma load_inv h doc config h' :
  load_config h doc = Loaded (config, h') <->
  exists h0, parsed h doc = Loaded (config, h0)
    /\ _apply_defaults h0 config = Ok h'
    /\ typed h' config
    /\ exists pm, _get_nested_value h' config ["policy"; "mode"] = HStr (mode_name pm).
Proof.
  unfold load_config. split.
  - destruct (parsed h doc) as [[raw h0]|e] eqn:Ep; [|done]. cbn [mbind outcome_bind].
    destruct (_apply_defaults h0 raw) as [h1|e] eqn:Ea; [|done].
    destruct (_validate_required_fields h1 raw) as [[]|e] eqn:Ev; [|done].
    cbn [mbind outcome_bind].
    destruct (_validate_policy_mode h1 raw) as [[]|e] eqn:Em; [|done].
    cbn [mbind outcome_bind]. intros [= <- <-]. exists h0.
    split; [reflexivity|]. split; [exact Ea|]. split.
    + exact (proj1 (required_typed _ _) Ev).
    + exact (proj1 (validate_mode_known _ _) Em).
  - intros (h0 & -> & Ha & Hv & Hm). cbn [mbind outcome_bind].
    pose proof (proj2 (required_typed _ _) Hv) as Ev.
    pose proof (proj2 (validate_mode_known _ _) Hm) as Em.
    rewrite Ha, Ev. cbn [mbind outcome_bind]. by rewrite Em.
Qed.

(** A loaded configuration, taken apart. *)
Lemma loaded_inv h doc config h' :
  load_config h doc = Loaded (config, h') ->
  exists r h0,
    config = HRef r /\ is_Some (h0 !! r)
    /\ ((doc = HRef r /\ h0 = h /\ deref h r <> ∅)
        \/ (is_true h doc = false /\ h !! r = None /\ h0 = <[r := ∅]> h))
    /\ apply_defaults_from (singles default_table) h0 (HRef r) = Ok h'
    /\ extends h0 h'
    /\ typed h' (HRef r)
    /\ exists pm, _get_nested_value h' (HRef r) ["policy"; "mode"] = HStr (mode_name pm).
Proof.
  intros (h0 & Hp & Ha & Hty & Hm)%load_inv.
  destruct (parsed_inv _ _ _ _ Hp) as (r & -> & Hr & Hd).
  exists r, h0. unfold _apply_defaults in Ha. rewrite defaults_singles in Ha.
  split_and!; try done. by eapply run_extends.
Qed.

Lemma extends_new (h : gmap positive (gmap string hval)) r :
  h !! r = None -> extends h (<[r := ∅]> h).
Proof.
  intros Hr l k x Hx. destruct (decide (l = r)) as [->|Hne].
  - by rewrite (deref_none _ _ Hr), lookup_empty in Hx.
  - by rewrite deref_insert_ne.
Qed.

Lemma required_origin s k t :
  In ([s; k], t) _REQUIRED_FIELDS ->
  s = "github" \/ exists d, In (s, k, d) default_table.
Proof.
  intros H. unfold _REQUIRED_FIELDS in H. cbn [In] in H.
  repeat match goal with
         | H : _ \/ _ |- _ => destruct H
         | H : False |- _ => destruct H
         end; simplify_eq; first [by left | right; eexists; unfold default_table; cbn [In]; tauto].
Qed.

Lemma required_github k t :
  In (["github"; k], t) _REQUIRED_FIELDS -> t = TStr /\ (k = "token" \/ k = "repo").
Proof. intros H. table_cases; split; first [done | by left | by right]. Qed.

Lemma load_minimal :
  load_config minimal_store (HRef 1%positive) = Loaded (HRef 1%positive, minimal_loaded).
Proof. vm_cast_no_check (@eq_refl _ (Loaded (HRef 1%positive, minimal_loaded))). Qed.

Lemma load_aliased :
  load_config aliased_store (HRef 1%positive) = Loaded (HRef 1%positive, aliased_loaded).
Proof. vm_cast_no_check (@eq_refl _ (Loaded (HRef 1%positive, aliased_loaded))). Qed.

Lemma snapshot_str depth h s : snapshot depth h (HStr s) = VStr s.
Proof. by destruct depth. Qed.

(** Where the value of a required field comes from, after the defaults:
    from the document, or from the table. *)
Lemma final_binding h r h' s k t x :
  apply_defaults_from (singles default_table) h (HRef r) = Ok h' ->
  is_Some (h !! r) ->
  In ([s; k], t) _REQUIRED_FIELDS ->
  entry h' r s k x ->
  entry h r s k x \/ exists s0, In (s0, k, x) default_table.
Proof.
  intros Hrun Hr Hin (l & Hs & Hk).
  destruct (run_new _ _ _ _ _ _ _ Hrun Hr Hk)
    as [Hold|[(_ & _ & (k0 & d0 & Hsec) & _)|(s0 & Hs0 & _)]].
  - destruct (run_new _ _ _ _ _ _ _ Hrun Hr Hs)
      as [Hsold|[(_ & _ & _ & l' & [= <-] & Hl' & _)|(s0 & Hs0 & _)]].
    + left. by exists l.
    + by rewrite (deref_none _ _ Hl'), lookup_empty in Hold.
    + destruct (table_not_ref _ _ _ _ Hs0 eq_refl).
  - destruct (required_key_no_section _ _ _ _ _ Hin Hsec).
  - right. eauto.
Qed.

(** After the defaults, a section of the table that was not None holds
    its key. *)
Lemma final_entry h r h' s k d :
  apply_defaults_from (singles default_table) h (HRef r) = Ok h' ->
  is_Some (h !! r) ->
  In (s, k, d) default_table ->
  deref h r !! s <> Some HNone ->
  exists x, entry h' r s k x.
Proof.
  intros Hrun Hr Hin Hn.
  destruct (run_applied _ _ _ _ _ _ _ Hrun Hr Hin) as [Hnone|(l & x & Hs & Hk)];
    [|exists x; by exists l].
  destruct (run_new _ _ _ _ _ _ _ Hrun Hr Hnone)
    as [Hold|[(_ & _ & _ & l' & [=] & _)|(s0 & Hs0 & _)]]; [done|].
  by apply table_scalar in Hs0.
Qed.

Lemma accepted_core h r h' :
  apply_defaults_from (singles default_table) h (HRef r) = Ok h' ->
  is_Some (h !! r) ->
  typed h' (HRef r) ->
  (exists pm, _get_nested_value h' (HRef r) ["policy"; "mode"] = HStr (mode_name pm)) ->
  acceptable h r.
Proof.
  intros Hrun Hr Hty [pm Hm].
  pose proof (run_extends _ _ _ _ Hrun Hr) as Hext.
  assert (forall s k t, In ([s; k], t) _REQUIRED_FIELDS ->
                        unset h r s k \/ given h r s k t) as Horigin.
  { intros s k t Hin.
    destruct (typed_entry _ _ _ _ _ Hty Hin) as (x & (l & Hs' & Hk') & Ht).
    destruct (deref h r !! s) as [v|] eqn:Es; [|by left; left].
    pose proof (Hext _ _ _ Es) as Es'. rewrite Hs' in Es'. injection Es' as <-.
    destruct (deref h l !! k) as [y|] eqn:Ek; [|left; right; eauto].
    right. exists y. split; [by exists l|].
    pose proof (Hext _ _ _ Ek) as Ek'. rewrite Hk' in Ek'. by injection Ek' as <-. }
  assert (forall k, In (["github"; k], TStr) _REQUIRED_FIELDS ->
                    given h r "github" k TStr) as Hgh.
  { intros k Hin. destruct (Horigin _ _ _ Hin) as [Hu|Hg]; [|done]. exfalso.
    destruct (typed_entry _ _ _ _ _ Hty Hin) as (x & Hx & _).
    destruct (final_binding _ _ _ _ _ _ _ Hrun Hr Hin Hx) as [Hold|[s0 Hs0]].
    - by eapply unset_not_entry.
    - by eapply github_no_default. }
  split_and!.
  - apply Hgh. unfold _REQUIRED_FIELDS. cbn [In]. tauto.
  - apply Hgh. unfold _REQUIRED_FIELDS. cbn [In]. tauto.
  - destruct (Horigin "policy" "mode" TStr) as [Hu|(x & Hx & Ht)];
      [unfold _REQUIRED_FIELDS; cbn [In]; tauto|by left|].
    right. exists pm.
    rewrite (entry_get _ _ _ _ _ [] (entry_extends _ _ _ _ _ _ Hext Hx)) in Hm;
      [|by eapply has_type_not_none].
    cbn [_get_nested_value] in Hm. by rewrite <- Hm.
  - intros s k dflt t _ Hin. by apply Horigin.
Qed.

Lemma acceptable_core h r :
  acceptable h r -> is_Some (h !! r) ->
  exists h',
    apply_defaults_from (singles default_table) h (HRef r) = Ok h'
    /\ typed h' (HRef r)
    /\ exists pm, _get_nested_value h' (HRef r) ["policy"; "mode"] = HStr (mode_name pm).
Proof.
  intros (Htok & Hrepo & Hmode & Hrest) Hr.
  assert (forall s k d v, In (s, k, d) default_table ->
                          deref h r !! s = Some v -> exists l, v = HRef l) as Hsec.
  { intros s k d v Hin Hv. destruct (table_required _ _ _ Hin) as [t Ht].
    destruct (Hrest s k d t Hin Ht) as [[Hn|(l & Hs & _)]|(x & (l & Hs & _) & _)];
      [congruence|exists l; congruence|exists l; congruence]. }
  destruct (run_success default_table h r) as [h' Hrun]; [apply table_apart|done| |].
  { intros s k d v Hin Hv. by destruct (Hsec s k d v Hin Hv) as [l ->]. }
  pose proof (run_extends _ _ _ _ Hrun Hr) as Hext.
  assert (forall s k t, In ([s; k], t) _REQUIRED_FIELDS ->
            exists x, entry h' r s k x /\ has_type t x = true
                      /\ (entry h r s k x \/ exists s0, In (s0, k, x) default_table))
    as Hfinal.
  { intros s k t Hin.
    assert (exists x, entry h' r s k x) as [x Hx].
    { destruct (required_origin _ _ _ Hin) as [->|[d Hd]].
      - destruct (required_github _ _ Hin) as [_ [->| ->]].
        + destruct Htok as (x & Hx & _). exists x. by eapply entry_extends.
        + destruct Hrepo as (x & Hx & _). exists x. by eapply entry_extends.
      - eapply final_entry; [done..|]. intros Hn.
        by destruct (Hsec _ _ _ _ Hd Hn). }
    exists x. split; [done|].
    pose proof (final_binding _ _ _ _ _ _ _ Hrun Hr Hin Hx) as Hfrom.
    split; [|done]. destruct Hfrom as [Hold|[s0 Hs0]]; [|by eapply table_types].
    destruct (required_origin _ _ _ Hin) as [->|[d Hd]].
    - destruct (required_github _ _ Hin) as [-> [->| ->]].
      + destruct Htok as (y & Hy & Ht). by rewrite (entry_fun _ _ _ _ _ _ Hold Hy).
      + destruct Hrepo as (y & Hy & Ht). by rewrite (entry_fun _ _ _ _ _ _ Hold Hy).
    - destruct (Hrest s k d t Hd Hin) as [Hu|(y & Hy & Ht)].
      + destruct (unset_not_entry _ _ _ _ _ Hu Hold).
      + by rewrite (entry_fun _ _ _ _ _ _ Hold Hy). }
  exists h'. split; [done|]. split.
  - apply List.Forall_forall. intros [path t] Hin. cbn [fst snd].
    destruct (required_paths _ _ Hin) as (s & k & ->).
    destruct (Hfinal s k t Hin) as (x & Hx & Ht & _).
    rewrite (entry_get _ _ _ _ _ [] Hx); [done|]. by eapply has_type_not_none.
  - destruct (Hfinal "policy" "mode" TStr) as (x & Hx & Ht & Hfrom);
      [unfold _REQUIRED_FIELDS; cbn [In]; tauto|].
    rewrite (entry_get _ _ _ _ _ [] Hx); [|by eapply has_type_not_none].
    cbn [_get_nested_value].
    destruct Hfrom as [Hold|[s0 Hs0]].
    + destruct Hmode as [Hu|[pm Hpm]]; [destruct (unset_not_entry _ _ _ _ _ Hu Hold)|].
      exists pm. by rewrite (entry_fun _ _ _ _ _ _ Hold Hpm).
    + exists ADVISORY. by apply mode_default in Hs0.
Qed.

(** A field of the table that the store leaves unset and whose section
    is shared with no other section that has a default on the same key
    takes its default. *)
Lemma default_taken h r h' s k dflt :
  apply_defaults_from (singles default_table) h (HRef r) = Ok h' ->
  In (s, k, dflt) default_table ->
  unset h r s k ->
  allocated h r ->
  (forall s' d', In (s', k, d') default_table -> s' <> s -> ~ shares h r s s') ->
  entry h' r s k dflt.
Proof.
  intros Hrun Hin Hu Hal Hns. pose proof Hal as [Hr _].
  destruct (final_entry _ _ _ _ _ _ Hrun Hr Hin) as (x & l & Hs & Hk).
  { intros Hn. destruct Hu as [Hu|(l & Hu & _)]; congruence. }
  assert (x = dflt) as ->; [|by exists l].
  destruct (run_new _ _ _ _ _ _ _ Hrun Hr Hk)
    as [Hold|[(_ & _ & (k0 & d0 & Hsec) & _)|(s0 & Hs0 & Hroot0)]].
  - exfalso.
    destruct (run_new _ _ _ _ _ _ _ Hrun Hr Hs)
      as [Hsold|[(_ & _ & _ & l' & [= <-] & Hl' & _)|(s0 & Hs0 & _)]].
    + eapply unset_not_entry; [done|]. by exists l.
    + by rewrite (deref_none _ _ Hl'), lookup_empty in Hold.
    + destruct (table_not_ref _ _ _ _ Hs0 eq_refl).
  - destruct (table_apart _ _ _ _ _ _ Hin Hsec eq_refl).
  - destruct (decide (s0 = s)) as [->|Hne]; [by eapply table_fun|]. exfalso.
    destruct (run_sharing _ _ _ _ Hrun) as [_ Hsh];
      [intros; by eapply table_not_ref|done|].
    destruct (Hsh s s0 l) as [H1 H2]; [done..|].
    eapply (Hns s0 x); [done|done|by exists l].
Qed.

(** A dict of the store that is neither the root nor a section of the
    table stays as it is. *)
Lemma run_frame h r h' l :
  apply_defaults_from (singles default_table) h (HRef r) = Ok h' ->
  is_Some (h !! r) -> is_Some (h !! l) -> l <> r ->
  (forall s k d, In (s, k, d) default_table -> deref h r !! s <> Some (HRef l)) ->
  h' !! l = h !! l.
Proof.
  intros Hrun Hr [dl Hl] Hne Hsec.
  destruct (run_keeps _ _ _ _ l Hrun Hr) as [dl' Hl']; [by rewrite Hl|].
  rewrite Hl, Hl'. f_equal. apply map_eq. intros key.
  pose proof (run_extends _ _ _ _ Hrun Hr l key) as Hext.
  unfold deref in Hext. rewrite Hl, Hl' in Hext. simpl in Hext.
  destruct (dl' !! key) as [x|] eqn:Ex.
  - assert (deref h' l !! key = Some x) as Hk by (unfold deref; by rewrite Hl').
    destruct (run_new _ _ _ _ _ _ _ Hrun Hr Hk)
      as [Hold|[(-> & _)|(s0 & Hs0 & Hroot0)]]; [|done|].
    + unfold deref in Hold. by rewrite Hl in Hold.
    + exfalso.
      destruct (run_new _ _ _ _ _ _ _ Hrun Hr Hroot0)
        as [Hsold|[(_ & _ & _ & l' & [= <-] & Hl0 & _)|(s1 & Hs1 & _)]].
      * by eapply Hsec.
      * congruence.
      * destruct (table_not_ref _ _ _ _ Hs1 eq_refl).
  - destruct (dl !! key) as [y|] eqn:Ey; [|done]. by specialize (Hext y eq_refl).
Qed.

(** X23: a loaded configuration serves the rest of the program.  Every
    setting the service reads by two subscripts is there with the type the
    table of required fields gives it, and the policy section is a dict
    from which the policy engine is built in one of the three modes, the
    one the section names. *)
Theorem loaded_config_drives_policy (h : store) (doc config : hval) (h' : store) :
  load_config h doc = Loaded (config, h') ->
  (forall s k t, In ([s; k], t) _REQUIRED_FIELDS ->
     exists x, setting h' config s k = Ok x /\ has_type t x = true)
  /\ exists policy pm,
       subscript h' config "policy" = Ok (HRef policy)
       /\ deref h' policy !! "mode" = Some (HStr (mode_name pm))
       /\ forall depth,
            Policy.init (snapshot (S depth) h' (HRef policy)) = Ok (engine_of pm).
Proof.
  intros (r & h0 & -> & _ & _ & _ & _ & Hty & pm & Hm)%loaded_inv. split.
  - intros s k t Hin.
    destruct (typed_entry _ _ _ _ _ Hty Hin) as (x & (l & Hs & Hk) & Hx).
    exists x. split; [|done]. unfold setting. cbn [subscript]. rewrite Hs, bind_ok.
    cbn [subscript]. by rewrite Hk.
  - destruct (get_entry h' r "policy" "mode" [] _ Hm) as (x & (l & Hs & Hk) & _ & Hx);
      [done|].
    cbn [_get_nested_value] in Hx. subst x. exists l, pm.
    cbn [subscript]. rewrite Hs. split_and!; [done|done|].
    intros depth. cbn [snapshot]. rewrite init_unfold, lookup_fmap, Hk.
    cbn [fmap option_fmap option_map]. rewrite snapshot_str. by destruct pm.
Qed.

Lemma loaded_config_drives_policy_witness :
  (forall s k t, In ([s; k], t) _REQUIRED_FIELDS ->
     exists x, setting minimal_loaded (HRef 1%positive) s k = Ok x
               /\ has_type t x = true)
  /\ exists policy pm,
       subscript minimal_loaded (HRef 1%positive) "policy" = Ok (HRef policy)
       /\ deref minimal_loaded policy !! "mode" = Some (HStr (mode_name pm))
       /\ forall depth,
            Policy.init (snapshot (S depth) minimal_loaded (HRef policy))
            = Ok (engine_of pm).
Proof.
  apply (loaded_config_drives_policy minimal_store (HRef 1%positive)).
  vm_cast_no_check (@eq_refl _ (Loaded (HRef 1%positive, minimal_loaded))).
Defined.

(** X24: loading is idempotent: a configuration that was loaded, given to
    the loader as a document with the store it was left in, is loaded
    again as it is, and the store stays as it is. *)
Theorem load_config_idempotent (h : store) (doc config : hval) (h' : store) :
  load_config h doc = Loaded (config, h') ->
  load_config h' config = Loaded (config, h').
Proof.
  intros (r & h0 & -> & _ & _ & _ & _ & Hty & Hm)%loaded_inv.
  apply load_inv. exists h'. split_and!; [|  |done|done].
  - apply parsed_ref.
    destruct (typed_entry _ _ "github" "token" TStr Hty) as (x & (l & Hs & _) & _);
      [unfold _REQUIRED_FIELDS; cbn [In]; tauto|].
    intros He. by rewrite He, lookup_empty in Hs.
  - unfold _apply_defaults. rewrite defaults_singles. apply run_same.
    apply List.Forall_forall. intros [[s k] d] Hin. cbn [fst snd].
    destruct (table_required _ _ _ Hin) as (t & Ht).
    destruct (typed_entry _ _ _ _ _ Hty Ht) as (x & Hx & _). eauto.
Qed.

Lemma load_config_idempotent_witness :
  load_config minimal_loaded (HRef 1%positive)
  = Loaded (HRef 1%positive, minimal_loaded).
Proof.
  apply (load_config_idempotent minimal_store (HRef 1%positive)).
  vm_cast_no_check (@eq_refl _ (Loaded (HRef 1%positive, minimal_loaded))).
Defined.

(** X25: a section of the defaults that the document fills with something
    other than a mapping never loads, and not always with a ConfigError.
    With None in its place (a section with an empty body), loading fails;
    with a scalar or a list in its place, an AttributeError leaves
    load_config, whatever else the document holds. *)
Theorem section_must_be_a_mapping (h : store) (r : loc) (s k : string)
    (dflt v : hval) :
  In (s, k, dflt) default_table ->
  deref h r !! s = Some v ->
  (v = HNone -> exists e, load_config h (HRef r) = Failed e)
  /\ (scalar v = true ->
      exists msg, load_config h (HRef r) = Failed (Uncaught (AttributeError msg))).
Proof.
  intros Hin Hv.
  assert (deref h r <> ∅) as Hne by (intros He; by rewrite He, lookup_empty in Hv).
  split.
  - intros ->. destruct (load_config h (HRef r)) as [[config h']|e] eqn:El; [|eauto].
    exfalso.
    apply loaded_inv in El
      as (r' & h0 & -> & _ & [([= <-] & -> & _)|(Hf & _)] & _ & Hext & Hty & _).
    + destruct (table_required _ _ _ Hin) as (t & Ht).
      destruct (typed_entry _ _ _ _ _ Hty Ht) as (x & (l & Hs & _) & _).
      apply Hext in Hv. congruence.
    + cbn [is_true] in Hf. apply negb_false_iff, bool_decide_eq_true in Hf. done.
  - intros Hsc. unfold load_config. rewrite (parsed_ref _ _ Hne).
    cbn [mbind outcome_bind]. unfold _apply_defaults. rewrite defaults_singles.
    destruct (run_scalar default_table h r s v Hv Hsc) as [msg ->];
      [eauto|by rewrite (deref_key _ _ _ _ Hv)|eauto].
Qed.

Lemma section_must_be_a_mapping_witness :
  exists msg, load_config scalar_section_store (HRef 1%positive)
              = Failed (Uncaught (AttributeError msg)).
Proof.
  apply (proj2 (section_must_be_a_mapping scalar_section_store 1%positive
                  "license" "enabled" (HBool true) (HBool true)
                  ltac:(cbn; tauto) eq_refl)).
  reflexivity.
Defined.

(** X26: what the document says is never overwritten.  Loading only adds:
    every dict of the store keeps each of its keys with the value it had,
    a dict among them staying the same object, and so every value other
    than None that the document holds at a path is found at the same path
    of the loaded configuration.  What a dict gains, it gains at every
    place that shares it. *)
Theorem explicit_settings_survive (h : store) (doc config : hval) (h' : store) :
  load_config h doc = Loaded (config, h') ->
  extends h h'
  /\ forall s rest v,
       _get_nested_value h doc (s :: rest) = v -> v <> HNone ->
       _get_nested_value h' config (s :: rest) = v.
Proof.
  intros (r & h0 & -> & _ & [(-> & -> & _)|(Hf & Hr & ->)] & _ & Hext & _)%loaded_inv.
  - split; [done|]. intros s rest v. by apply get_extends.
  - split.
    + eapply extends_trans; [|exact Hext]. by apply extends_new.
    + intros s rest v Hg Hv. rewrite (falsy_get _ _ _ _ Hf) in Hg. congruence.
Qed.

(** The document with the shared mapping: the mapping has gained keys,
    and is still what stands under security and under ai. *)
Lemma explicit_settings_survive_witness :
  extends aliased_store aliased_loaded
  /\ forall s rest v,
       _get_nested_value aliased_store (HRef 1%positive) (s :: rest) = v ->
       v <> HNone ->
       _get_nested_value aliased_loaded (HRef 1%positive) (s :: rest) = v.
Proof.
  apply (explicit_settings_survive aliased_store (HRef 1%positive)).
  vm_cast_no_check (@eq_refl _ (Loaded (HRef 1%positive, aliased_loaded))).
Defined.

(** X27: a field the document leaves unset takes its default, unless its
    section is shared.  When the section is absent, or is a mapping without
    the key, and no other section with a default on the same key is the
    same dict object, the loaded configuration holds the value of the table
    of defaults there. *)
Theorem missing_settings_get_defaults (h : store) (r : loc) (config : hval)
    (h' : store) (s k : string) (dflt : hval) :
  load_config h (HRef r) = Loaded (config, h') ->
  In (s, k, dflt) default_table ->
  unset h r s k ->
  allocated h r ->
  (forall s' d', In (s', k, d') default_table -> s' <> s -> ~ shares h r s s') ->
  _get_nested_value h' config [s; k] = dflt.
Proof.
  intros (r' & h0 & -> & Hr' & Hcase & Hrun & _)%loaded_inv Hin Hu Hal Hns.
  assert (entry h' r' s k dflt) as He.
  { destruct Hcase as [([= <-] & -> & _)|(_ & Hnew & ->)].
    - by eapply default_taken.
    - eapply default_taken; [done|done| | |].
      + left. by rewrite deref_insert_eq, lookup_empty.
      + split; [done|]. intros s0 l. by rewrite deref_insert_eq, lookup_empty.
      + intros s0 d0 _ _ (l & Hs & _). by rewrite deref_insert_eq, lookup_empty in Hs. }
  rewrite (entry_get _ _ _ _ _ [] He); [done|].
  intros ->. by apply table_scalar in Hin.
Qed.

Lemma missing_settings_get_defaults_witness :
  _get_nested_value minimal_loaded (HRef 1%positive) ["ai"; "enabled"] = HBool false.
Proof.
  apply (missing_settings_get_defaults minimal_store 1%positive).
  - vm_cast_no_check (@eq_refl _ (Loaded (HRef 1%positive, minimal_loaded))).
  - cbn. tauto.
  - left. reflexivity.
  - split; [by eexists|]. intros s l Hs.
    assert (s = "github" /\ l = 2%positive) as [-> ->].
    { unfold minimal_store in Hs. rewrite deref_insert_eq in Hs.
      destruct (decide (s = "github")) as [->|Hne].
      - rewrite lookup_insert_eq in Hs. by injection Hs as <-.
      - by rewrite lookup_insert_ne, lookup_empty in Hs. }
    by eexists.
  - intros s' d' _ _ (l & Hs & _). by vm_compute in Hs.
Defined.

(** X28: only the root and the sections with defaults are written.  A
    dict of the store that is not the document itself and does not stand
    as a section that has defaults is the same after loading: the github
    section, when it is shared with none of them. *)
Theorem other_sections_untouched (h : store) (doc config : hval) (h' : store)
    (l : loc) :
  load_config h doc = Loaded (config, h') ->
  is_Some (h !! l) ->
  doc <> HRef l ->
  (forall s k d, In (s, k, d) default_table ->
                 _get_nested_value h doc [s] <> HRef l) ->
  h' !! l = h !! l.
Proof.
  intros (r & h0 & -> & Hr & Hcase & Hrun & _)%loaded_inv Hl Hdoc Hsec.
  destruct Hcase as [(-> & -> & _)|(_ & Hnew & ->)].
  - apply (run_frame _ _ _ _ Hrun Hr Hl); [congruence|].
    intros s k d Hin Hs. apply (Hsec s k d Hin). cbn [_get_nested_value]. by rewrite Hs.
  - assert (l <> r) as Hne by (intros ->; rewrite Hnew in Hl; by destruct Hl).
    rewrite (run_frame _ _ _ _ Hrun Hr); [by rewrite lookup_insert_ne| |done|].
    + by rewrite lookup_insert_ne.
    + intros s k d _. by rewrite deref_insert_eq, lookup_empty.
Qed.

Lemma other_sections_untouched_witness :
  minimal_loaded !! 2%positive = minimal_store !! 2%positive.
Proof.
  apply (other_sections_untouched minimal_store (HRef 1%positive) (HRef 1%positive)).
  - vm_cast_no_check (@eq_refl _ (Loaded (HRef 1%positive, minimal_loaded))).
  - by eexists.
  - discriminate.
  - intros s k d Hin. unfold default_table in Hin. cbn [In] in Hin.
    repeat match goal with
           | H : _ \/ _ |- _ => destruct H
           | H : False |- _ => destruct H
           end; simplify_eq; by vm_compute.
Defined.

(** X29: the documents that load.  A mapping loads exactly when it gives
    the GitHub token and repository as strings, gives every other required
    field its type or leaves it unset, and names one of the three policy
    modes if it names any; and that whatever dicts its sections share. *)
Theorem load_config_accepts (h : store) (r : loc) :
  (exists config h', load_config h (HRef r) = Loaded (config, h')) <-> acceptable h r.
Proof.
  split.
  - intros (config & h' & (r' & h0 & -> & Hr' & Hcase & Hrun & _ & Hty & Hm)%loaded_inv).
    destruct Hcase as [([= <-] & -> & _)|(_ & Hnew & ->)];
      [by eapply accepted_core|].
    exfalso.
    destruct (accepted_core _ _ _ Hrun Hr' Hty Hm) as ((x & (l & Hs & _) & _) & _).
    by rewrite deref_insert_eq, lookup_empty in Hs.
  - intros Hacc. pose proof Hacc as ((x & (l & Hs & _) & _) & _).
    assert (deref h r <> ∅) as Hne by (intros He; by rewrite He, lookup_empty in Hs).
    destruct (acceptable_core h r Hacc) as (h' & Hrun & Hty & Hm);
      [by rewrite (deref_key _ _ _ _ Hs)|].
    exists (HRef r), h'. apply load_inv. exists h.
    split_and!; [by apply parsed_ref| |done|done].
    unfold _apply_defaults. by rewrite defaults_singles.
Qed.

End ConfigFacts.
